(** * godx storage engine: Merkle root cache, folder registry, WAL recovery

    A shallow embedding of
    - [storage/storageclient/contractset/merkleroot.go], the Merkle root
      cache of a contract,
    - the folder manager of the [storagemanager] package ([addFolder],
      [selectFolderToAdd], [selectFolderToAddWithRetry], [validateShrink]),
    - [storageManager.Start] and [storageManager.DeleteFolder],
    followed by the properties that the specification states about them.

    Conventions.  Go's [int] and [uint64] are [Z] with the wrap-around
    written out ([wrapInt], [wrapU64]); [len] of a slice is the [Z] image of
    the length of the list.  A Go [error] is a value of type [error], [nil]
    is [None].  [log.Crit] and a run-time panic end the process: a function
    that may reach one returns an [outcome].  What a function takes from
    code that is not among the sources is a [Variable] of its section. *)

From Stdlib Require Import ZArith Lia List String.
From stdpp Require Import base option list gmap strings fin_maps.

Open Scope Z_scope.

(** ** Go base types *)

(** A Go [error].  [errorString] is a value made by [errors.New] or by
    [fmt.Errorf] without arguments, [errorf] one made by [fmt.Errorf] around
    another error; [updateError] is the storage manager's [*updateError]
    with the errors it has collected; the two last are the package-level
    sentinel errors of the storage manager, which the code compares by
    identity. *)
Inductive error : Type :=
| errorString (msg : string)
| errorf (msg : string) (cause : error)
| updateError (errs : list string)
| errFolderAlreadyFull
| errAllFoldersFullOrUsed.

#[global] Instance error_eq_dec : EqDecision error.
Proof. solve_decision. Defined.

(** What a call does: it returns, or the process is ended by [log.Crit]
    with the logged message, or by a run-time panic. *)
Inductive outcome (A : Type) : Type :=
| Returns (a : A)
| Crit (msg : string)
| Panic (msg : string).
Arguments Returns {A} a.
Arguments Crit {A} msg.
Arguments Panic {A} msg.

Definition maxInt : Z := 2 ^ 63 - 1.

(** Two's complement wrap-around of a 64-bit Go [int]. *)
Definition wrapInt (z : Z) : Z := (z + 2 ^ 63) mod 2 ^ 64 - 2 ^ 63.

(** Wrap-around of a Go [uint64]. *)
Definition wrapU64 (z : Z) : Z := z mod 2 ^ 64.

(** ** Package [merkle]: the cached Merkle tree *)

Module merkle.
Section CachedTree.

(** [common.Hash], the hash of an interior node from the hashes of its
    two children, and the root of a tree that holds nothing. *)
Variable Hash : Type.
Variable nodeSum : Hash -> Hash -> Hash.
Variable emptyRoot : Hash.

Record subTree : Type := mkSubTree { st_height : Z; st_sum : Hash }.

(** Modelled from the spec: the [merkle] package ([NewCachedTree], [Push],
    [PushSubTree], [Root], [CachedTreeRoot]) is not among the sources.
    The spec describes "a standard binary Merkle combination" of cached
    subtree roots and leaf hashes in leaf-index order: the tree is the
    stack of complete subtrees, the most recent (smallest) first; two
    neighbours of equal height are joined into one subtree one level up. *)
Definition CachedTree : Type := list subTree.

Definition NewCachedTree (cachedHeight : Z) : CachedTree := [].

(** Put [s] on the stack and join equal-height neighbours, older subtree
    on the left. *)
Fixpoint joinAllSubTrees (s : subTree) (rest : list subTree) : CachedTree :=
  match rest with
  | [] => [s]
  | n :: rest' =>
      if st_height s =? st_height n
      then joinAllSubTrees
             (mkSubTree (st_height s + 1) (nodeSum (st_sum n) (st_sum s))) rest'
      else s :: rest
  end.

(** A leaf of a cached tree is already a hash: it enters at height 0. *)
Definition Push (leaf : Hash) (t : CachedTree) : CachedTree :=
  joinAllSubTrees (mkSubTree 0 leaf) t.

(** A whole subtree can be pushed unless it is higher than the smallest
    subtree present. *)
Definition PushSubTree (height : Z) (sum : Hash) (t : CachedTree)
  : CachedTree + error :=
  match t with
  | hd :: _ =>
      if st_height hd <? height
      then inr (errorString "can't add a subtree that is larger than the smallest subtree")
      else inl (joinAllSubTrees (mkSubTree height sum) t)
  | [] => inl (joinAllSubTrees (mkSubTree height sum) t)
  end.

(** The root: the subtrees left on the stack are combined from the
    smallest up, each older subtree on the left. *)
Definition Root (t : CachedTree) : Hash :=
  match t with
  | [] => emptyRoot
  | s :: rest => fold_left (fun cur n => nodeSum (st_sum n) cur) rest (st_sum s)
  end.

Definition pushLeaves (t : CachedTree) (leaves : list Hash) : CachedTree :=
  fold_left (fun t r => Push r t) leaves t.

(** [merkle.CachedTreeRoot(roots, height)]: the root over the whole
    sequence, hashed from scratch (as the storage host does to check the
    root of a revision). *)
Definition CachedTreeRoot (roots : list Hash) (height : Z) : Hash :=
  Root (pushLeaves (NewCachedTree height) roots).

(** Two readings of a tree used to state its properties: the root as a
    function of the sums alone, and the tree with every height raised. *)
Definition rootOfSums (sums : list Hash) : Hash :=
  match sums with
  | [] => emptyRoot
  | x :: rest => fold_left (fun cur n => nodeSum n cur) rest x
  end.

Definition shiftHeights (d : Z) (t : CachedTree) : CachedTree :=
  map (fun s => mkSubTree (st_height s + d) (st_sum s)) t.

End CachedTree.
Arguments mkSubTree {Hash} _ _.
Arguments st_height {Hash} _.
Arguments st_sum {Hash} _.
Arguments joinAllSubTrees {Hash} nodeSum s rest.
Arguments Push {Hash} nodeSum leaf t.
Arguments PushSubTree {Hash} nodeSum height sum t.
Arguments Root {Hash} nodeSum emptyRoot t.
Arguments pushLeaves {Hash} nodeSum t leaves.
Arguments CachedTreeRoot {Hash} nodeSum emptyRoot roots height.
Arguments rootOfSums {Hash} nodeSum emptyRoot sums.
Arguments shiftHeights {Hash} d t.
End merkle.

(** ** Package [contractset]: [merkleroot.go] *)

Module contractset.
Section MerkleRoots.

Variable Hash : Type.
Variable nodeSum : Hash -> Hash -> Hash.
Variable emptyRoot : Hash.
(** The zero value [common.Hash{}] of a result that was never assigned. *)
Variable zeroHash : Hash.

(** [storage.ContractID], and the contract set's database with its one
    operation used here; [mr.db] points to a database shared with the
    rest of the contract set, so its state is threaded apart from the
    [merkleRoots] value. *)
Variable ContractID : Type.
Variable DB : Type.
Variable StoreSingleRoot : DB -> ContractID -> Hash -> DB * option error.

(** Constants of the package whose declarations are not among the
    sources. *)
Variable sectorHeight : nat.
Variable merkleRootsCacheHeight : nat.

(** Modelled from the spec: the declaration of [merkleRootsPerCache] is
    not among the sources; a cached subtree covers "a fixed number of leaf
    hashes (a power-of-two count, call it K) at a fixed height", the
    height being [merkleRootsCacheHeight] above the leaves. *)
Definition merkleRootsPerCache : Z := 2 ^ Z.of_nat merkleRootsCacheHeight.

Record cachedSubTree : Type := mkCachedSubTree { height : Z; sum : Hash }.

Record merkleRoots : Type := mkMerkleRoots {
  cachedSubTrees : list cachedSubTree;
  uncachedRoots : list Hash;
  numMerkleRoots : Z;
  id : ContractID
}.

Definition len {A : Type} (l : list A) : Z := Z.of_nat (length l).

Definition newMerkleRoots (cid : ContractID) : merkleRoots :=
  mkMerkleRoots [] [] 0 cid.

Definition newCachedSubTree (roots : list Hash) : outcome cachedSubTree :=
  if negb (len roots =? merkleRootsPerCache)
  then Crit "failed to create the cachedSubTree using the root provided"
  else Returns
         (mkCachedSubTree
            (Z.of_nat merkleRootsCacheHeight + Z.of_nat sectorHeight)
            (merkle.CachedTreeRoot nodeSum emptyRoot roots (Z.of_nat sectorHeight))).

Fixpoint appendRootMemory (roots : list Hash) (mr : merkleRoots)
  : outcome merkleRoots :=
  match roots with
  | [] => Returns mr
  | root :: roots' =>
      let uncached := uncachedRoots mr ++ [root] in
      if len uncached =? merkleRootsPerCache
      then match newCachedSubTree uncached with
           | Crit msg => Crit msg
           | Panic msg => Panic msg
           | Returns ct =>
               appendRootMemory roots'
                 (mkMerkleRoots (cachedSubTrees mr ++ [ct]) []
                    (numMerkleRoots mr) (id mr))
           end
      else appendRootMemory roots'
             (mkMerkleRoots (cachedSubTrees mr) uncached
                (numMerkleRoots mr) (id mr))
  end.

Definition loadMerkleRoots (cid : ContractID) (roots : list Hash)
  : outcome merkleRoots :=
  match appendRootMemory roots (mkMerkleRoots [] [] 0 cid) with
  | Crit msg => Crit msg
  | Panic msg => Panic msg
  | Returns mr =>
      Returns (mkMerkleRoots (cachedSubTrees mr) (uncachedRoots mr)
                 (len roots) (id mr))
  end.

Definition push (root : Hash) (mr : merkleRoots) (db : DB)
  : outcome (option error * merkleRoots * DB) :=
  if len (uncachedRoots mr) =? merkleRootsPerCache
  then Crit "the number of uncachedRoots is too big, they should be cached"
  else
    let '(db', err) := StoreSingleRoot db (id mr) root in
    match err with
    | Some e => Returns (Some e, mr, db')
    | None =>
        match appendRootMemory [root] mr with
        | Crit msg => Crit msg
        | Panic msg => Panic msg
        | Returns mr' =>
            Returns (None,
                     mkMerkleRoots (cachedSubTrees mr') (uncachedRoots mr')
                       (wrapInt (numMerkleRoots mr' + 1)) (id mr'),
                     db')
        end
    end.

(** The loop over [mr.cachedSubTrees], left at the first error. *)
Fixpoint pushSubTrees (subs : list cachedSubTree) (ct : merkle.CachedTree Hash)
  : merkle.CachedTree Hash + error :=
  match subs with
  | [] => inl ct
  | sub :: subs' =>
      match merkle.PushSubTree nodeSum (height sub) (sum sub) ct with
      | inr e => inr e
      | inl ct' => pushSubTrees subs' ct'
      end
  end.

(** The result is returned along with the [merkleRoots] and the database
    as the call leaves them. *)
Definition newMerkleRootPreview (newRoot : Hash) (mr : merkleRoots) (db : DB)
  : (Hash * option error) * merkleRoots * DB :=
  let ct := merkle.NewCachedTree Hash (Z.of_nat sectorHeight) in
  match pushSubTrees (cachedSubTrees mr) ct with
  | inr e => ((zeroHash, Some e), mr, db)
  | inl ct =>
      let ct := merkle.pushLeaves nodeSum ct (uncachedRoots mr) in
      let ct := merkle.Push nodeSum newRoot ct in
      ((merkle.Root nodeSum emptyRoot ct, None), mr, db)
  end.

(** Modelled from the spec: [merkleroot.go] has no method that returns
    the current root; the spec's [root()] is "the current committed root
    over all appended leaves", built as [newMerkleRootPreview] builds its
    tree, without the extra hash. *)
Definition root (mr : merkleRoots) : Hash * option error :=
  let ct := merkle.NewCachedTree Hash (Z.of_nat sectorHeight) in
  match pushSubTrees (cachedSubTrees mr) ct with
  | inr e => (zeroHash, Some e)
  | inl ct =>
      (merkle.Root nodeSum emptyRoot
         (merkle.pushLeaves nodeSum ct (uncachedRoots mr)), None)
  end.

Definition lenRoots (mr : merkleRoots) : Z := numMerkleRoots mr.

(** The states of a [merkleRoots]: [holds leaves mr] when [mr] is what
    the package's entry points ([newMerkleRoots], [loadMerkleRoots],
    [push]) make of the leaf sequence [leaves].  A [push] whose database
    write fails adds no leaf. *)
Inductive holds : list Hash -> merkleRoots -> Prop :=
| holds_new cid : holds [] (newMerkleRoots cid)
| holds_load cid roots mr :
    loadMerkleRoots cid roots = Returns mr -> holds roots mr
| holds_push leaves mr root db mr' db' :
    holds leaves mr ->
    push root mr db = Returns (None, mr', db') ->
    holds (leaves ++ [root]) mr'
| holds_push_err leaves mr root db e mr' db' :
    holds leaves mr ->
    push root mr db = Returns (Some e, mr', db') ->
    holds leaves mr'.

(** The cached subtree that [newCachedSubTree] makes of a block, and the
    invariant of the cache: [represents leaves mr] when [leaves] is a run
    of blocks of [merkleRootsPerCache] leaves, each kept as its cached
    subtree, followed by the uncached roots, fewer than
    [merkleRootsPerCache]. *)
Definition cachedOf (block : list Hash) : cachedSubTree :=
  mkCachedSubTree
    (Z.of_nat merkleRootsCacheHeight + Z.of_nat sectorHeight)
    (merkle.CachedTreeRoot nodeSum emptyRoot block (Z.of_nat sectorHeight)).

Definition represents (leaves : list Hash) (mr : merkleRoots) : Prop :=
  exists blocks : list (list Hash),
    leaves = concat blocks ++ uncachedRoots mr
    /\ Forall (fun b => len b = merkleRootsPerCache) blocks
    /\ cachedSubTrees mr = map cachedOf blocks
    /\ len (uncachedRoots mr) < merkleRootsPerCache.

(** The tree after whole blocks were pushed onto [t], block by block. *)
Definition blockStack (blocks : list (list Hash)) (t : merkle.CachedTree Hash)
  : merkle.CachedTree Hash :=
  fold_left
    (fun t b =>
       merkle.joinAllSubTrees nodeSum
         (merkle.mkSubTree (Z.of_nat merkleRootsCacheHeight)
            (merkle.CachedTreeRoot nodeSum emptyRoot b (Z.of_nat sectorHeight)))
         t)
    blocks t.

(** [roots]: the roots of the contract as the database has them; a number
    of roots other than the tracked one ends the process. *)
Variable FetchMerkleRoots : DB -> ContractID -> list Hash * option error.

Definition roots (mr : merkleRoots) (db : DB)
  : outcome (list Hash * option error) :=
  let '(rs, err) := FetchMerkleRoots db (id mr) in
  match err with
  | Some e => Returns (rs, Some e)
  | None =>
      if negb (len rs =? numMerkleRoots mr)
      then Crit "Error: the length of retrieved merkle roots does not match with the number of merkle roots stored in the memory"
      else Returns (rs, None)
  end.

(** A [merkleRoots] with another tracked count, and a caller that pushes
    the roots of a list one after another, up to the first [push] that does
    not succeed. *)
Definition withCount (n : Z) (mr : merkleRoots) : merkleRoots :=
  mkMerkleRoots (cachedSubTrees mr) (uncachedRoots mr) n (id mr).

Fixpoint pushAll (leaves : list Hash) (mr : merkleRoots) (db : DB)
  : outcome (option error * merkleRoots * DB) :=
  match leaves with
  | [] => Returns (None, mr, db)
  | root :: rest =>
      match push root mr db with
      | Returns (None, mr', db') => pushAll rest mr' db'
      | other => other
      end
  end.

End MerkleRoots.
Arguments mkCachedSubTree {Hash} _ _.
Arguments height {Hash} _.
Arguments sum {Hash} _.
Arguments mkMerkleRoots {Hash ContractID} _ _ _ _.
Arguments cachedSubTrees {Hash ContractID} _.
Arguments uncachedRoots {Hash ContractID} _.
Arguments numMerkleRoots {Hash ContractID} _.
Arguments id {Hash ContractID} _.
Arguments newMerkleRoots {Hash ContractID} cid.
Arguments newCachedSubTree {Hash} nodeSum emptyRoot sectorHeight merkleRootsCacheHeight roots.
Arguments appendRootMemory {Hash} nodeSum emptyRoot {ContractID} sectorHeight merkleRootsCacheHeight roots mr.
Arguments loadMerkleRoots {Hash} nodeSum emptyRoot {ContractID} sectorHeight merkleRootsCacheHeight cid roots.
Arguments push {Hash} nodeSum emptyRoot {ContractID DB} StoreSingleRoot sectorHeight merkleRootsCacheHeight root mr db.
Arguments pushSubTrees {Hash} nodeSum subs ct.
Arguments newMerkleRootPreview {Hash} nodeSum emptyRoot zeroHash {ContractID DB} sectorHeight newRoot mr db.
Arguments root {Hash} nodeSum emptyRoot zeroHash {ContractID} sectorHeight mr.
Arguments holds {Hash} nodeSum emptyRoot {ContractID DB} StoreSingleRoot sectorHeight merkleRootsCacheHeight _ _.
Arguments cachedOf {Hash} nodeSum emptyRoot sectorHeight merkleRootsCacheHeight block.
Arguments represents {Hash} nodeSum emptyRoot {ContractID} sectorHeight merkleRootsCacheHeight leaves mr.
Arguments blockStack {Hash} nodeSum emptyRoot sectorHeight merkleRootsCacheHeight blocks t.
Arguments roots {Hash ContractID DB} FetchMerkleRoots mr db.
Arguments withCount {Hash ContractID} n mr.
Arguments pushAll {Hash} nodeSum emptyRoot {ContractID DB} StoreSingleRoot sectorHeight merkleRootsCacheHeight leaves mr db.
End contractset.


(** ** Package [storagemanager] *)

Module storagemanager.

(** *** Constants *)

Definition prefixFolder : string := "storagefolder".
Definition prefixFolderPathToID : string := "folderPathToID".
Definition sectorSaltKey : string := "sectorSalt".

Definition databaseFileName : string := "storagemanager.db".
Definition walFileName : string := "storagemanager.wal".
Definition dataFileName : string := "dxstorage.dat".

(** The process target of an update ([uint8], [iota]). *)
Definition targetNormal : Z := 0.
Definition targetRecoverCommitted : Z := 1.
Definition targetRecoverUncommitted : Z := 2.

Definition folderAvailable : Z := 0.
Definition folderUnavailable : Z := 1.

Definition maxSectorsPerFolder : Z := Z.shiftl 1 32.
Definition minSectorsPerFolder : Z := Z.shiftl 1 3.
Definition maxNumFolders : Z := Z.shiftl 1 16.

(** *** Folders and the folder manager *)

(** The fields of [storageFolder] that the sources read or write ([id],
    [path], [numSectors], [storedSectors], [status], [lock], [dataFile]);
    the declaration of the type is not among them.  [lock] tells whether
    the folder's [TryLock] is held; [dataFile] names the file the handle is
    open on. *)
Record storageFolder : Type := mkStorageFolder {
  id : Z;
  path : string;
  numSectors : Z;
  storedSectors : Z;
  status : Z;
  lock : bool;
  dataFile : string
}.

(** [sfs map[string]*storageFolder]. *)
Record folderManager : Type := mkFolderManager {
  sfs : gmap string storageFolder
}.

Definition setLock (b : bool) (sf : storageFolder) : storageFolder :=
  mkStorageFolder (id sf) (path sf) (numSectors sf) (storedSectors sf)
    (status sf) b (dataFile sf).

Definition setNumSectors (n : Z) (sf : storageFolder) : storageFolder :=
  mkStorageFolder (id sf) (path sf) n (storedSectors sf)
    (status sf) (lock sf) (dataFile sf).

Definition exist (p : string) (fm : folderManager) : bool :=
  bool_decide (is_Some (sfs fm !! p)).

Definition getWithoutLock (p : string) (fm : folderManager)
  : storageFolder + error :=
  match sfs fm !! p with
  | None => inr (errorString "path not exist")
  | Some sf => inl sf
  end.

Definition delete (p : string) (fm : folderManager) : folderManager :=
  mkFolderManager (base.delete p (sfs fm)).

Definition size (fm : folderManager) : Z := Z.of_nat (base.size (sfs fm)).

(** [addFolder]: the error made for a path that is already there is
    assigned to the result variable [err]; the folder is stored all the same
    and the function ends in [return nil]. *)
Definition addFolder (sf : storageFolder) (fm : folderManager)
  : folderManager * option error :=
  let err : option error :=
    if exist (path sf) fm then Some (errorString "path already exist") else None in
  let fm := mkFolderManager (<[path sf := sf]> (sfs fm)) in
  (fm, None).

Section Selection.

(** [sf.freeSectorIndex()], not among the sources: the index it finds, or
    an error, [errFolderAlreadyFull] when the folder has no free slot. *)
Variable freeSectorIndex : storageFolder -> Z * option error.

(** One pass of [selectFolderToAdd] over [fm.sfs].  Go leaves the order in
    which [range] visits a map open: [order] is the order of this pass.  A
    folder whose [TryLock] fails is passed over; one that was locked by the
    pass and is not taken is unlocked again; the folder returned stays
    locked. *)
Fixpoint selectFolderToAdd (order : list string) (fm : folderManager)
  : folderManager * (option storageFolder * Z * option error) :=
  match order with
  | [] => (fm, (None, 0, Some errAllFoldersFullOrUsed))
  | p :: rest =>
      match sfs fm !! p with
      | None => selectFolderToAdd rest fm
      | Some sf =>
          if lock sf then selectFolderToAdd rest fm
          else if status sf =? folderUnavailable then selectFolderToAdd rest fm
          else
            let '(index, err) := freeSectorIndex (setLock true sf) in
            match err with
            | Some e =>
                if decide (e = errFolderAlreadyFull)
                then selectFolderToAdd rest fm
                else (fm, (None, 0, Some e))
            | None =>
                (mkFolderManager (<[p := setLock true sf]> (sfs fm)),
                 (Some (setLock true sf), index, None))
            end
      end
  end.

(** What the rest of the host does between two passes: the order of the
    [i]-th pass, and what other goroutines make of the registry during the
    wait that follows it. *)
Variable rangeOrder : nat -> list string.
Variable others : nat -> folderManager -> folderManager.

(** How often [for i := 0; i != retryTimes; i++] runs its body when no
    pass succeeds; a negative [retryTimes] is only met after [i] has
    wrapped around. *)
Definition tripCount (retryTimes : Z) : nat :=
  Z.to_nat (if 0 <=? retryTimes then retryTimes else 2 ^ 64 + retryTimes).

Fixpoint retryLoop (n i : nat) (fm : folderManager) (err : option error)
  : folderManager * (option storageFolder * Z * option error) :=
  match n with
  | O => (fm, (None, 0, err))
  | S n' =>
      let '(fm', (sf, index, err')) := selectFolderToAdd (rangeOrder i) fm in
      match err' with
      | None => (fm', (sf, index, None))
      | Some _ => retryLoop n' (S i) (others i fm') err'
      end
  end.

Definition selectFolderToAddWithRetry (retryTimes : Z) (fm : folderManager)
  : folderManager * (option storageFolder * Z * option error) :=
  retryLoop (tripCount retryTimes) 0 fm None.

(** The registry as the [i]-th pass finds it when no earlier pass
    succeeded. *)
Fixpoint registryAt (i : nat) (fm : folderManager) : folderManager :=
  match i with
  | O => fm
  | S j => others j (fst (selectFolderToAdd (rangeOrder j) (registryAt j fm)))
  end.

(** A folder that a pass skips: locked by someone else, unavailable, or
    full; and one that it takes. *)
Definition skipped (sf : storageFolder) : Prop :=
  lock sf = true
  \/ status sf = folderUnavailable
  \/ snd (freeSectorIndex (setLock true sf)) = Some errFolderAlreadyFull.

Definition qualifies (sf : storageFolder) : Prop :=
  lock sf = false
  /\ status sf <> folderUnavailable
  /\ snd (freeSectorIndex (setLock true sf)) = None.

Definition allSkipped (order : list string) (fm : folderManager) : Prop :=
  forall p sf, In p order -> sfs fm !! p = Some sf -> skipped sf.

End Selection.

(** [validateShrink]: the free sectors of the other folders, summed in
    [uint64]; the order of the sum does not matter. *)
Definition freeSectorsOfOthers (folderPath : string) (fm : folderManager) : Z :=
  map_fold
    (fun p sf freeSectors =>
       if decide (p = folderPath) then freeSectors
       else wrapU64 (freeSectors + wrapU64 (numSectors sf - storedSectors sf)))
    0 (sfs fm).

(** The registry is returned as the call leaves it, next to the result;
    [fm.sfs[folderPath]] of a path that is not registered is a nil pointer,
    and reading its field a run-time panic. *)
Definition validateShrink (folderPath : string) (targetNumSector : Z)
  (fm : folderManager) : folderManager * outcome (option error) :=
  let freeSectors := freeSectorsOfOthers folderPath fm in
  let freeSectors := wrapU64 (freeSectors + targetNumSector) in
  match sfs fm !! folderPath with
  | None => (fm, Panic "invalid memory address or nil pointer dereference")
  | Some sf =>
      if freeSectors <? storedSectors sf
      then (fm, Returns (Some (errorString "not enough storage space for shrink")))
      else (fm, Returns None)
  end.

(** The same sum in unbounded arithmetic. *)
Definition sumFreeOfOthers (folderPath : string) (fm : folderManager) : Z :=
  map_fold
    (fun p sf acc =>
       if decide (p = folderPath) then acc
       else acc + (numSectors sf - storedSectors sf))
    0 (sfs fm).

(** The invariants of the data model on a folder and on the registry:
    occupied at most capacity, capacity at most [maxSectorsPerFolder], at
    most [maxNumFolders] folders. *)
Definition folderInvariant (sf : storageFolder) : Prop :=
  0 <= storedSectors sf <= numSectors sf /\ numSectors sf <= maxSectorsPerFolder.

Definition registryInvariant (fm : folderManager) : Prop :=
  (forall p sf, sfs fm !! p = Some sf -> folderInvariant sf)
  /\ size fm <= maxNumFolders.


(** *** The write-ahead log and the recovery pass of [Start] *)

(** Modelled from the spec: the [writeaheadlog] package is not among the
    sources.  A transaction is "an ordered set of named operations" and
    "has a committed/uncommitted state on disk". *)
Record Operation : Type := mkOperation { Name : string; Data : list Z }.

Record Transaction : Type := mkTransaction {
  Operations : list Operation;
  committed : bool
}.

(** The target under which a recovered transaction is to be processed
    according to the two cases of the specification. *)
Definition matchingTarget (txn : Transaction) : Z :=
  if committed txn then targetRecoverCommitted else targetRecoverUncommitted.

(** The metadata store, the part of it that the sources name: the folder
    records under [prefixFolder], the path index under
    [prefixFolderPathToID], the sector records (folder id, slot index,
    reference count) and the salt under [sectorSaltKey]. *)
Record sectorRecord : Type := mkSectorRecord {
  sectorFolder : Z;
  sectorIndex : Z;
  sectorCount : Z
}.

Record database : Type := mkDatabase {
  folderRecords : gmap Z storageFolder;
  pathToID : gmap string Z;
  sectors : gmap Z sectorRecord;
  salt : option Z
}.

(** The storage manager with the part of the host it acts on: the fields
    [sectorSalt], [db], [folders] and [persistDir] of [storageManager],
    the data files that have an open handle and the files on disk. *)
Record storageManager : Type := mkStorageManager {
  sectorSalt : Z;
  db : database;
  folders : folderManager;
  persistDir : string;
  openFiles : gset string;
  diskFiles : gset string
}.

Section Recovery.

(** The [update] interface and the functions of the package that are not
    among the sources. *)
Variable update : Type.
Variable decodeFromTransaction : Transaction -> update + error.
Variable getOrCreateSectorSalt : database -> database * Z * option error.
Variable loadAllStorageFolders : database -> gmap string storageFolder + error.
Variable load : storageFolder -> storageFolder + error.
Variable filepathJoin : string -> string -> string.

(** What this run meets: the transactions that [writeaheadlog.New] finds
    unfinished in the log at a path, and at the iteration for [txns[i]]
    whether the manager has been stopped, what [sm.tm.Add()] returns and
    what locking the resource of the update returns. *)
Variable walNew : string -> list Transaction + error.
Variable stopped : nat -> bool.
Variable tmAdd : nat -> option error.
Variable lockResource : nat -> update -> option error.

(** What the recovery pass does that can be seen from outside, with the
    index of the transaction it is about: a warning for a transaction that
    cannot be decoded (with the name of its first operation when it has
    one), a warning for a resource that cannot be locked, and the goroutine
    started to run [prepareProcessReleaseUpdate] on an update with a
    target. *)
Inductive event : Type :=
| evCannotDecode (i : nat) (operation : option string)
| evCannotLock (i : nat) (up : update)
| evProcess (i : nat) (up : update) (target : Z).

Definition eventIndex (ev : event) : nat :=
  match ev with
  | evCannotDecode i _ => i
  | evCannotLock i _ => i
  | evProcess i _ _ => i
  end.

(** The warning for a transaction that cannot be decoded. *)
Definition cannotDecode (i : nat) (txn : Transaction) : event :=
  match Operations txn with
  | op :: _ => evCannotDecode i (Some (Name op))
  | [] => evCannotDecode i None
  end.

Fixpoint loadFolders (l : list (string * storageFolder))
  : list (string * storageFolder) + error :=
  match l with
  | [] => inl []
  | (p, sf) :: rest =>
      match load sf with
      | inr e => inr (errorf ("load folder " ++ path sf) e)
      | inl sf' =>
          match loadFolders rest with
          | inr e => inr e
          | inl loaded => inl ((p, sf') :: loaded)
          end
      end
  end.

Definition loadFolderManager (d : database) : folderManager + error :=
  match loadAllStorageFolders d with
  | inr e => inr e
  | inl folders =>
      match loadFolders (map_to_list folders) with
      | inr e => inr e
      | inl loaded => inl (mkFolderManager (list_to_map loaded))
      end
  end.

(** [for i := len(txns) - 1; i >= 0; i--], with [n = i + 1]. *)
Fixpoint recoverLoop (txns : list Transaction) (n : nat)
  : list event * outcome (option error) :=
  match n with
  | O => ([], Returns None)
  | S i =>
      if stopped i then ([], Returns None)
      else
        match txns !! i with
        | None => ([], Panic "index out of range")
        | Some txn =>
            match decodeFromTransaction txn with
            | inr _ =>
                let '(evs, r) := recoverLoop txns i in
                (cannotDecode i txn :: evs, r)
            | inl up =>
                match tmAdd i with
                | Some e => ([], Returns (Some e))
                | None =>
                    match lockResource i up with
                    | Some _ =>
                        let '(evs, r) := recoverLoop txns i in
                        (evCannotLock i up :: evs, r)
                    | None =>
                        let '(evs, r) := recoverLoop txns i in
                        (evProcess i up targetRecoverCommitted :: evs, r)
                    end
                end
            end
        end
  end.

(** [Start].  When loading the folders fails Go leaves [sm.folders] nil;
    here the field keeps its value, the manager not being used after a
    failed [Start]. *)
Definition Start (sm : storageManager)
  : storageManager * list event * outcome (option error) :=
  let '(d, s, err) := getOrCreateSectorSalt (db sm) in
  let sm := mkStorageManager s d (folders sm) (persistDir sm)
              (openFiles sm) (diskFiles sm) in
  match err with
  | Some e =>
      (sm, [], Returns (Some (errorf "cannot get or create the sector salt" e)))
  | None =>
      match loadFolderManager (db sm) with
      | inr e => (sm, [], Returns (Some (errorf "cannot load folder manager" e)))
      | inl fm =>
          let sm := mkStorageManager (sectorSalt sm) (db sm) fm (persistDir sm)
                      (openFiles sm) (diskFiles sm) in
          match walNew (filepathJoin (persistDir sm) walFileName) with
          | inr e => (sm, [], Returns (Some (errorf "cannot open the wal" e)))
          | inl txns =>
              let '(evs, r) := recoverLoop txns (length txns) in (sm, evs, r)
          end
      end
  end.

(** [Start] gets as far as the recovery pass, with the transactions [txns]
    found in the log. *)
Definition opensLog (sm : storageManager) (txns : list Transaction) : Prop :=
  snd (getOrCreateSectorSalt (db sm)) = None
  /\ (exists fm, loadFolderManager (fst (fst (getOrCreateSectorSalt (db sm)))) = inl fm)
  /\ walNew (filepathJoin (persistDir sm) walFileName) = inl txns.

End Recovery.

Arguments evCannotDecode {update} i operation.
Arguments evCannotLock {update} i up.
Arguments evProcess {update} i up target.
Arguments eventIndex {update} ev.
Arguments cannotDecode {update} i txn.


(** *** [DeleteFolder] *)

(** [upErr.isNil()]: an [*updateError] that has collected no error. *)
Definition isNil (errs : list string) : bool :=
  match errs with
  | [] => true
  | _ :: _ => false
  end.

(** The text of an error, as [%v] prints it; the texts of the two sentinel
    errors are not among the sources. *)
Fixpoint errorMessage (e : error) : string :=
  match e with
  | errorString msg => msg
  | errorf msg cause => (msg ++ ": " ++ errorMessage cause)%string
  | updateError errs => String.concat "; " errs
  | errFolderAlreadyFull => "folder already full"
  | errAllFoldersFullOrUsed => "all folders are full or in use"
  end.

(** What the host answers to the input and output of one call: the error,
    if any, of deleting the folder's record, of closing its data file and
    of removing the file. *)
Record ioFaults : Type := mkIoFaults {
  deleteStorageFolderErr : option error;
  closeErr : option error;
  removeErr : option error
}.

Definition noFaults : ioFaults := mkIoFaults None None None.

Section Folders.

(** The home directory of the current user and the functions of
    [path/filepath]. *)
Variable homeDir : string.
Variable filepathJoin : string -> string -> string.
Variable filepathAbs : string -> string + error.

(** Functions of the package that are not among the sources:
    [sizeToNumSectors], and the relocation of one sector into another
    folder, which is one transaction of the log. *)
Variable sizeToNumSectors : Z -> Z.
Variable moveSector :
  storageManager -> Z * sectorRecord -> storageManager * option error.

Definition absolutePath (p : string) : string + error :=
  if String.eqb p "~" then inl homeDir
  else if String.prefix "~/" p
       then inl (filepathJoin homeDir (String.substring 2 (String.length p - 2) p))
       else filepathAbs p.

(** Modelled from the spec: [db.deleteStorageFolder] is not among the
    sources.  The metadata store offers "atomic single-key put/get/delete":
    the record of the folder and its entry in the path index are deleted,
    or an error is returned and the store is as it was. *)
Definition deleteStorageFolder (fault : option error) (sf : storageFolder)
  (d : database) : database * option error :=
  match fault with
  | Some e => (d, Some e)
  | None =>
      (mkDatabase (base.delete (id sf) (folderRecords d))
         (base.delete (path sf) (pathToID d)) (sectors d) (salt d), None)
  end.

(** Modelled from the spec: [shrinkFolder] is not among the sources.
    Resize and delete "validate that the remaining folders have enough
    aggregate free capacity to absorb any sectors that must be evacuated
    when shrinking, then move/evacuate sectors one WAL transaction at a
    time, shrink/grow the extent file, and update the registry"; "partial
    failures during shrink/delete leave the folder in its pre-operation
    state (restored via WAL revert) and are reported as a single composed
    error".  The sectors that must be evacuated are those whose record
    places them in the folder at a slot from the target capacity on.  The
    result carries the sectors that were moved. *)
Definition sectorsToEvacuate (folder target : Z) (d : database)
  : list (Z * sectorRecord) :=
  List.filter
    (fun kr => (sectorFolder (snd kr) =? folder) && (target <=? sectorIndex (snd kr)))
    (map_to_list (sectors d)).

Fixpoint evacuate (todo : list (Z * sectorRecord)) (sm : storageManager)
  : storageManager * list Z * option error :=
  match todo with
  | [] => (sm, [], None)
  | s :: rest =>
      let '(sm', err) := moveSector sm s in
      match err with
      | Some e => (sm', [], Some e)
      | None =>
          let '(sm'', moved, err') := evacuate rest sm' in
          (sm'', fst s :: moved, err')
      end
  end.

Definition shrinkFolder (folderPath : string) (size : Z) (sm : storageManager)
  : storageManager * list Z * outcome (option error) :=
  let target := sizeToNumSectors size in
  match snd (validateShrink folderPath target (folders sm)) with
  | Panic msg => (sm, [], Panic msg)
  | Crit msg => (sm, [], Crit msg)
  | Returns (Some e) => (sm, [], Returns (Some e))
  | Returns None =>
      match sfs (folders sm) !! folderPath with
      | None => (sm, [], Returns (Some (errorString "path not exist")))
      | Some sf =>
          let '(sm1, moved, err) :=
            evacuate (sectorsToEvacuate (id sf) target (db sm)) sm in
          match err with
          | Some e => (sm, moved, Returns (Some (updateError [errorMessage e])))
          | None =>
              match sfs (folders sm1) !! folderPath with
              | None => (sm1, moved, Returns None)
              | Some sf1 =>
                  let sf' := setNumSectors target sf1 in
                  (mkStorageManager (sectorSalt sm1)
                     (mkDatabase (<[id sf' := sf']> (folderRecords (db sm1)))
                        (pathToID (db sm1)) (sectors (db sm1)) (salt (db sm1)))
                     (mkFolderManager (<[folderPath := sf']> (sfs (folders sm1))))
                     (persistDir sm1) (openFiles sm1) (diskFiles sm1),
                   moved, Returns None)
              end
          end
      end
  end.

(** [DeleteFolder].  The result carries the sectors that were moved.  [sf]
    is a pointer into the registry: after [shrinkFolder] it is read there
    again. *)
Definition DeleteFolder (io : ioFaults) (folderPath : string)
  (sm : storageManager) : storageManager * list Z * outcome (option error) :=
  match absolutePath folderPath with
  | inr e => (sm, [], Returns (Some e))
  | inl folderPath =>
      match getWithoutLock folderPath (folders sm) with
      | inr e => (sm, [], Returns (Some e))
      | inl sf =>
          if numSectors sf =? 0 then (sm, [], Returns None)
          else
            match shrinkFolder folderPath 0 sm with
            | (sm, moved, Panic msg) => (sm, moved, Panic msg)
            | (sm, moved, Crit msg) => (sm, moved, Crit msg)
            | (sm, moved, Returns err) =>
                let haveErr :=
                  match err with
                  | None => false
                  | Some (updateError errs) => negb (isNil errs)
                  | Some _ => true
                  end in
                if haveErr then (sm, moved, Returns err)
                else
                  let sf := default sf (sfs (folders sm) !! folderPath) in
                  let '(d, err) :=
                    deleteStorageFolder (deleteStorageFolderErr io) sf (db sm) in
                  let sm := mkStorageManager (sectorSalt sm) d (folders sm)
                              (persistDir sm) (openFiles sm) (diskFiles sm) in
                  match err with
                  | Some e => (sm, moved, Returns (Some e))
                  | None =>
                      let sm := mkStorageManager (sectorSalt sm) (db sm)
                                  (delete folderPath (folders sm))
                                  (persistDir sm) (openFiles sm) (diskFiles sm) in
                      match closeErr io with
                      | Some e => (sm, moved, Returns (Some e))
                      | None =>
                          let sm := mkStorageManager (sectorSalt sm) (db sm)
                                      (folders sm) (persistDir sm)
                                      (openFiles sm ∖ {[dataFile sf]})
                                      (diskFiles sm) in
                          match removeErr io with
                          | Some e => (sm, moved, Returns (Some e))
                          | None =>
                              (mkStorageManager (sectorSalt sm) (db sm)
                                 (folders sm) (persistDir sm) (openFiles sm)
                                 (diskFiles sm
                                    ∖ {[filepathJoin (path sf) dataFileName]}),
                               moved, Returns None)
                          end
                      end
                  end
            end
      end
  end.

(** [expandFolder], not among the sources. *)
Variable expandFolder :
  string -> Z -> storageManager -> storageManager * outcome (option error).

(** [ResizeFolder].  The result carries the sectors that were moved. *)
Definition ResizeFolder (folderPath : string) (size : Z) (sm : storageManager)
  : storageManager * list Z * outcome (option error) :=
  match absolutePath folderPath with
  | inr e => (sm, [], Returns (Some e))
  | inl folderPath =>
      if maxSectorsPerFolder <? sizeToNumSectors size
      then (sm, [], Returns (Some (errorString "folder size too large")))
      else if sizeToNumSectors size <? minSectorsPerFolder
      then (sm, [], Returns (Some (errorString "folder size too small")))
      else
        match getWithoutLock folderPath (folders sm) with
        | inr e => (sm, [], Returns (Some e))
        | inl sf =>
            let targetNumSectors := sizeToNumSectors size in
            if targetNumSectors =? numSectors sf then (sm, [], Returns None)
            else if numSectors sf <? targetNumSectors
            then let '(sm', r) := expandFolder folderPath size sm in (sm', [], r)
            else shrinkFolder folderPath size sm
        end
  end.

(** A registered folder that holds no sector: its count of stored sectors
    is zero and no sector record of the metadata store places a sector in
    it. *)
Definition holdsNoSector (sf : storageFolder) (sm : storageManager) : Prop :=
  storedSectors sf = 0
  /\ forall k r, sectors (db sm) !! k = Some r -> sectorFolder r <> id sf.

End Folders.


(** *** [getFolders], [Folders] and [AvailableSpace] *)

Section GetFolders.

(** [common.Lock], not among the sources: it takes the locks it is given.
    A lock is named by the path of its folder. *)
Variable commonLock : list string -> folderManager -> folderManager.

(** The loop of [getFolders]: the locks and the folders collected so far,
    or nothing when a path is not registered.  The map of the result holds
    pointers to the folders of the registry; a pointer is the path under
    which the registry holds the folder, as a lock is. *)
Fixpoint lookupFolders (folderPaths : list string) (fm : folderManager)
  (locks : list string) (found : gmap Z string)
  : option (list string * gmap Z string) :=
  match folderPaths with
  | [] => Some (locks, found)
  | p :: rest =>
      match sfs fm !! p with
      | None => None
      | Some sf => lookupFolders rest fm (locks ++ [p]) (<[id sf := p]> found)
      end
  end.

(** The folders that a map of pointers gives in a registry. *)
Definition pointedFolders (found : gmap Z string) (fm : folderManager)
  : gmap Z storageFolder :=
  omap (fun p => sfs fm !! p) found.

(** [getFolders], with the number of holders of the read lock [fm.lock]
    before and after: [RLock] adds one, [RUnlock] takes one away.  The
    folders of the result are those that the pointers give when the call
    returns, after [common.Lock]. *)
Definition getFolders (folderPaths : list string) (fm : folderManager)
  (readers : nat)
  : folderManager * nat * gmap Z storageFolder * option error :=
  let readers := S readers in
  match lookupFolders folderPaths fm [] ∅ with
  | None => (fm, readers, ∅, Some (errorString "folder not exist"))
  | Some (locks, found) =>
      let readers := Nat.pred readers in
      let fm := commonLock locks fm in
      (fm, readers, pointedFolders found fm, None)
  end.

End GetFolders.

(** [storage.HostFolder] and [storage.HostSpace]. *)
Module HostFolder.
Record t : Type := mk { Path : string; TotalSectors : Z; UsedSectors : Z }.
End HostFolder.

Module HostSpace.
Record t : Type := mk { TotalSectors : Z; UsedSectors : Z; FreeSectors : Z }.
End HostSpace.

(** [Folders]: one entry for each folder, in the order in which the map is
    gone through, which Go leaves open; here it is that of [map_to_list]. *)
Definition Folders (sm : storageManager) : list HostFolder.t :=
  map (fun kv => HostFolder.mk (path (snd kv)) (numSectors (snd kv))
                   (storedSectors (snd kv)))
    (map_to_list (sfs (folders sm))).

(** [AvailableSpace]: three sums in [uint64]. *)
Definition AvailableSpace (sm : storageManager) : HostSpace.t :=
  map_fold
    (fun _ sf acc =>
       HostSpace.mk
         (wrapU64 (HostSpace.TotalSectors acc + numSectors sf))
         (wrapU64 (HostSpace.UsedSectors acc + storedSectors sf))
         (wrapU64 (HostSpace.FreeSectors acc
                   + wrapU64 (numSectors sf - storedSectors sf))))
    (HostSpace.mk 0 0 0) (sfs (folders sm)).

(** The sum of a quantity over the folders of a registry, in unbounded
    arithmetic, and the free sectors of a folder. *)
Definition sumOver (f : storageFolder -> Z) (fm : folderManager) : Z :=
  map_fold (fun _ sf acc => acc + f sf) 0 (sfs fm).

Definition freeOf (sf : storageFolder) : Z := numSectors sf - storedSectors sf.

End storagemanager.
(** ** Small inputs to run the code on *)

Module example.

(** Strings for hashes, a node's hash showing its two children: a root then
    spells out the tree it stands for; blocks of [2 ^ 1] leaves are cached
    and [sectorHeight] is 2. *)

Definition showNode (l r : string) : string := ("(" ++ l ++ r ++ ")")%string.

Definition store (db : list string) (_ : unit) (h : string)
  : list string * option error := (db ++ [h], None).

Definition refuse (db : list string) (_ : unit) (h : string)
  : list string * option error := (db, Some (errorString "disk full")).

Definition fetch (db : list string) (_ : unit) : list string * option error :=
  (db, None).

Definition load : list string -> outcome (contractset.merkleRoots string unit) :=
  contractset.loadMerkleRoots showNode "-"%string 2 1 tt.

Definition three : contractset.merkleRoots string unit :=
  contractset.mkMerkleRoots
    [contractset.mkCachedSubTree 3 "(ab)"%string] ["c"%string] 3 tt.

(** A registry with one folder, and another folder claiming its path. *)
Definition dataFolder : storagemanager.storageFolder :=
  storagemanager.mkStorageFolder 1 "/data" 16 3 0 false "/data/dxstorage.dat".

Definition otherFolder : storagemanager.storageFolder :=
  storagemanager.mkStorageFolder 2 "/data" 8 0 0 false "/data/dxstorage.dat".

Definition registry : storagemanager.folderManager :=
  storagemanager.mkFolderManager {[ "/data"%string := dataFolder ]}.

(** Two folders with free slots, for a shrink of [/a]. *)
Definition folderA : storagemanager.storageFolder :=
  storagemanager.mkStorageFolder 1 "/a" 16 10 0 false "/a/dxstorage.dat".

Definition folderB : storagemanager.storageFolder :=
  storagemanager.mkStorageFolder 2 "/b" 16 4 0 false "/b/dxstorage.dat".

Definition twoFolders : storagemanager.folderManager :=
  storagemanager.mkFolderManager
    (<["/a"%string := folderA]> {[ "/b"%string := folderB ]}).

(** A full folder and one locked by another goroutine; a registry where
    the second folder visited has room. *)
Definition fullFolder : storagemanager.storageFolder :=
  storagemanager.mkStorageFolder 1 "/a" 8 8 0 false "/a/dxstorage.dat".

Definition busyFolder : storagemanager.storageFolder :=
  storagemanager.mkStorageFolder 2 "/b" 16 4 0 true "/b/dxstorage.dat".

Definition noRoom : storagemanager.folderManager :=
  storagemanager.mkFolderManager
    (<["/a"%string := fullFolder]> {[ "/b"%string := busyFolder ]}).

Definition someRoom : storagemanager.folderManager :=
  storagemanager.mkFolderManager
    (<["/a"%string := fullFolder]> {[ "/b"%string := folderB ]}).

(** A [freeSectorIndex] that hands out the slots in order, passes that
    visit [/a] then [/b], and a host where nothing else happens. *)
Definition freeIndex (sf : storagemanager.storageFolder) : Z * option error :=
  if storagemanager.storedSectors sf <? storagemanager.numSectors sf
  then (storagemanager.storedSectors sf, None)
  else (0, Some errFolderAlreadyFull).

Definition everyPass (i : nat) : list string := ["/a"; "/b"]%string.

Definition idle (i : nat) (fm : storagemanager.folderManager)
  : storagemanager.folderManager := fm.

(** A host whose log holds three unfinished transactions, the second one
    undecodable and the third one uncommitted; an update is named by its
    first operation. *)
Definition decode (txn : storagemanager.Transaction) : string + error :=
  match storagemanager.Operations txn with
  | op :: _ =>
      if String.eqb (storagemanager.Name op) "garbage"
      then inr (errorString "unknown update")
      else inl (storagemanager.Name op)
  | [] => inr (errorString "empty transaction")
  end.

Definition log : list storagemanager.Transaction :=
  [storagemanager.mkTransaction
     [storagemanager.mkOperation "addSector" [1]] true;
   storagemanager.mkTransaction
     [storagemanager.mkOperation "garbage" []] true;
   storagemanager.mkTransaction
     [storagemanager.mkOperation "deleteSector" [2]] false].

Definition getSalt (d : storagemanager.database)
  : storagemanager.database * Z * option error := (d, 7, None).

Definition loadAll (d : storagemanager.database)
  : gmap string storagemanager.storageFolder + error := inl ∅.

Definition loadOne (sf : storagemanager.storageFolder)
  : storagemanager.storageFolder + error := inl sf.

Definition join (dir name : string) : string := (dir ++ "/" ++ name)%string.

Definition openWal (p : string) : list storagemanager.Transaction + error :=
  inl log.

Definition running (i : nat) : bool := false.
Definition addOk (i : nat) : option error := None.
Definition lockOk (i : nat) (up : string) : option error := None.

Definition emptyDatabase : storagemanager.database :=
  storagemanager.mkDatabase ∅ ∅ ∅ None.

Definition host : storagemanager.storageManager :=
  storagemanager.mkStorageManager 0 emptyDatabase
    (storagemanager.mkFolderManager ∅) "/host" ∅ ∅.

Definition Start :=
  storagemanager.Start string decode getSalt loadAll loadOne join openWal
    running addOk lockOk.

Definition opensLog :=
  storagemanager.opensLog getSalt loadAll loadOne join openWal.

(** A host with three folders: [/data], where the one sector record of the
    metadata store places its sector, [/spare] that holds nothing, and
    [/void] that holds nothing and has no capacity. *)
Definition spareFolder : storagemanager.storageFolder :=
  storagemanager.mkStorageFolder 3 "/spare" 8 0 0 false "/spare/dxstorage.dat".

Definition voidFolder : storagemanager.storageFolder :=
  storagemanager.mkStorageFolder 4 "/void" 0 0 0 false "/void/dxstorage.dat".

Definition sectorInData : storagemanager.sectorRecord :=
  storagemanager.mkSectorRecord 1 0 3.

Definition hostWithFolders : storagemanager.storageManager :=
  storagemanager.mkStorageManager 7
    (storagemanager.mkDatabase
       (<[1 := dataFolder]> (<[3 := spareFolder]> {[ 4 := voidFolder ]}))
       (<["/data"%string := 1]>
          (<["/spare"%string := 3]> {[ "/void"%string := 4 ]}))
       {[ 100 := sectorInData ]} (Some 7))
    (storagemanager.mkFolderManager
       (<["/data"%string := dataFolder]>
          (<["/spare"%string := spareFolder]> {[ "/void"%string := voidFolder ]})))
    "/host"
    (list_to_set ["/data/dxstorage.dat"; "/spare/dxstorage.dat";
                  "/void/dxstorage.dat"]%string)
    (list_to_set ["/data/dxstorage.dat"; "/spare/dxstorage.dat";
                  "/void/dxstorage.dat"]%string).

Definition hostWithoutSpare : storagemanager.storageManager :=
  storagemanager.mkStorageManager 7
    (storagemanager.mkDatabase
       (<[1 := dataFolder]> {[ 4 := voidFolder ]})
       (<["/data"%string := 1]> {[ "/void"%string := 4 ]})
       {[ 100 := sectorInData ]} (Some 7))
    (storagemanager.mkFolderManager
       (<["/data"%string := dataFolder]> {[ "/void"%string := voidFolder ]}))
    "/host"
    (list_to_set ["/data/dxstorage.dat"; "/void/dxstorage.dat"]%string)
    (list_to_set ["/data/dxstorage.dat"; "/void/dxstorage.dat"]%string).

Definition home : string := "/home/host".
Definition absolute (p : string) : string + error := inl p.
Definition toSectors (size : Z) : Z := size / 4096.
Definition relocate (sm : storagemanager.storageManager)
  (s : Z * storagemanager.sectorRecord)
  : storagemanager.storageManager * option error := (sm, None).

Definition DeleteFolder :=
  storagemanager.DeleteFolder home join absolute toSectors relocate.

(** A [freeSectorIndex] that fails on [/a] with an error of the disk. *)
Definition faultyIndex (sf : storagemanager.storageFolder) : Z * option error :=
  if String.eqb (storagemanager.path sf) "/a"
  then (0, Some (errorString "io"))
  else freeIndex sf.

(** Another goroutine that gives back the lock of [/b] during the wait
    after the first pass. *)
Definition release (i : nat) (fm : storagemanager.folderManager)
  : storagemanager.folderManager :=
  if Nat.eqb i 0
  then storagemanager.mkFolderManager
         (alter (storagemanager.setLock false) "/b"%string
            (storagemanager.sfs fm))
  else fm.

(** A host with the two folders [/a] and [/b]. *)
Definition hostTwo : storagemanager.storageManager :=
  storagemanager.mkStorageManager 7 emptyDatabase twoFolders "/host" ∅ ∅.

(** A [common.Lock] that sets the lock of each folder it is given. *)
Definition takeLocks (locks : list string) (fm : storagemanager.folderManager)
  : storagemanager.folderManager :=
  storagemanager.mkFolderManager
    (foldr (fun p m => alter (storagemanager.setLock true) p m)
       (storagemanager.sfs fm) locks).

(** A manager that is stopped when the pass comes to index 1, a thread
    manager that refuses at index 0, a log that cannot be opened, and a
    database that holds the two folders [/a] and [/b]. *)
Definition stoppedAt1 (i : nat) : bool := Nat.eqb i 1.

Definition addFailsAt0 (i : nat) : option error :=
  if Nat.eqb i 0 then Some (errorString "thread manager stopped") else None.

Definition noWal (p : string) : list storagemanager.Transaction + error :=
  inr (errorString "no such file").

Definition loadTwo (d : storagemanager.database)
  : gmap string storagemanager.storageFolder + error :=
  inl (storagemanager.sfs twoFolders).

(** An [expandFolder] that does nothing. *)
Definition expand (p : string) (size : Z) (sm : storagemanager.storageManager)
  : storagemanager.storageManager * outcome (option error) :=
  (sm, Returns None).

Definition ResizeFolder :=
  storagemanager.ResizeFolder home join absolute toSectors relocate expand.

End example.

(** * Properties *)

(** ** Machine integers *)

Lemma wrapInt_small z : - 2 ^ 63 <= z <= maxInt -> wrapInt z = z.
Proof.
unfold wrapInt, maxInt. intros Hz.
rewrite Z.mod_small by lia. lia.
Qed.

Lemma wrapU64_small z : 0 <= z < 2 ^ 64 -> wrapU64 z = z.
Proof. intros Hz. unfold wrapU64. apply Z.mod_small. lia. Qed.

Lemma wrapU64_range z : 0 <= wrapU64 z < 2 ^ 64.
Proof. unfold wrapU64. apply Z.mod_pos_bound. lia. Qed.

Lemma wrapU64_add_l a b : wrapU64 (wrapU64 a + b) = wrapU64 (a + b).
Proof. unfold wrapU64. apply Zplus_mod_idemp_l. Qed.

(** ** The cached Merkle tree *)

Section MerkleFacts.
Context {Hash : Type} (nodeSum : Hash -> Hash -> Hash) (emptyRoot : Hash).

Local Abbreviation join := (merkle.joinAllSubTrees nodeSum).
Local Abbreviation Root := (merkle.Root nodeSum emptyRoot).
Local Abbreviation pushLeaves := (merkle.pushLeaves nodeSum).
Local Abbreviation node := merkle.mkSubTree.
Local Abbreviation hgt := merkle.st_height.
Local Abbreviation shift := (merkle.shiftHeights).

Lemma Root_join s t : Root (join s t) = Root (s :: t).
Proof.
  revert s. induction t as [|n t IH]; intros s; simpl; [reflexivity|].
  destruct (hgt s =? hgt n); [|reflexivity].
  rewrite IH. reflexivity.
Qed.

Lemma Root_sums t : Root t = merkle.rootOfSums nodeSum emptyRoot (map merkle.st_sum t).
Proof.
  destruct t as [|s t]; simpl; [reflexivity|].
  generalize (merkle.st_sum s). induction t as [|n t IH]; intros cur; simpl;
    [reflexivity|apply IH].
Qed.

Lemma Root_same_sums t1 t2 :
  map merkle.st_sum t1 = map merkle.st_sum t2 -> Root t1 = Root t2.
Proof. intros E. rewrite !Root_sums, E. reflexivity. Qed.

Lemma sums_shift d (t : merkle.CachedTree Hash) :
  map merkle.st_sum (shift d t) = map merkle.st_sum t.
Proof. unfold merkle.shiftHeights. rewrite map_map. reflexivity. Qed.

Lemma join_shift d h x (t : merkle.CachedTree Hash) :
  join (node (h + d) x) (shift d t) = shift d (join (node h x) t).
Proof.
  revert h x. induction t as [|n t IH]; intros h x; simpl; [reflexivity|].
  replace (h + d =? hgt n + d) with (h =? hgt n)
    by (destruct (Z.eqb_spec h (hgt n)); symmetry;
        [apply Z.eqb_eq|apply Z.eqb_neq]; lia).
  destruct (h =? hgt n); [|reflexivity].
  replace (h + d + 1) with (h + 1 + d) by lia.
  apply IH.
Qed.

Lemma join_above s (t : merkle.CachedTree Hash) :
  Forall (fun n => hgt s < hgt n) t -> join s t = s :: t.
Proof.
  destruct t as [|n t]; simpl; [reflexivity|].
  intros Ht. inversion Ht as [|? ? Hn _]; subst.
  destruct (Z.eqb_spec (hgt s) (hgt n)); [lia|reflexivity].
Qed.

Lemma join_heights k s (t : merkle.CachedTree Hash) :
  k <= hgt s -> Forall (fun n => k <= hgt n) t ->
  Forall (fun n => k <= hgt n) (join s t).
Proof.
  revert s. induction t as [|n t IH]; intros s Hs Ht; simpl.
  - constructor; [exact Hs|constructor].
  - inversion Ht as [|? ? Hn Ht']; subst.
    destruct (hgt s =? hgt n).
    + apply IH; [simpl; lia|exact Ht'].
    + constructor; [exact Hs|exact Ht].
Qed.

Lemma pushLeaves_app t l1 l2 :
  pushLeaves t (l1 ++ l2) = pushLeaves (pushLeaves t l1) l2.
Proof. unfold merkle.pushLeaves. apply fold_left_app. Qed.

Lemma heights_weaken (k k' : Z) (t : merkle.CachedTree Hash) :
  k <= k' -> Forall (fun n => k' <= hgt n) t -> Forall (fun n => k <= hgt n) t.
Proof. intros Hk Ht. apply (Forall_impl _ _ _ Ht). intros n Hn. lia. Qed.

(** A full block of [2 ^ k] leaves pushed onto subtrees of height at
    least [k] acts as one subtree of height [k]. *)
Lemma pushLeaves_block_ex (k : nat) : forall l : list Hash,
  length l = (2 ^ k)%nat ->
  exists r, forall t,
    Forall (fun n => Z.of_nat k <= hgt n) t ->
    pushLeaves t l = join (node (Z.of_nat k) r) t.
Proof.
  induction k as [|k IH]; intros l Hl.
  - destruct l as [|x [|y l]]; simpl in Hl; try discriminate.
    exists x. intros t _. reflexivity.
  - assert (Hlen : length l = (2 ^ k + 2 ^ k)%nat) by (simpl in Hl; lia).
    rewrite <- (take_drop (2 ^ k)%nat l).
    destruct (IH (take (2 ^ k)%nat l)) as [r1 H1];
      [rewrite length_take; lia|].
    destruct (IH (drop (2 ^ k)%nat l)) as [r2 H2];
      [rewrite length_drop; lia|].
    exists (nodeSum r1 r2). intros t Ht.
    rewrite pushLeaves_app.
    rewrite H1 by (apply (heights_weaken _ (Z.of_nat (S k))); [lia|exact Ht]).
    rewrite join_above
      by (apply (Forall_impl _ _ _ Ht); intros n Hn; simpl; lia).
    rewrite H2.
    + simpl. rewrite Z.eqb_refl.
      replace (Z.of_nat k + 1) with (Z.of_nat (S k)) by lia. reflexivity.
    + constructor; [simpl; lia|].
      apply (heights_weaken _ (Z.of_nat (S k))); [lia|exact Ht].
Qed.

Lemma pushLeaves_block (k : nat) (l : list Hash) t :
  length l = (2 ^ k)%nat ->
  Forall (fun n => Z.of_nat k <= hgt n) t ->
  pushLeaves t l = join (node (Z.of_nat k) (Root (pushLeaves [] l))) t.
Proof.
  intros Hl Ht. destruct (pushLeaves_block_ex k l Hl) as [r Hr].
  rewrite (Hr []) by constructor. simpl. apply Hr. exact Ht.
Qed.

(** Fewer than [2 ^ k] leaves stay below height [k] and leave the
    subtrees under them alone. *)
Lemma pushLeaves_partial (k : nat) : forall (l : list Hash) t,
  (length l < 2 ^ k)%nat ->
  Forall (fun n => Z.of_nat k <= hgt n) t ->
  pushLeaves t l = pushLeaves [] l ++ t
  /\ Forall (fun n => hgt n < Z.of_nat k) (pushLeaves [] l).
Proof.
  induction k as [|k IH]; intros l t Hl Ht.
  - destruct l; simpl in Hl; [|lia]. split; [reflexivity|constructor].
  - destruct (Nat.lt_ge_cases (length l) (2 ^ k)) as [Hlt|Hge].
    + destruct (IH l t Hlt) as [E F];
        [apply (heights_weaken _ (Z.of_nat (S k))); [lia|exact Ht]|].
      split; [exact E|].
      apply (Forall_impl _ _ _ F). intros n Hn. lia.
    + assert (Hlen : (length l < 2 ^ k + 2 ^ k)%nat) by (simpl in Hl; lia).
      rewrite <- (take_drop (2 ^ k)%nat l).
      set (l1 := take (2 ^ k)%nat l). set (l2 := drop (2 ^ k)%nat l).
      assert (H1 : length l1 = (2 ^ k)%nat)
        by (unfold l1; rewrite length_take; lia).
      assert (H2 : (length l2 < 2 ^ k)%nat)
        by (unfold l2; rewrite length_drop; lia).
      assert (Ht' : Forall (fun n => Z.of_nat k <= hgt n) t)
        by (apply (heights_weaken _ (Z.of_nat (S k))); [lia|exact Ht]).
      rewrite !pushLeaves_app.
      rewrite (pushLeaves_block k l1 t H1 Ht').
      rewrite (pushLeaves_block k l1 [] H1) by constructor.
      rewrite join_above
        by (apply (Forall_impl _ _ _ Ht); intros n Hn; simpl; lia).
      simpl.
      set (s1 := node (Z.of_nat k) (Root (pushLeaves [] l1))).
      destruct (IH l2 (s1 :: t) H2) as [E F];
        [constructor; [simpl; lia|exact Ht']|].
      destruct (IH l2 [s1] H2) as [E0 _];
        [constructor; [simpl; lia|constructor]|].
      rewrite E, E0. split.
      * rewrite <- app_assoc. reflexivity.
      * apply Forall_app. split.
        -- apply (Forall_impl _ _ _ F). intros n Hn. lia.
        -- constructor; [simpl; lia|constructor].
Qed.

(** Raising the heights of the subtrees underneath does not change the
    root that up to one block of leaves on top of them gives. *)
Lemma Root_pushLeaves_shift (k : nat) d (l : list Hash) t :
  (length l <= 2 ^ k)%nat -> 0 <= d ->
  Forall (fun n => Z.of_nat k <= hgt n) t ->
  Root (pushLeaves (shift d t) l) = Root (pushLeaves t l).
Proof.
  intros Hl Hd Ht.
  assert (Hs : Forall (fun n => Z.of_nat k <= hgt n) (shift d t)).
  { unfold merkle.shiftHeights. apply Forall_map.
    apply (Forall_impl _ _ _ Ht). intros n Hn. simpl. lia. }
  destruct (Nat.eq_dec (length l) (2 ^ k)%nat) as [Heq|Hne].
  - rewrite (pushLeaves_block k l _ Heq Hs), (pushLeaves_block k l _ Heq Ht).
    rewrite !Root_join. apply Root_same_sums. simpl.
    rewrite sums_shift. reflexivity.
  - destruct (pushLeaves_partial k l (shift d t)) as [E1 _]; [lia|exact Hs|].
    destruct (pushLeaves_partial k l t) as [E2 _]; [lia|exact Ht|].
    rewrite E1, E2. apply Root_same_sums.
    rewrite !map_app, sums_shift. reflexivity.
Qed.

End MerkleFacts.

(** ** The Merkle root cache of a contract *)

Section MerkleRootsFacts.
Context {Hash ContractID DB : Type}.
Context (nodeSum : Hash -> Hash -> Hash) (emptyRoot zeroHash : Hash).
Context (StoreSingleRoot : DB -> ContractID -> Hash -> DB * option error).
Context (sectorHeight merkleRootsCacheHeight : nat).

Local Abbreviation K := (contractset.merkleRootsPerCache merkleRootsCacheHeight).
Local Abbreviation len := contractset.len.
Local Abbreviation appendRootMemory :=
  (contractset.appendRootMemory (ContractID := ContractID)
     nodeSum emptyRoot sectorHeight merkleRootsCacheHeight).
Local Abbreviation push :=
  (contractset.push nodeSum emptyRoot StoreSingleRoot
     sectorHeight merkleRootsCacheHeight).
Local Abbreviation preview :=
  (contractset.newMerkleRootPreview (ContractID := ContractID) (DB := DB)
     nodeSum emptyRoot zeroHash sectorHeight).
Local Abbreviation root :=
  (contractset.root (ContractID := ContractID)
     nodeSum emptyRoot zeroHash sectorHeight).
Local Abbreviation holds :=
  (contractset.holds nodeSum emptyRoot StoreSingleRoot
     sectorHeight merkleRootsCacheHeight).
Local Abbreviation represents :=
  (contractset.represents (ContractID := ContractID)
     nodeSum emptyRoot sectorHeight merkleRootsCacheHeight).
Local Abbreviation cachedOf :=
  (contractset.cachedOf nodeSum emptyRoot sectorHeight merkleRootsCacheHeight).
Local Abbreviation blockStack :=
  (contractset.blockStack nodeSum emptyRoot sectorHeight merkleRootsCacheHeight).
Local Abbreviation treeRoot :=
  (fun l => merkle.CachedTreeRoot nodeSum emptyRoot l (Z.of_nat sectorHeight)).
Local Abbreviation pushLeaves := (merkle.pushLeaves nodeSum).
Local Abbreviation hgt := merkle.st_height.

Lemma perCache_nat : K = Z.of_nat (2 ^ merkleRootsCacheHeight)%nat.
Proof.
  unfold contractset.merkleRootsPerCache.
  rewrite Nat2Z.inj_pow. reflexivity.
Qed.

Lemma perCache_pos : 0 < K.
Proof. unfold contractset.merkleRootsPerCache. apply Z.pow_pos_nonneg; lia. Qed.

Lemma len_block (b : list Hash) :
  len b = K -> length b = (2 ^ merkleRootsCacheHeight)%nat.
Proof. rewrite perCache_nat. unfold contractset.len. lia. Qed.

Lemma len_app (l1 l2 : list Hash) : len (l1 ++ l2) = len l1 + len l2.
Proof. unfold contractset.len. rewrite length_app. lia. Qed.

Lemma len_snoc (l : list Hash) x : len (l ++ [x]) = len l + 1.
Proof. rewrite len_app. unfold contractset.len. simpl. lia. Qed.

Lemma len_cons_Z (x : Hash) (l : list Hash) : len (x :: l) = 1 + len l.
Proof. unfold contractset.len. simpl length. lia. Qed.

Lemma len_nonneg (l : list Hash) : 0 <= len l.
Proof. unfold contractset.len. lia. Qed.

Lemma pushLeaves_blocks : forall (blocks : list (list Hash)) t,
  Forall (fun b => len b = K) blocks ->
  Forall (fun n => Z.of_nat merkleRootsCacheHeight <= hgt n) t ->
  pushLeaves t (concat blocks) = blockStack blocks t
  /\ Forall (fun n => Z.of_nat merkleRootsCacheHeight <= hgt n)
       (blockStack blocks t).
Proof.
  induction blocks as [|b blocks IH]; intros t Hb Ht.
  - split; [reflexivity|exact Ht].
  - inversion Hb as [|? ? Hlen Hb']; subst.
    simpl concat. rewrite pushLeaves_app.
    rewrite (pushLeaves_block nodeSum emptyRoot merkleRootsCacheHeight b t)
      by (try apply len_block; assumption).
    apply IH; [exact Hb'|].
    apply join_heights; [simpl; lia|exact Ht].
Qed.

Lemma pushSubTrees_blocks : forall (blocks : list (list Hash)) t,
  Forall (fun n => Z.of_nat merkleRootsCacheHeight <= hgt n) t ->
  contractset.pushSubTrees nodeSum (map cachedOf blocks)
    (merkle.shiftHeights (Z.of_nat sectorHeight) t)
  = inl (merkle.shiftHeights (Z.of_nat sectorHeight) (blockStack blocks t)).
Proof.
  induction blocks as [|b blocks IH]; intros t Ht; [reflexivity|].
  simpl.
  assert (E : merkle.PushSubTree nodeSum
                (Z.of_nat merkleRootsCacheHeight + Z.of_nat sectorHeight)
                (treeRoot b)
                (merkle.shiftHeights (Z.of_nat sectorHeight) t)
              = inl (merkle.shiftHeights (Z.of_nat sectorHeight)
                       (merkle.joinAllSubTrees nodeSum
                          (merkle.mkSubTree (Z.of_nat merkleRootsCacheHeight)
                             (treeRoot b)) t))).
  { rewrite <- join_shift. destruct t as [|n t]; [reflexivity|].
    inversion Ht as [|? ? Hn _]; subst.
    unfold merkle.PushSubTree. simpl.
    destruct (Z.ltb_spec (hgt n + Z.of_nat sectorHeight)
                (Z.of_nat merkleRootsCacheHeight + Z.of_nat sectorHeight));
      [lia|reflexivity]. }
  rewrite E. apply IH.
  apply join_heights; [simpl; lia|exact Ht].
Qed.

(** The tree that [root] and [newMerkleRootPreview] build over a cache
    that represents [leaves], with [extra] more leaves pushed, has the
    root of the whole sequence hashed from scratch. *)
Lemma incremental_root (blocks : list (list Hash)) (uncached extra : list Hash) :
  Forall (fun b => len b = K) blocks ->
  len (uncached ++ extra) <= K ->
  exists ct,
    contractset.pushSubTrees nodeSum (map cachedOf blocks) [] = inl ct
    /\ merkle.Root nodeSum emptyRoot (pushLeaves ct (uncached ++ extra))
       = treeRoot ((concat blocks ++ uncached) ++ extra).
Proof.
  intros Hb Hu.
  destruct (pushLeaves_blocks blocks [] Hb) as [E F]; [constructor|].
  exists (merkle.shiftHeights (Z.of_nat sectorHeight) (blockStack blocks [])).
  split.
  - apply (pushSubTrees_blocks blocks []). constructor.
  - rewrite (Root_pushLeaves_shift nodeSum emptyRoot merkleRootsCacheHeight).
    + unfold merkle.CachedTreeRoot, merkle.NewCachedTree.
      rewrite <- app_assoc.
      rewrite (pushLeaves_app nodeSum [] (concat blocks)), E. reflexivity.
    + rewrite perCache_nat in Hu. unfold contractset.len in Hu. lia.
    + lia.
    + exact F.
Qed.

Lemma root_represents leaves mr :
  represents leaves mr -> root mr = (treeRoot leaves, None).
Proof.
  intros (blocks & El & Hb & Ec & Hu).
  destruct (incremental_root blocks (contractset.uncachedRoots mr) [] Hb)
    as (ct & Ect & Er).
  { rewrite app_nil_r. lia. }
  unfold contractset.root, merkle.NewCachedTree.
  rewrite Ec, Ect. rewrite !app_nil_r in Er. rewrite Er, El. reflexivity.
Qed.

Lemma preview_represents leaves mr newRoot db :
  represents leaves mr ->
  preview newRoot mr db = ((treeRoot (leaves ++ [newRoot]), None), mr, db).
Proof.
  intros (blocks & El & Hb & Ec & Hu).
  destruct (incremental_root blocks (contractset.uncachedRoots mr) [newRoot] Hb)
    as (ct & Ect & Er).
  { rewrite len_snoc. lia. }
  unfold contractset.newMerkleRootPreview, merkle.NewCachedTree.
  rewrite Ec, Ect. rewrite pushLeaves_app in Er. simpl in Er.
  rewrite Er, El. reflexivity.
Qed.

Lemma represents_new cid : represents [] (contractset.newMerkleRoots cid).
Proof.
  exists []. repeat split; [constructor|]. simpl. apply perCache_pos.
Qed.

(** One leaf: either it completes a block, which becomes a cached
    subtree and empties the uncached roots, or it is kept uncached. *)
Lemma appendRootMemory_one root mr :
  appendRootMemory [root] mr =
    if len (contractset.uncachedRoots mr ++ [root]) =? K
    then Returns (contractset.mkMerkleRoots
                    (contractset.cachedSubTrees mr
                       ++ [cachedOf (contractset.uncachedRoots mr ++ [root])])
                    [] (contractset.numMerkleRoots mr) (contractset.id mr))
    else Returns (contractset.mkMerkleRoots
                    (contractset.cachedSubTrees mr)
                    (contractset.uncachedRoots mr ++ [root])
                    (contractset.numMerkleRoots mr) (contractset.id mr)).
Proof.
  simpl. unfold contractset.newCachedSubTree.
  destruct (len (contractset.uncachedRoots mr ++ [root]) =? K); reflexivity.
Qed.

Lemma appendRootMemory_cons root roots mr :
  appendRootMemory (root :: roots) mr =
    match appendRootMemory [root] mr with
    | Returns mr' => appendRootMemory roots mr'
    | Crit msg => Crit msg
    | Panic msg => Panic msg
    end.
Proof.
  simpl. destruct (len (contractset.uncachedRoots mr ++ [root]) =? K);
    [|reflexivity].
  destruct (contractset.newCachedSubTree _ _ _ _ _); reflexivity.
Qed.

Lemma represents_step leaves mr root :
  represents leaves mr ->
  exists mr',
    appendRootMemory [root] mr = Returns mr'
    /\ represents (leaves ++ [root]) mr'
    /\ contractset.numMerkleRoots mr' = contractset.numMerkleRoots mr
    /\ contractset.id mr' = contractset.id mr.
Proof.
  intros (blocks & El & Hb & Ec & Hu).
  rewrite appendRootMemory_one.
  destruct (Z.eqb_spec (len (contractset.uncachedRoots mr ++ [root])) K)
    as [Hfull|Hnot].
  - eexists. split; [reflexivity|]. split; [|split; reflexivity].
    exists (blocks ++ [contractset.uncachedRoots mr ++ [root]]). simpl.
    repeat split.
    + rewrite El, concat_app. simpl. rewrite !app_nil_r, app_assoc. reflexivity.
    + apply Forall_app. split; [exact Hb|]. constructor; [exact Hfull|constructor].
    + rewrite Ec, map_app. reflexivity.
    + apply perCache_pos.
  - eexists. split; [reflexivity|]. split; [|split; reflexivity].
    exists blocks. simpl. repeat split.
    + rewrite El, app_assoc. reflexivity.
    + exact Hb.
    + exact Ec.
    + rewrite len_snoc in *. lia.
Qed.

Lemma represents_append : forall roots leaves mr,
  represents leaves mr ->
  exists mr',
    appendRootMemory roots mr = Returns mr'
    /\ represents (leaves ++ roots) mr'
    /\ contractset.numMerkleRoots mr' = contractset.numMerkleRoots mr
    /\ contractset.id mr' = contractset.id mr.
Proof.
  induction roots as [|r roots IH]; intros leaves mr Hrep.
  - exists mr. rewrite app_nil_r. repeat split. exact Hrep.
  - destruct (represents_step leaves mr r Hrep) as (mr1 & E1 & R1 & N1 & I1).
    destruct (IH (leaves ++ [r]) mr1 R1) as (mr2 & E2 & R2 & N2 & I2).
    exists mr2. rewrite appendRootMemory_cons, E1.
    rewrite <- app_assoc in R2. simpl in R2.
    repeat split; [exact E2|exact R2|congruence|congruence].
Qed.

Lemma loadMerkleRoots_returns cid roots :
  exists mr,
    contractset.loadMerkleRoots nodeSum emptyRoot sectorHeight
      merkleRootsCacheHeight cid roots = Returns mr
    /\ represents roots mr /\ contractset.numMerkleRoots mr = len roots.
Proof.
  destruct (represents_append roots [] _ (represents_new cid))
    as (mr & E & R & _ & _).
  unfold contractset.loadMerkleRoots, contractset.newMerkleRoots in *.
  rewrite E. eexists. split; [reflexivity|]. split; [|reflexivity].
  destruct R as (blocks & R1 & R2 & R3 & R4).
  exists blocks. simpl. auto.
Qed.

(** [push] on a cache that represents its leaves: it never reaches
    [log.Crit]; it returns the database error and leaves the cache as it
    was, or appends the leaf and counts it. *)
Lemma push_represents leaves mr root db :
  represents leaves mr ->
  (exists e, push root mr db
             = Returns (Some e, mr, fst (StoreSingleRoot db (contractset.id mr) root))
             /\ snd (StoreSingleRoot db (contractset.id mr) root) = Some e)
  \/ (exists mr',
        push root mr db
        = Returns (None, mr', fst (StoreSingleRoot db (contractset.id mr) root))
        /\ snd (StoreSingleRoot db (contractset.id mr) root) = None
        /\ represents (leaves ++ [root]) mr'
        /\ contractset.numMerkleRoots mr'
           = wrapInt (contractset.numMerkleRoots mr + 1)).
Proof.
  intros Hrep.
  destruct (represents_step leaves mr root Hrep) as (mr1 & E1 & R1 & N1 & I1).
  destruct Hrep as (blocks & El & Hb & Ec & Hu).
  unfold contractset.push.
  destruct (Z.eqb_spec (len (contractset.uncachedRoots mr)) K) as [Hk|_]; [lia|].
  destruct (StoreSingleRoot db (contractset.id mr) root) as [db' [e|]];
    cbn [fst snd].
  - left. exists e. split; reflexivity.
  - right. rewrite E1. eexists. split; [reflexivity|]. split; [reflexivity|].
    split; [|simpl; rewrite N1; reflexivity].
    destruct R1 as (blocks1 & R1 & R2 & R3 & R4).
    exists blocks1. simpl. auto.
Qed.

Lemma holds_represents leaves mr :
  holds leaves mr ->
  represents leaves mr
  /\ (len leaves <= maxInt -> contractset.numMerkleRoots mr = len leaves).
Proof.
  induction 1 as [cid|cid roots mr Hload|leaves mr r db mr' db' _ [IH1 IH2] Hpush
                 |leaves mr r db e mr' db' _ [IH1 IH2] Hpush].
  - split; [apply represents_new|]. intros _. reflexivity.
  - destruct (loadMerkleRoots_returns cid roots) as (mr0 & E & R & N).
    rewrite E in Hload. injection Hload as <-. split; [exact R|].
    intros _. exact N.
  - destruct (push_represents leaves mr r db IH1)
      as [(e & E & _)|(mr1 & E & _ & R & N)];
      rewrite E in Hpush; [discriminate|].
    injection Hpush as <- _. split; [exact R|].
    intros Hmax. rewrite N. rewrite len_snoc in *.
    pose proof (len_nonneg leaves) as Hnn.
    rewrite IH2 by lia. apply wrapInt_small. unfold maxInt in *. lia.
  - destruct (push_represents leaves mr r db IH1)
      as [(e' & E & _)|(mr1 & E & _ & R & N)];
      rewrite E in Hpush; [|discriminate].
    injection Hpush as _ <- _. split; [exact IH1|exact IH2].
Qed.

Lemma represents_count leaves mr :
  represents leaves mr ->
  len leaves = K * len (contractset.cachedSubTrees mr)
               + len (contractset.uncachedRoots mr).
Proof.
  intros (blocks & El & Hb & Ec & Hu).
  rewrite El, Ec. unfold contractset.len in *.
  rewrite length_app, length_map.
  assert (Hc : Z.of_nat (length (concat blocks)) = K * Z.of_nat (length blocks)).
  { clear -Hb. induction Hb as [|b blocks Hx _ IH]; simpl; [lia|].
    rewrite length_app. lia. }
  lia.
Qed.

Lemma holds_load_total cid leaves :
  exists mr,
    contractset.loadMerkleRoots nodeSum emptyRoot sectorHeight
      merkleRootsCacheHeight cid leaves = Returns mr
    /\ holds leaves mr.
Proof.
  destruct (loadMerkleRoots_returns cid leaves) as (mr & E & _).
  exists mr. split; [exact E|]. eapply contractset.holds_load. exact E.
Qed.

(** C1.  Merkle root cache round-trip.  Every sequence of leaf hashes,
    the empty one included, is taken in by the cache, and in every state
    the cache reaches through [loadMerkleRoots] and [push], holding the
    leaves [leaves], the root built from the cached subtrees and the
    uncached roots is the root of [leaves] hashed from scratch; and for
    every hash [h], [newMerkleRootPreview h] gives the root the cache has
    once [h] is appended, by [appendRootMemory] or by a [push] that
    stores it. *)
Theorem merkle_root_round_trip :
  (forall cid leaves, exists mr,
      contractset.loadMerkleRoots nodeSum emptyRoot sectorHeight
        merkleRootsCacheHeight cid leaves = Returns mr
      /\ holds leaves mr)
  /\ forall leaves mr,
      holds leaves mr ->
      root mr = (treeRoot leaves, None)
      /\ forall h db,
          (exists mr',
              appendRootMemory [h] mr = Returns mr'
              /\ fst (fst (preview h mr db)) = root mr')
          /\ (exists err mr' db',
                 push h mr db = Returns (err, mr', db')
                 /\ (err = None -> fst (fst (preview h mr db)) = root mr')).
Proof.
  split; [exact holds_load_total|].
  intros leaves mr Hholds.
  destruct (holds_represents leaves mr Hholds) as [Hrep _].
  split; [apply root_represents; exact Hrep|].
  intros h db. rewrite (preview_represents leaves mr h db Hrep). cbn [fst].
  split.
  - destruct (represents_step leaves mr h Hrep) as (mr' & E & R & _).
    exists mr'. split; [exact E|]. symmetry. apply root_represents. exact R.
  - destruct (push_represents leaves mr h db Hrep)
      as [(e & E & _)|(mr' & E & _ & R & _)].
    + do 3 eexists. split; [exact E|]. discriminate.
    + do 3 eexists. split; [exact E|]. intros _.
      symmetry. apply root_represents. exact R.
Qed.

(** C4.  Invariant of [merkleRoots].  In every state reached from a fresh
    [merkleRoots] through [push] (or loaded by [loadMerkleRoots]) the
    uncached roots are fewer than [merkleRootsPerCache]; the tracked
    count is [merkleRootsPerCache * len cachedSubTrees + len
    uncachedRoots], as long as that number is an [int]; [push] returns,
    so its [log.Crit] branch is not reached; and a leaf that brings the
    uncached roots to [merkleRootsPerCache] is folded with them into one
    new cached subtree, the uncached roots being emptied. *)
Theorem merkleRoots_invariant leaves mr :
  holds leaves mr ->
  len (contractset.uncachedRoots mr) < K
  /\ (K * len (contractset.cachedSubTrees mr)
        + len (contractset.uncachedRoots mr) <= maxInt ->
      contractset.numMerkleRoots mr
      = K * len (contractset.cachedSubTrees mr)
        + len (contractset.uncachedRoots mr))
  /\ (forall root db, exists err mr' db',
        push root mr db = Returns (err, mr', db'))
  /\ (forall root,
        len (contractset.uncachedRoots mr) + 1 = K ->
        appendRootMemory [root] mr
        = Returns (contractset.mkMerkleRoots
                     (contractset.cachedSubTrees mr
                        ++ [cachedOf (contractset.uncachedRoots mr ++ [root])])
                     [] (contractset.numMerkleRoots mr) (contractset.id mr))).
Proof.
  intros Hholds.
  destruct (holds_represents leaves mr Hholds) as [Hrep Hcount].
  pose proof (represents_count leaves mr Hrep) as Hlen.
  split; [destruct Hrep as (blocks & _ & _ & _ & Hu); exact Hu|].
  split; [intros Hmax; rewrite <- Hlen in *; apply Hcount; exact Hmax|].
  split.
  - intros root db.
    destruct (push_represents leaves mr root db Hrep)
      as [(e & E & _)|(mr' & E & _)]; do 3 eexists; exact E.
  - intros root Hfull. rewrite appendRootMemory_one, len_snoc.
    destruct (Z.eqb_spec (len (contractset.uncachedRoots mr) + 1) K);
      [reflexivity|contradiction].
Qed.

(** C10.  [newMerkleRootPreview] changes nothing: for every [merkleRoots]
    and every hash the [merkleRoots] after the call is the one before it
    (same cached subtrees, same uncached roots, same count) and the
    database is the one before it. *)
Theorem newMerkleRootPreview_frame newRoot
  (mr : contractset.merkleRoots Hash ContractID) (db : DB) :
  let after :=
    contractset.newMerkleRootPreview nodeSum emptyRoot zeroHash sectorHeight
      newRoot mr db in
  snd (fst after) = mr
  /\ contractset.cachedSubTrees (snd (fst after)) = contractset.cachedSubTrees mr
  /\ contractset.uncachedRoots (snd (fst after)) = contractset.uncachedRoots mr
  /\ contractset.numMerkleRoots (snd (fst after)) = contractset.numMerkleRoots mr
  /\ snd after = db.
Proof.
  unfold contractset.newMerkleRootPreview. cbn zeta.
  destruct (contractset.pushSubTrees nodeSum (contractset.cachedSubTrees mr) _);
    repeat split; reflexivity.
Qed.

(** *** More on [appendRootMemory], [push] and [roots] *)

Context (FetchMerkleRoots : DB -> ContractID -> list Hash * option error).

Local Abbreviation pushAll :=
  (contractset.pushAll nodeSum emptyRoot StoreSingleRoot
     sectorHeight merkleRootsCacheHeight).
Local Abbreviation withCount := (@contractset.withCount Hash ContractID).
Local Abbreviation cachedHeight :=
  (Z.of_nat merkleRootsCacheHeight + Z.of_nat sectorHeight).

Lemma wrapInt_succ z : wrapInt (wrapInt z + 1) = wrapInt (z + 1).
Proof.
  unfold wrapInt.
  replace ((z + 2 ^ 63) mod 2 ^ 64 - 2 ^ 63 + 1 + 2 ^ 63)
    with ((z + 2 ^ 63) mod 2 ^ 64 + 1) by lia.
  replace (z + 1 + 2 ^ 63) with ((z + 2 ^ 63) + 1) by lia.
  rewrite Zplus_mod_idemp_l. reflexivity.
Qed.

Lemma appendRootMemory_app_eq : forall l1 l2 mr,
  appendRootMemory (l1 ++ l2) mr =
    match appendRootMemory l1 mr with
    | Returns mr1 => appendRootMemory l2 mr1
    | Crit msg => Crit msg
    | Panic msg => Panic msg
    end.
Proof.
  induction l1 as [|r l1 IH]; intros l2 mr; [reflexivity|].
  cbn [app]. rewrite (appendRootMemory_cons r (l1 ++ l2)),
    (appendRootMemory_cons r l1).
  destruct (appendRootMemory [r] mr); [apply IH|reflexivity..].
Qed.

(** One root: the call returns; a cached subtree is added at most, of the
    fixed height, behind those that are there; the count and the id are
    not touched; and the uncached roots it leaves are not
    [merkleRootsPerCache] many. *)
Lemma appendRootMemory_one_returns root mr :
  exists mr' new,
    appendRootMemory [root] mr = Returns mr'
    /\ contractset.cachedSubTrees mr' = contractset.cachedSubTrees mr ++ new
    /\ Forall (fun c => contractset.height c = cachedHeight) new
    /\ contractset.numMerkleRoots mr' = contractset.numMerkleRoots mr
    /\ contractset.id mr' = contractset.id mr
    /\ len (contractset.uncachedRoots mr') <> K.
Proof.
  rewrite appendRootMemory_one.
  destruct (Z.eqb_spec (len (contractset.uncachedRoots mr ++ [root])) K)
    as [Hfull|Hnot].
  - eexists. exists [cachedOf (contractset.uncachedRoots mr ++ [root])].
    split; [reflexivity|]. cbn. repeat split.
    + constructor; [reflexivity|constructor].
    + pose proof perCache_pos. unfold contractset.len. simpl. lia.
  - eexists. exists []. split; [reflexivity|]. cbn.
    rewrite app_nil_r. repeat split; [constructor|exact Hnot].
Qed.

Lemma appendRootMemory_returns : forall roots mr,
  exists mr' new,
    appendRootMemory roots mr = Returns mr'
    /\ contractset.cachedSubTrees mr' = contractset.cachedSubTrees mr ++ new
    /\ Forall (fun c => contractset.height c = cachedHeight) new
    /\ contractset.numMerkleRoots mr' = contractset.numMerkleRoots mr
    /\ contractset.id mr' = contractset.id mr.
Proof.
  induction roots as [|r roots IH]; intros mr.
  - exists mr, []. rewrite app_nil_r. repeat split. constructor.
  - destruct (appendRootMemory_one_returns r mr)
      as (mr1 & new1 & E1 & C1 & F1 & N1 & I1 & _).
    destruct (IH mr1) as (mr2 & new2 & E2 & C2 & F2 & N2 & I2).
    exists mr2, (new1 ++ new2). rewrite appendRootMemory_cons, E1.
    split; [exact E2|]. split; [rewrite C2, C1, app_assoc; reflexivity|].
    split; [apply Forall_app; split; assumption|].
    split; congruence.
Qed.

(** X1.  [appendRootMemory] returns on every [merkleRoots] and every list of
    roots (the check of [newCachedSubTree] is never what ends it), and
    appending [l1 ++ l2] is appending [l1] and then [l2]. *)
Theorem appendRootMemory_app l1 l2 mr :
  exists mr1 mr2,
    appendRootMemory l1 mr = Returns mr1
    /\ appendRootMemory l2 mr1 = Returns mr2
    /\ appendRootMemory (l1 ++ l2) mr = Returns mr2.
Proof.
  destruct (appendRootMemory_returns l1 mr) as (mr1 & ? & E1 & _).
  destruct (appendRootMemory_returns l2 mr1) as (mr2 & ? & E2 & _).
  exists mr1, mr2. split; [exact E1|]. split; [exact E2|].
  rewrite appendRootMemory_app_eq, E1. exact E2.
Qed.

(** X2.  The cached subtrees are only ever added to: whatever the
    [merkleRoots] and the roots, [appendRootMemory] keeps every cached
    subtree that is there, in place, adds behind them subtrees of the one
    height [merkleRootsCacheHeight + sectorHeight], and touches neither the
    tracked count nor the contract id. *)
Theorem appendRootMemory_keeps_cached roots mr :
  exists mr' new,
    appendRootMemory roots mr = Returns mr'
    /\ contractset.cachedSubTrees mr' = contractset.cachedSubTrees mr ++ new
    /\ Forall (fun c => contractset.height c = cachedHeight) new
    /\ contractset.numMerkleRoots mr' = contractset.numMerkleRoots mr
    /\ contractset.id mr' = contractset.id mr.
Proof. apply appendRootMemory_returns. Qed.

(** The three ways in which [push] can end. *)
Lemma push_cases root mr db :
  (len (contractset.uncachedRoots mr) = K /\
   push root mr db
   = Crit "the number of uncachedRoots is too big, they should be cached")
  \/ (len (contractset.uncachedRoots mr) <> K /\
      exists e,
        snd (StoreSingleRoot db (contractset.id mr) root) = Some e
        /\ push root mr db
           = Returns (Some e, mr,
                      fst (StoreSingleRoot db (contractset.id mr) root)))
  \/ (len (contractset.uncachedRoots mr) <> K /\
      exists mr',
        snd (StoreSingleRoot db (contractset.id mr) root) = None
        /\ appendRootMemory [root] mr = Returns mr'
        /\ push root mr db
           = Returns (None,
                      withCount (wrapInt (contractset.numMerkleRoots mr + 1)) mr',
                      fst (StoreSingleRoot db (contractset.id mr) root))).
Proof.
  unfold contractset.push.
  destruct (Z.eqb_spec (len (contractset.uncachedRoots mr)) K) as [Hk|Hk].
  - left. split; [exact Hk|reflexivity].
  - right.
    destruct (appendRootMemory_one_returns root mr)
      as (mr1 & new & E1 & _ & _ & N1 & _).
    destruct (StoreSingleRoot db (contractset.id mr) root) as [db' [e|]];
      cbn [fst snd].
    + left. split; [exact Hk|]. exists e. split; reflexivity.
    + right. split; [exact Hk|]. exists mr1.
      split; [reflexivity|]. split; [exact E1|].
      rewrite E1. unfold contractset.withCount. rewrite N1. reflexivity.
Qed.

(** X3.  What [push] does on any [merkleRoots]: with
    [merkleRootsPerCache] uncached roots it ends the process; otherwise it
    returns, and either the database write failed, the error is returned
    and the [merkleRoots] is as it was, or the root is appended as
    [appendRootMemory] appends it and the count is one more (in [int]). *)
Theorem push_outcome root mr db :
  (len (contractset.uncachedRoots mr) = K /\
   push root mr db
   = Crit "the number of uncachedRoots is too big, they should be cached")
  \/ (len (contractset.uncachedRoots mr) <> K /\
      exists e,
        snd (StoreSingleRoot db (contractset.id mr) root) = Some e
        /\ push root mr db
           = Returns (Some e, mr,
                      fst (StoreSingleRoot db (contractset.id mr) root)))
  \/ (len (contractset.uncachedRoots mr) <> K /\
      exists mr',
        snd (StoreSingleRoot db (contractset.id mr) root) = None
        /\ appendRootMemory [root] mr = Returns mr'
        /\ push root mr db
           = Returns (None,
                      withCount (wrapInt (contractset.numMerkleRoots mr + 1)) mr',
                      fst (StoreSingleRoot db (contractset.id mr) root))).
Proof. apply push_cases. Qed.

(** X4.  The shape of the cache.  In every state reached through
    [loadMerkleRoots] and [push] that holds [n] leaves there are [n /
    merkleRootsPerCache] cached subtrees, all of height
    [merkleRootsCacheHeight + sectorHeight], and [n mod
    merkleRootsPerCache] uncached roots. *)
Theorem merkleRoots_shape leaves mr :
  holds leaves mr ->
  len (contractset.cachedSubTrees mr) = len leaves / K
  /\ len (contractset.uncachedRoots mr) = len leaves mod K
  /\ Forall (fun c => contractset.height c = cachedHeight)
       (contractset.cachedSubTrees mr).
Proof.
  intros Hholds.
  destruct (holds_represents leaves mr Hholds) as [Hrep _].
  pose proof (represents_count leaves mr Hrep) as Hlen.
  destruct Hrep as (blocks & _ & _ & Ec & Hu).
  pose proof (len_nonneg (contractset.uncachedRoots mr)) as Hnn.
  split; [|split].
  - apply (Z.div_unique _ _ _ (len (contractset.uncachedRoots mr)));
      [left; lia|exact Hlen].
  - apply (Z.mod_unique _ _ (len (contractset.cachedSubTrees mr)));
      [left; lia|exact Hlen].
  - rewrite Ec. apply Forall_map. apply Forall_forall. intros b _. reflexivity.
Qed.

Lemma withCount_same (mr : contractset.merkleRoots Hash ContractID) :
  withCount (contractset.numMerkleRoots mr) mr = mr.
Proof. destruct mr. reflexivity. Qed.

Lemma appendRootMemory_withCount n : forall roots mr,
  appendRootMemory roots (withCount n mr) =
    match appendRootMemory roots mr with
    | Returns mr' => Returns (withCount n mr')
    | Crit msg => Crit msg
    | Panic msg => Panic msg
    end.
Proof.
  induction roots as [|r roots IH]; intros mr; [reflexivity|].
  cbn [contractset.appendRootMemory contractset.withCount
         contractset.uncachedRoots contractset.cachedSubTrees
         contractset.numMerkleRoots contractset.id].
  destruct (len (contractset.uncachedRoots mr ++ [r]) =? K) eqn:E.
  - unfold contractset.newCachedSubTree. rewrite E. cbn [negb].
    apply (IH (contractset.mkMerkleRoots _ _ _ _)).
  - apply (IH (contractset.mkMerkleRoots _ _ _ _)).
Qed.

(** Pushing a list of roots when every database write succeeds. *)
Lemma pushAll_plain :
  (forall db cid h, snd (StoreSingleRoot db cid h) = None) ->
  forall leaves mr db,
    len (contractset.uncachedRoots mr) <> K ->
    exists m n db',
      appendRootMemory leaves mr = Returns m
      /\ pushAll leaves mr db = Returns (None, withCount n m, db')
      /\ (- 2 ^ 63 <= contractset.numMerkleRoots mr ->
          contractset.numMerkleRoots mr + len leaves <= maxInt ->
          n = contractset.numMerkleRoots mr + len leaves).
Proof.
  intros Hstore.
  induction leaves as [|h leaves IH]; intros mr db Hk.
  - exists mr, (contractset.numMerkleRoots mr), db.
    rewrite withCount_same.
    split; [reflexivity|]. split; [reflexivity|].
    intros _ _. unfold contractset.len. simpl. lia.
  - destruct (push_cases h mr db)
      as [[Hc _]|[(_ & e & He & _)|(_ & mr1 & _ & E1 & Ep)]];
      [contradiction|rewrite Hstore in He; discriminate|].
    destruct (appendRootMemory_one_returns h mr)
      as (mr1' & ? & E1' & _ & _ & N1 & I1 & Hk1).
    rewrite E1 in E1'. injection E1' as <-.
    set (n1 := wrapInt (contractset.numMerkleRoots mr + 1)) in *.
    set (db1 := fst (StoreSingleRoot db (contractset.id mr) h)) in *.
    destruct (IH (withCount n1 mr1) db1 Hk1) as (m2 & n2 & db2 & E2 & Ep2 & Hn2).
    rewrite appendRootMemory_withCount in E2.
    destruct (appendRootMemory leaves mr1) as [m|?|?] eqn:Em;
      try discriminate E2.
    injection E2 as <-.
    exists m, n2, db2.
    split; [rewrite appendRootMemory_cons, E1; exact Em|].
    split.
    + cbn [contractset.pushAll]. rewrite Ep. exact Ep2.
    + intros Hlo Hhi. rewrite len_cons_Z in Hhi.
      pose proof (len_nonneg leaves) as Hnn.
      cbn [contractset.withCount contractset.numMerkleRoots] in Hn2.
      assert (En1 : n1 = contractset.numMerkleRoots mr + 1)
        by (apply wrapInt_small; unfold maxInt in *; lia).
      rewrite Hn2 by (unfold maxInt in *; lia).
      rewrite len_cons_Z. lia.
Qed.

(** What the database holds for the contract after the pushes. *)
Lemma pushAll_fetch :
  (forall db cid h,
      FetchMerkleRoots (fst (StoreSingleRoot db cid h)) cid
      = (fst (FetchMerkleRoots db cid) ++ [h], snd (FetchMerkleRoots db cid))) ->
  forall leaves mr db mr' db',
    pushAll leaves mr db = Returns (None, mr', db') ->
    FetchMerkleRoots db' (contractset.id mr)
    = (fst (FetchMerkleRoots db (contractset.id mr)) ++ leaves,
       snd (FetchMerkleRoots db (contractset.id mr))).
Proof.
  intros Hfetch.
  induction leaves as [|h leaves IH]; intros mr db mr' db' Hp.
  - injection Hp as <- <-. rewrite app_nil_r.
    destruct (FetchMerkleRoots db (contractset.id mr)). reflexivity.
  - cbn [contractset.pushAll] in Hp.
    destruct (push_cases h mr db)
      as [[_ Ep]|[(_ & e & _ & Ep)|(_ & mr1 & _ & E1 & Ep)]];
      rewrite Ep in Hp; try discriminate Hp.
    destruct (appendRootMemory_one_returns h mr)
      as (mr1' & ? & E1' & _ & _ & _ & I1 & _).
    rewrite E1 in E1'. injection E1' as <-.
    apply IH in Hp.
    cbn [contractset.withCount contractset.id] in Hp.
    rewrite I1 in Hp. rewrite Hp, Hfetch.
    cbn [fst snd]. rewrite <- app_assoc. reflexivity.
Qed.

(** X5.  Pushing roots one by one is loading them at once: when every
    database write succeeds and there are at most [maxInt] roots, pushing
    them in order into a fresh [merkleRoots] returns without error with the
    [merkleRoots] that [loadMerkleRoots] makes of the list. *)
Theorem pushAll_is_load cid leaves db :
  (forall db cid h, snd (StoreSingleRoot db cid h) = None) ->
  len leaves <= maxInt ->
  exists mr db',
    pushAll leaves (contractset.newMerkleRoots cid) db = Returns (None, mr, db')
    /\ contractset.loadMerkleRoots nodeSum emptyRoot sectorHeight
         merkleRootsCacheHeight cid leaves = Returns mr.
Proof.
  intros Hstore Hmax.
  assert (Hk : len (contractset.uncachedRoots
                      (contractset.newMerkleRoots (Hash := Hash) cid)) <> K)
    by (pose proof perCache_pos; unfold contractset.len; simpl; lia).
  destruct (pushAll_plain Hstore leaves _ db Hk) as (m & n & db' & E & Ep & Hn).
  exists (withCount n m), db'. split; [exact Ep|].
  unfold contractset.loadMerkleRoots.
  change (contractset.mkMerkleRoots [] [] 0 cid)
    with (contractset.newMerkleRoots (Hash := Hash) cid).
  rewrite E. rewrite Hn by (simpl; unfold maxInt in *; lia).
  destruct (appendRootMemory_returns leaves (contractset.newMerkleRoots cid))
    as (m' & ? & E' & _ & _ & _ & Hid).
  rewrite E in E'. injection E' as <-.
  simpl. reflexivity.
Qed.

(** X6.  Round trip through the database.  When every write succeeds, the
    database returns for a contract the roots stored for it, in order, and
    it starts with none for the contract: after at most [maxInt] roots have
    been pushed into a fresh [merkleRoots], [roots] returns exactly these
    roots, with no error, its check of their number against the tracked
    count not ending the process. *)
Theorem push_roots_round_trip cid leaves db :
  (forall db cid h, snd (StoreSingleRoot db cid h) = None) ->
  (forall db cid h,
      FetchMerkleRoots (fst (StoreSingleRoot db cid h)) cid
      = (fst (FetchMerkleRoots db cid) ++ [h], snd (FetchMerkleRoots db cid))) ->
  FetchMerkleRoots db cid = ([], None) ->
  len leaves <= maxInt ->
  exists mr db',
    pushAll leaves (contractset.newMerkleRoots cid) db = Returns (None, mr, db')
    /\ contractset.roots FetchMerkleRoots mr db' = Returns (leaves, None).
Proof.
  intros Hstore Hfetch Hinit Hmax.
  assert (Hk : len (contractset.uncachedRoots
                      (contractset.newMerkleRoots (Hash := Hash) cid)) <> K)
    by (pose proof perCache_pos; unfold contractset.len; simpl; lia).
  destruct (pushAll_plain Hstore leaves _ db Hk) as (m & n & db' & E & Ep & Hn).
  pose proof (pushAll_fetch Hfetch leaves _ db _ _ Ep) as Hf.
  exists (withCount n m), db'. split; [exact Ep|].
  destruct (appendRootMemory_returns leaves (contractset.newMerkleRoots cid))
    as (m' & ? & E' & _ & _ & _ & Hid).
  rewrite E in E'. injection E' as <-.
  unfold contractset.roots.
  cbn [contractset.withCount contractset.id contractset.numMerkleRoots].
  rewrite Hid. simpl contractset.id in *. rewrite Hf, Hinit. cbn [fst snd app].
  rewrite Hn by (simpl; unfold maxInt in *; lia).
  simpl contractset.numMerkleRoots.
  replace (len leaves =? 0 + len leaves) with true
    by (symmetry; apply Z.eqb_eq; lia).
  reflexivity.
Qed.

End MerkleRootsFacts.

(** *** The cache at work on readable hashes

  Hashes are strings and a node's hash shows its two children, so a root
  spells out the tree it stands for; blocks of [2 ^ 1] leaves are cached. *)

Example scratch_root_5 :
  merkle.CachedTreeRoot example.showNode "-"%string
    ["a"; "b"; "c"; "d"; "e"]%string 2 = "(((ab)(cd))e)"%string.
Proof. reflexivity. Qed.

Example load_0 : example.load [] = Returns (contractset.mkMerkleRoots [] [] 0 tt).
Proof. reflexivity. Qed.

Example load_three : example.load ["a"; "b"; "c"]%string = Returns example.three.
Proof. reflexivity. Qed.

Example root_3 :
  contractset.root example.showNode "-"%string "0"%string 2 example.three
  = ("((ab)c)"%string, None).
Proof. reflexivity. Qed.

Example preview_3 :
  contractset.newMerkleRootPreview example.showNode "-"%string "0"%string 2
    "d"%string example.three ([] : list string)
  = (("((ab)(cd))"%string, None), example.three, []).
Proof. reflexivity. Qed.

Example push_3 :
  contractset.push example.showNode "-"%string example.store 2 1 "d"%string example.three []
  = Returns (None,
             contractset.mkMerkleRoots
               [contractset.mkCachedSubTree 3 "(ab)"%string;
                contractset.mkCachedSubTree 3 "(cd)"%string] [] 4 tt,
             ["d"%string]).
Proof. reflexivity. Qed.

Example push_3_refused :
  contractset.push example.showNode "-"%string example.refuse 2 1 "d"%string example.three []
  = Returns (Some (errorString "disk full"), example.three, []).
Proof. reflexivity. Qed.

(** A [merkleRoots] no entry point produces: with [merkleRootsPerCache]
    uncached roots [push] ends the process. *)
Example push_overfull :
  contractset.push example.showNode "-"%string example.store 2 1 "d"%string
    (contractset.mkMerkleRoots [] ["a"; "b"]%string 2 tt) []
  = Crit "the number of uncachedRoots is too big, they should be cached".
Proof. reflexivity. Qed.

Lemma merkle_root_round_trip_witness :
  contractset.holds example.showNode "-"%string example.store 2 1 ["a"; "b"; "c"]%string example.three
  /\ contractset.root example.showNode "-"%string "0"%string 2 example.three
     = ("((ab)c)"%string, None).
Proof.
  assert (H : contractset.holds example.showNode "-"%string example.store 2 1
                ["a"; "b"; "c"]%string example.three).
  { apply contractset.holds_load with (cid := tt). reflexivity. }
  split; [exact H|].
  exact (proj1 (proj2 (merkle_root_round_trip example.showNode "-"%string "0"%string
                         example.store 2 1) _ _ H)).
Defined.

Lemma merkleRoots_invariant_witness :
  contractset.holds example.showNode "-"%string example.store 2 1 ["a"; "b"; "c"]%string example.three
  /\ contractset.len (contractset.uncachedRoots example.three)
     < contractset.merkleRootsPerCache 1
  /\ contractset.numMerkleRoots example.three
     = contractset.merkleRootsPerCache 1
       * contractset.len (contractset.cachedSubTrees example.three)
       + contractset.len (contractset.uncachedRoots example.three).
Proof.
  assert (H : contractset.holds example.showNode "-"%string example.store 2 1
                ["a"; "b"; "c"]%string example.three).
  { apply contractset.holds_load with (cid := tt). reflexivity. }
  split; [exact H|].
  destruct (merkleRoots_invariant example.showNode "-"%string example.store 2 1 _ _ H)
    as (Hlt & Hcount & _).
  split; [exact Hlt|]. apply Hcount. vm_compute. discriminate.
Defined.

Lemma example_holds_three :
  contractset.holds example.showNode "-"%string example.store 2 1
    ["a"; "b"; "c"]%string example.three.
Proof. apply contractset.holds_load with (cid := tt). reflexivity. Defined.

Lemma merkleRoots_shape_witness :
  contractset.holds example.showNode "-"%string example.store 2 1
    ["a"; "b"; "c"]%string example.three
  /\ contractset.len (contractset.cachedSubTrees example.three)
     = contractset.len ["a"; "b"; "c"]%string / contractset.merkleRootsPerCache 1
  /\ contractset.len (contractset.uncachedRoots example.three)
     = contractset.len ["a"; "b"; "c"]%string mod contractset.merkleRootsPerCache 1.
Proof.
  split; [exact example_holds_three|].
  destruct (merkleRoots_shape example.showNode "-"%string example.store 2 1
              _ _ example_holds_three) as (Hc & Hu & _).
  split; [exact Hc|exact Hu].
Defined.

Lemma example_store_succeeds :
  forall (db : list string) (cid : unit) (h : string),
    snd (example.store db cid h) = None.
Proof. intros db cid h. reflexivity. Defined.

Lemma example_fetch_after_store :
  forall (db : list string) (cid : unit) (h : string),
    example.fetch (fst (example.store db cid h)) cid
    = (fst (example.fetch db cid) ++ [h], snd (example.fetch db cid)).
Proof. intros db cid h. reflexivity. Defined.

Lemma pushAll_is_load_witness :
  contractset.len ["a"; "b"; "c"]%string <= maxInt
  /\ exists mr db',
       contractset.pushAll example.showNode "-"%string example.store 2 1
         ["a"; "b"; "c"]%string (contractset.newMerkleRoots tt) []
       = Returns (None, mr, db')
       /\ contractset.loadMerkleRoots example.showNode "-"%string 2 1 tt
            ["a"; "b"; "c"]%string = Returns mr.
Proof.
  assert (Hmax : contractset.len ["a"; "b"; "c"]%string <= maxInt)
    by (vm_compute; discriminate).
  split; [exact Hmax|].
  exact (pushAll_is_load example.showNode "-"%string example.store 2 1
           tt ["a"; "b"; "c"]%string [] example_store_succeeds Hmax).
Defined.

Lemma push_roots_round_trip_witness :
  example.fetch [] tt = ([], None)
  /\ exists mr db',
       contractset.pushAll example.showNode "-"%string example.store 2 1
         ["a"; "b"; "c"]%string (contractset.newMerkleRoots tt) []
       = Returns (None, mr, db')
       /\ contractset.roots example.fetch mr db'
          = Returns (["a"; "b"; "c"]%string, None).
Proof.
  assert (Hmax : contractset.len ["a"; "b"; "c"]%string <= maxInt)
    by (vm_compute; discriminate).
  split; [reflexivity|].
  exact (push_roots_round_trip example.showNode "-"%string example.store 2 1
           example.fetch tt ["a"; "b"; "c"]%string []
           example_store_succeeds example_fetch_after_store eq_refl Hmax).
Defined.

Example roots_count_mismatch :
  contractset.roots example.fetch example.three ["a"; "b"]%string
  = Crit "Error: the length of retrieved merkle roots does not match with the number of merkle roots stored in the memory".
Proof. reflexivity. Qed.

(** ** The folder manager *)

Section FolderManagerFacts.

Local Abbreviation sfs := storagemanager.sfs.
Local Abbreviation path := storagemanager.path.

Lemma addFolder_eq sf fm :
  storagemanager.addFolder sf fm
  = (storagemanager.mkFolderManager (<[path sf := sf]> (sfs fm)), None).
Proof. reflexivity. Qed.

(** C5 (the code departs from the claim).  [addFolder] with a path that is
    already registered returns a nil error, and the folder manager then
    holds the new folder under that path in place of the one that was
    there. *)
Theorem addFolder_registered_path sf old fm :
  sfs fm !! path sf = Some old ->
  snd (storagemanager.addFolder sf fm) = None
  /\ sfs (fst (storagemanager.addFolder sf fm)) !! path sf = Some sf.
Proof.
  intros _. rewrite addFolder_eq. simpl. split; [reflexivity|].
  apply lookup_insert_eq.
Qed.

End FolderManagerFacts.

Lemma addFolder_registered_path_witness :
  storagemanager.sfs example.registry !! "/data"%string = Some example.dataFolder
  /\ snd (storagemanager.addFolder example.otherFolder example.registry) = None
  /\ storagemanager.sfs
       (fst (storagemanager.addFolder example.otherFolder example.registry))
       !! "/data"%string
     = Some example.otherFolder.
Proof.
  assert (H : storagemanager.sfs example.registry
                !! storagemanager.path example.otherFolder
              = Some example.dataFolder) by reflexivity.
  split; [exact H|].
  exact (addFolder_registered_path example.otherFolder example.dataFolder
           example.registry H).
Defined.

(** *** [validateShrink] *)

Section ValidateShrinkFacts.

Local Abbreviation sfs := storagemanager.sfs.
Local Abbreviation numSectors := storagemanager.numSectors.
Local Abbreviation storedSectors := storagemanager.storedSectors.

(** The two sums over the folders, as folds over the same list. *)
Lemma free_sums_list (folderPath : string)
  (l : list (string * storagemanager.storageFolder)) :
  Forall (fun kv => storagemanager.folderInvariant (snd kv)) l ->
  let exact :=
    foldr (uncurry (fun (p : string) sf acc =>
                      if decide (p = folderPath) then acc
                      else acc + (numSectors sf - storedSectors sf))) 0 l in
  0 <= exact <= Z.of_nat (length l) * storagemanager.maxSectorsPerFolder
  /\ foldr (uncurry (fun (p : string) sf freeSectors =>
                       if decide (p = folderPath) then freeSectors
                       else wrapU64 (freeSectors
                                     + wrapU64 (numSectors sf - storedSectors sf))))
       0 l
     = wrapU64 exact.
Proof.
  induction 1 as [|[p sf] l [Hsf Hmax] _ IH]; cbn zeta in *.
  - simpl. split; [lia|reflexivity].
  - destruct IH as [Hb IH]. cbn [foldr uncurry length]. simpl snd in *.
    rewrite IH. unfold storagemanager.maxSectorsPerFolder in *.
    change (Z.shiftl 1 32) with (2 ^ 32) in *.
    destruct (decide (p = folderPath)).
    + split; [lia|reflexivity].
    + split; [lia|].
      rewrite (wrapU64_small (numSectors sf - storedSectors sf)) by lia.
      apply wrapU64_add_l.
Qed.

Lemma freeSectorsOfOthers_exact folderPath fm :
  storagemanager.registryInvariant fm ->
  storagemanager.freeSectorsOfOthers folderPath fm
  = storagemanager.sumFreeOfOthers folderPath fm
  /\ 0 <= storagemanager.sumFreeOfOthers folderPath fm
     <= storagemanager.maxNumFolders * storagemanager.maxSectorsPerFolder.
Proof.
  intros [Hall Hsize].
  unfold storagemanager.freeSectorsOfOthers, storagemanager.sumFreeOfOthers.
  rewrite !map_fold_foldr.
  destruct (free_sums_list folderPath (map_to_list (sfs fm))) as [Hb E].
  { apply Forall_forall. intros [p sf] Hin. simpl.
    apply (Hall p). apply elem_of_map_to_list. exact Hin. }
  cbn zeta in *. rewrite E.
  unfold storagemanager.size in Hsize. rewrite length_map_to_list in Hb.
  unfold storagemanager.maxNumFolders, storagemanager.maxSectorsPerFolder in *.
  change (Z.shiftl 1 32) with (2 ^ 32) in *.
  change (Z.shiftl 1 16) with (2 ^ 16) in *.
  split; [apply wrapU64_small|]; nia.
Qed.

(** C8.  Shrink validation.  On a registry that satisfies the invariants
    of the data model, for a registered folder and a target within the
    bound on a folder's capacity, [validateShrink] returns nil exactly when
    the free sectors of all the other folders plus the target are at least
    the stored sectors of the folder; otherwise it returns the error "not
    enough storage space for shrink"; and the registry is left as it
    was. *)
Theorem validateShrink_spec folderPath targetNumSector fm sf :
  storagemanager.registryInvariant fm ->
  0 <= targetNumSector <= storagemanager.maxSectorsPerFolder ->
  sfs fm !! folderPath = Some sf ->
  (snd (storagemanager.validateShrink folderPath targetNumSector fm) = Returns None
   <-> storedSectors sf
       <= storagemanager.sumFreeOfOthers folderPath fm + targetNumSector)
  /\ (storagemanager.sumFreeOfOthers folderPath fm + targetNumSector
      < storedSectors sf ->
      snd (storagemanager.validateShrink folderPath targetNumSector fm)
      = Returns (Some (errorString "not enough storage space for shrink")))
  /\ fst (storagemanager.validateShrink folderPath targetNumSector fm) = fm.
Proof.
  intros Hinv Htarget Hsf.
  destruct (freeSectorsOfOthers_exact folderPath fm Hinv) as [E Hb].
  unfold storagemanager.validateShrink. rewrite Hsf, E.
  unfold storagemanager.maxNumFolders, storagemanager.maxSectorsPerFolder in *.
  change (Z.shiftl 1 32) with (2 ^ 32) in *.
  change (Z.shiftl 1 16) with (2 ^ 16) in *.
  rewrite wrapU64_small by lia.
  destruct (Z.ltb_spec
              (storagemanager.sumFreeOfOthers folderPath fm + targetNumSector)
              (storedSectors sf)) as [Hlt|Hge]; simpl.
  - split; [split; [discriminate|lia]|]. split; [reflexivity|reflexivity].
  - split; [split; [lia|reflexivity]|]. split; [lia|reflexivity].
Qed.

End ValidateShrinkFacts.

(** *** Selecting a folder for a new sector *)

Section SelectionFacts.

Variable freeSectorIndex : storagemanager.storageFolder -> Z * option error.
Variable rangeOrder : nat -> list string.
Variable others : nat -> storagemanager.folderManager -> storagemanager.folderManager.

Local Abbreviation sfs := storagemanager.sfs.
Local Abbreviation selectFolderToAdd :=
  (storagemanager.selectFolderToAdd freeSectorIndex).
Local Abbreviation selectFolderToAddWithRetry :=
  (storagemanager.selectFolderToAddWithRetry freeSectorIndex rangeOrder others).
Local Abbreviation retryLoop :=
  (storagemanager.retryLoop freeSectorIndex rangeOrder others).
Local Abbreviation registryAt :=
  (storagemanager.registryAt freeSectorIndex rangeOrder others).
Local Abbreviation skipped := (storagemanager.skipped freeSectorIndex).
Local Abbreviation qualifies := (storagemanager.qualifies freeSectorIndex).
Local Abbreviation allSkipped := (storagemanager.allSkipped freeSectorIndex).

Lemma select_skip p rest fm sf :
  sfs fm !! p = Some sf -> skipped sf ->
  selectFolderToAdd (p :: rest) fm = selectFolderToAdd rest fm.
Proof.
  intros Hp Hskip. simpl. rewrite Hp.
  destruct (storagemanager.lock sf) eqn:Hlock; [reflexivity|].
  destruct (Z.eqb_spec (storagemanager.status sf) storagemanager.folderUnavailable)
    as [|Hst]; [reflexivity|].
  destruct Hskip as [Hl|[Hs|Hfull]]; [congruence|contradiction|].
  destruct (freeSectorIndex (storagemanager.setLock true sf)) as [index err].
  simpl in Hfull. subst err.
  destruct (decide (errFolderAlreadyFull = errFolderAlreadyFull));
    [reflexivity|contradiction].
Qed.

Lemma select_absent p rest fm :
  sfs fm !! p = None ->
  selectFolderToAdd (p :: rest) fm = selectFolderToAdd rest fm.
Proof. intros Hp. simpl. rewrite Hp. reflexivity. Qed.

Lemma select_take p rest fm sf :
  sfs fm !! p = Some sf -> qualifies sf ->
  selectFolderToAdd (p :: rest) fm
  = (storagemanager.mkFolderManager
       (<[p := storagemanager.setLock true sf]> (sfs fm)),
     (Some (storagemanager.setLock true sf),
      fst (freeSectorIndex (storagemanager.setLock true sf)), None)).
Proof.
  intros Hp (Hlock & Hst & Hfree). simpl. rewrite Hp, Hlock.
  destruct (Z.eqb_spec (storagemanager.status sf) storagemanager.folderUnavailable)
    as [|_]; [contradiction|].
  destruct (freeSectorIndex (storagemanager.setLock true sf)) as [index err].
  simpl in Hfree. subst err. reflexivity.
Qed.

Lemma allSkipped_cons p rest fm :
  allSkipped (p :: rest) fm ->
  (forall sf, sfs fm !! p = Some sf -> skipped sf) /\ allSkipped rest fm.
Proof.
  intros H. split.
  - intros sf Hp. apply (H p sf); [left; reflexivity|exact Hp].
  - intros q sf Hq. apply H. right. exact Hq.
Qed.

Lemma select_through : forall pre order fm,
  allSkipped pre fm ->
  selectFolderToAdd (pre ++ order) fm = selectFolderToAdd order fm.
Proof.
  induction pre as [|p pre IH]; intros order fm Hskip; [reflexivity|].
  destruct (allSkipped_cons p pre fm Hskip) as [Hp Hrest].
  cbn [app]. destruct (sfs fm !! p) as [sf|] eqn:E.
  - rewrite (select_skip p _ fm sf E (Hp sf eq_refl)). apply IH. exact Hrest.
  - rewrite (select_absent p _ fm E). apply IH. exact Hrest.
Qed.

Lemma select_none order fm :
  allSkipped order fm ->
  selectFolderToAdd order fm = (fm, (None, 0, Some errAllFoldersFullOrUsed)).
Proof.
  intros Hskip. rewrite <- (app_nil_r order).
  rewrite (select_through order [] fm Hskip). reflexivity.
Qed.

Lemma retryLoop_all_skipped fm0 : forall n i err,
  (forall j, (i <= j < i + n)%nat -> allSkipped (rangeOrder j) (registryAt j fm0)) ->
  snd (retryLoop n i (registryAt i fm0) err)
  = (None, 0, match n with O => err | S _ => Some errAllFoldersFullOrUsed end).
Proof.
  induction n as [|n IH]; intros i err Hall; [reflexivity|].
  cbn [storagemanager.retryLoop].
  pose proof (select_none (rangeOrder i) (registryAt i fm0) (Hall i ltac:(lia)))
    as E.
  assert (Enext : registryAt (S i) fm0 = others i (registryAt i fm0))
    by (cbn [storagemanager.registryAt]; rewrite E; reflexivity).
  rewrite E, <- Enext, IH by (intros j Hj; apply Hall; lia).
  destruct n; reflexivity.
Qed.

Lemma retryLoop_failure fm0 e : forall n i err,
  snd (snd (retryLoop n i (registryAt i fm0) err)) = Some e ->
  forall j, (i <= j < i + n)%nat ->
    snd (snd (selectFolderToAdd (rangeOrder j) (registryAt j fm0))) <> None.
Proof.
  induction n as [|n IH]; intros i err Hres j Hj; [lia|].
  cbn [storagemanager.retryLoop] in Hres.
  assert (Enext : registryAt (S i) fm0
                  = others i (fst (selectFolderToAdd (rangeOrder i)
                                     (registryAt i fm0))))
    by reflexivity.
  destruct (selectFolderToAdd (rangeOrder i) (registryAt i fm0))
    as [fm' [[sf index] [e'|]]] eqn:E; simpl in Hres, Enext.
  - destruct (Nat.eq_dec j i) as [->|Hne].
    + rewrite E. simpl. discriminate.
    + rewrite <- Enext in Hres. apply (IH (S i) (Some e') Hres). lia.
  - discriminate.
Qed.

Lemma tripCount_nonneg retryTimes :
  0 <= retryTimes -> storagemanager.tripCount retryTimes = Z.to_nat retryTimes.
Proof.
  intros H. unfold storagemanager.tripCount.
  destruct (Z.leb_spec 0 retryTimes); [reflexivity|lia].
Qed.

(** An error of [freeSectorIndex] other than [errFolderAlreadyFull], on a
    folder that the pass has locked, ends the pass. *)
Lemma select_abort p rest fm sf e :
  sfs fm !! p = Some sf ->
  storagemanager.lock sf = false ->
  storagemanager.status sf <> storagemanager.folderUnavailable ->
  snd (freeSectorIndex (storagemanager.setLock true sf)) = Some e ->
  e <> errFolderAlreadyFull ->
  selectFolderToAdd (p :: rest) fm = (fm, (None, 0, Some e)).
Proof.
  intros Hp Hlock Hst Hfree Hne. simpl. rewrite Hp, Hlock.
  destruct (Z.eqb_spec (storagemanager.status sf) storagemanager.folderUnavailable)
    as [|_]; [contradiction|].
  destruct (freeSectorIndex (storagemanager.setLock true sf)) as [index err].
  simpl in Hfree. subst err.
  destruct (decide (e = errFolderAlreadyFull)); [contradiction|reflexivity].
Qed.

(** When [errFolderAlreadyFull] is the only error of [freeSectorIndex], a
    folder that does not qualify is one that a pass goes by. *)
Lemma not_qualifies_skipped sf :
  (forall sf' e, snd (freeSectorIndex sf') = Some e -> e = errFolderAlreadyFull) ->
  ~ qualifies sf -> skipped sf.
Proof.
  intros Honly Hnq. unfold storagemanager.skipped.
  destruct (storagemanager.lock sf) eqn:Hlock; [left; reflexivity|].
  destruct (Z.eq_dec (storagemanager.status sf) storagemanager.folderUnavailable)
    as [Hst|Hst]; [right; left; exact Hst|].
  right. right.
  destruct (snd (freeSectorIndex (storagemanager.setLock true sf)))
    as [e|] eqn:Hfree.
  - rewrite (Honly _ e Hfree). reflexivity.
  - exfalso. apply Hnq. split; [exact Hlock|]. split; [exact Hst|exact Hfree].
Qed.

Lemma none_qualifies_allSkipped order fm :
  (forall sf' e, snd (freeSectorIndex sf') = Some e -> e = errFolderAlreadyFull) ->
  (forall p sf, In p order -> sfs fm !! p = Some sf -> ~ qualifies sf) ->
  allSkipped order fm.
Proof.
  intros Honly Hnone p sf Hin Hp.
  apply (not_qualifies_skipped sf Honly). exact (Hnone p sf Hin Hp).
Qed.

(** C6, amended.  A pass of [selectFolderToAdd] goes by every folder whose
    try-lock fails, that is unavailable or that is full, without waiting
    for any lock.  When it has gone by every folder before it, the first
    folder that is unlocked, available and has a free slot index is
    returned, locked; and an unlocked, available folder on which
    [freeSectorIndex] fails with an error other than
    [errFolderAlreadyFull] ends the pass with that error, the folders after
    it not being looked at.  When the pass goes by every folder it fails
    with [errAllFoldersFullOrUsed].  For [retryTimes] of at least 1: when
    every one of the [retryTimes] passes goes by every folder,
    [selectFolderToAddWithRetry] fails with [errAllFoldersFullOrUsed]; and
    whenever it returns an error, each of the [retryTimes] passes has
    failed.  When [errFolderAlreadyFull] is the only error that
    [freeSectorIndex] returns, a folder that does not qualify is gone by:
    a pass returns the first folder it visits that qualifies, and for
    [retryTimes] of at least 1, when in every pass no folder qualifies,
    [selectFolderToAddWithRetry] fails with [errAllFoldersFullOrUsed]. *)
Theorem selectFolderToAdd_retry :
  (forall order fm,
      allSkipped order fm ->
      selectFolderToAdd order fm = (fm, (None, 0, Some errAllFoldersFullOrUsed)))
  /\ (forall pre p post fm sf,
        allSkipped pre fm ->
        sfs fm !! p = Some sf ->
        qualifies sf ->
        selectFolderToAdd (pre ++ p :: post) fm
        = (storagemanager.mkFolderManager
             (<[p := storagemanager.setLock true sf]> (sfs fm)),
           (Some (storagemanager.setLock true sf),
            fst (freeSectorIndex (storagemanager.setLock true sf)), None)))
  /\ (forall retryTimes fm,
        1 <= retryTimes ->
        ((forall i, (i < Z.to_nat retryTimes)%nat ->
                    allSkipped (rangeOrder i) (registryAt i fm)) ->
         snd (selectFolderToAddWithRetry retryTimes fm)
         = (None, 0, Some errAllFoldersFullOrUsed))
        /\ (forall e,
              snd (snd (selectFolderToAddWithRetry retryTimes fm)) = Some e ->
              forall i, (i < Z.to_nat retryTimes)%nat ->
                snd (snd (selectFolderToAdd (rangeOrder i) (registryAt i fm)))
                <> None))
  /\ (forall pre p post fm sf e,
        allSkipped pre fm ->
        sfs fm !! p = Some sf ->
        storagemanager.lock sf = false ->
        storagemanager.status sf <> storagemanager.folderUnavailable ->
        snd (freeSectorIndex (storagemanager.setLock true sf)) = Some e ->
        e <> errFolderAlreadyFull ->
        selectFolderToAdd (pre ++ p :: post) fm = (fm, (None, 0, Some e)))
  /\ ((forall sf e, snd (freeSectorIndex sf) = Some e -> e = errFolderAlreadyFull) ->
      (forall pre p post fm sf,
          (forall q sfq, In q pre -> sfs fm !! q = Some sfq -> ~ qualifies sfq) ->
          sfs fm !! p = Some sf ->
          qualifies sf ->
          selectFolderToAdd (pre ++ p :: post) fm
          = (storagemanager.mkFolderManager
               (<[p := storagemanager.setLock true sf]> (sfs fm)),
             (Some (storagemanager.setLock true sf),
              fst (freeSectorIndex (storagemanager.setLock true sf)), None)))
      /\ (forall retryTimes fm,
            1 <= retryTimes ->
            (forall i p sf, (i < Z.to_nat retryTimes)%nat ->
               In p (rangeOrder i) -> sfs (registryAt i fm) !! p = Some sf ->
               ~ qualifies sf) ->
            snd (selectFolderToAddWithRetry retryTimes fm)
            = (None, 0, Some errAllFoldersFullOrUsed))).
Proof.
  assert (Hretry : forall retryTimes fm,
             1 <= retryTimes ->
             (forall i, (i < Z.to_nat retryTimes)%nat ->
                        allSkipped (rangeOrder i) (registryAt i fm)) ->
             snd (selectFolderToAddWithRetry retryTimes fm)
             = (None, 0, Some errAllFoldersFullOrUsed)).
  { intros retryTimes fm Hpos Hall.
    unfold storagemanager.selectFolderToAddWithRetry.
    rewrite tripCount_nonneg by lia.
    pose proof (retryLoop_all_skipped fm (Z.to_nat retryTimes) 0 None) as E.
    change (registryAt 0 fm) with fm in E.
    rewrite E by (intros j Hj; apply Hall; lia).
    destruct (Z.to_nat retryTimes) eqn:En; [lia|reflexivity]. }
  split; [exact select_none|]. split; [|split; [|split]].
  - intros pre p post fm sf Hpre Hp Hq.
    rewrite (select_through pre _ fm Hpre). apply select_take; assumption.
  - intros retryTimes fm Hpos. split; [apply Hretry; exact Hpos|].
    unfold storagemanager.selectFolderToAddWithRetry.
    rewrite tripCount_nonneg by lia.
    intros e Hres i Hi.
    apply (retryLoop_failure fm e (Z.to_nat retryTimes) 0 None Hres). lia.
  - intros pre p post fm sf e Hpre Hp Hlock Hst Hfree Hne.
    rewrite (select_through pre _ fm Hpre).
    apply (select_abort p post fm sf e); assumption.
  - intros Honly. split.
    + intros pre p post fm sf Hpre Hp Hq.
      rewrite (select_through pre _ fm
                 (none_qualifies_allSkipped pre fm Honly Hpre)).
      apply select_take; assumption.
    + intros retryTimes fm Hpos Hnone.
      apply (Hretry retryTimes fm Hpos).
      intros i Hi. apply (none_qualifies_allSkipped _ _ Honly).
      intros p sf Hin Hp. exact (Hnone i p sf Hi Hin Hp).
Qed.

End SelectionFacts.

(** *** The folder manager on small registries *)

Example validateShrink_enough :
  storagemanager.validateShrink "/a" 8 example.twoFolders
  = (example.twoFolders, Returns None).
Proof. reflexivity. Qed.

Example validateShrink_short :
  storagemanager.validateShrink "/b" 0 example.someRoom
  = (example.someRoom,
     Returns (Some (errorString "not enough storage space for shrink"))).
Proof. reflexivity. Qed.

Example validateShrink_unregistered :
  snd (storagemanager.validateShrink "/c" 0 example.twoFolders)
  = Panic "invalid memory address or nil pointer dereference".
Proof. reflexivity. Qed.

Lemma twoFolders_invariant : storagemanager.registryInvariant example.twoFolders.
Proof.
  split.
  - apply map_Forall_insert_2; [|apply map_Forall_singleton];
      unfold storagemanager.folderInvariant; simpl; vm_compute;
      intuition discriminate.
  - vm_compute. discriminate.
Defined.

Lemma validateShrink_spec_witness :
  storagemanager.registryInvariant example.twoFolders
  /\ snd (storagemanager.validateShrink "/a" 8 example.twoFolders) = Returns None
  /\ fst (storagemanager.validateShrink "/a" 8 example.twoFolders)
     = example.twoFolders.
Proof.
  split; [exact twoFolders_invariant|].
  assert (Htarget : 0 <= 8 <= storagemanager.maxSectorsPerFolder)
    by (vm_compute; intuition discriminate).
  assert (Hsf : storagemanager.sfs example.twoFolders !! "/a"%string
                = Some example.folderA) by reflexivity.
  destruct (validateShrink_spec "/a" 8 example.twoFolders example.folderA
              twoFolders_invariant Htarget Hsf) as (Hiff & _ & Hframe).
  split; [|exact Hframe].
  apply Hiff. vm_compute. discriminate.
Defined.

Example select_second :
  storagemanager.selectFolderToAdd example.freeIndex ["/a"; "/b"]%string
    example.someRoom
  = (storagemanager.mkFolderManager
       (<["/b"%string := storagemanager.setLock true example.folderB]>
          (storagemanager.sfs example.someRoom)),
     (Some (storagemanager.setLock true example.folderB), 4, None)).
Proof. reflexivity. Qed.

Example select_no_room :
  storagemanager.selectFolderToAdd example.freeIndex ["/a"; "/b"]%string
    example.noRoom
  = (example.noRoom, (None, 0, Some errAllFoldersFullOrUsed)).
Proof. reflexivity. Qed.

Example retry_three_no_room :
  storagemanager.selectFolderToAddWithRetry example.freeIndex example.everyPass
    example.idle 3 example.noRoom
  = (example.noRoom, (None, 0, Some errAllFoldersFullOrUsed)).
Proof. reflexivity. Qed.

Lemma noRoom_allSkipped :
  storagemanager.allSkipped example.freeIndex ["/a"; "/b"]%string example.noRoom.
Proof.
  intros p sf [<-|[<-|[]]] Hp; vm_compute in Hp; injection Hp as <-.
  - right. right. reflexivity.
  - left. reflexivity.
Defined.

Lemma noRoom_registryAt i :
  storagemanager.registryAt example.freeIndex example.everyPass example.idle
    i example.noRoom = example.noRoom.
Proof.
  induction i as [|i IH]; [reflexivity|].
  cbn [storagemanager.registryAt]. rewrite IH. reflexivity.
Defined.

(** An error of [freeSectorIndex] on [/a] ends the pass, though [/b] has
    room; so does it end every pass of the retries. *)
Example select_faulty :
  storagemanager.selectFolderToAdd example.faultyIndex ["/a"; "/b"]%string
    example.twoFolders
  = (example.twoFolders, (None, 0, Some (errorString "io"))).
Proof. reflexivity. Qed.

Example retry_three_faulty :
  storagemanager.selectFolderToAddWithRetry example.faultyIndex
    example.everyPass example.idle 3 example.twoFolders
  = (example.twoFolders, (None, 0, Some (errorString "io"))).
Proof. reflexivity. Qed.

Lemma selectFolderToAdd_retry_witness :
  1 <= 3
  /\ (forall i, (i < Z.to_nat 3)%nat ->
        storagemanager.allSkipped example.freeIndex (example.everyPass i)
          (storagemanager.registryAt example.freeIndex example.everyPass
             example.idle i example.noRoom))
  /\ snd (storagemanager.selectFolderToAddWithRetry example.freeIndex
            example.everyPass example.idle 3 example.noRoom)
     = (None, 0, Some errAllFoldersFullOrUsed).
Proof.
  assert (Hpos : 1 <= 3) by lia.
  assert (Hall : forall i, (i < Z.to_nat 3)%nat ->
            storagemanager.allSkipped example.freeIndex (example.everyPass i)
              (storagemanager.registryAt example.freeIndex example.everyPass
                 example.idle i example.noRoom)).
  { intros i _. rewrite noRoom_registryAt. exact noRoom_allSkipped. }
  split; [exact Hpos|]. split; [exact Hall|].
  exact (proj1 (proj1 (proj2 (proj2 (selectFolderToAdd_retry example.freeIndex
                                       example.everyPass example.idle)))
                  3 example.noRoom Hpos) Hall).
Defined.

(** C6 as it is stated, with [retryTimes] from 0 on, fails at
    [retryTimes = 0]: no pass is made, every one of the zero passes goes by
    every folder, and the call returns a nil folder with a nil error. *)
Lemma selectFolderToAddWithRetry_zero_counterexample :
  ~ (forall retryTimes,
        0 <= retryTimes ->
        (forall i, (i < Z.to_nat retryTimes)%nat ->
           storagemanager.allSkipped example.freeIndex (example.everyPass i)
             (storagemanager.registryAt example.freeIndex example.everyPass
                example.idle i example.noRoom)) ->
        snd (storagemanager.selectFolderToAddWithRetry example.freeIndex
               example.everyPass example.idle retryTimes example.noRoom)
        = (None, 0, Some errAllFoldersFullOrUsed)).
Proof.
  intros H. specialize (H 0 ltac:(lia)).
  assert (E : snd (storagemanager.selectFolderToAddWithRetry example.freeIndex
                     example.everyPass example.idle 0 example.noRoom)
              = (None, 0, None)) by reflexivity.
  rewrite E in H. discriminate H. intros i Hi. simpl in Hi. lia.
Qed.

(** ** The recovery pass of [Start] *)

Section RecoveryFacts.

Variable update : Type.
Variable decodeFromTransaction : storagemanager.Transaction -> update + error.
Variable getOrCreateSectorSalt :
  storagemanager.database -> storagemanager.database * Z * option error.
Variable loadAllStorageFolders :
  storagemanager.database -> gmap string storagemanager.storageFolder + error.
Variable load : storagemanager.storageFolder -> storagemanager.storageFolder + error.
Variable filepathJoin : string -> string -> string.
Variable walNew : string -> list storagemanager.Transaction + error.
Variable stopped : nat -> bool.
Variable tmAdd : nat -> option error.
Variable lockResource : nat -> update -> option error.

Local Abbreviation recoverLoop :=
  (storagemanager.recoverLoop update decodeFromTransaction stopped tmAdd lockResource).
Local Abbreviation Start :=
  (storagemanager.Start update decodeFromTransaction getOrCreateSectorSalt
     loadAllStorageFolders load filepathJoin walNew stopped tmAdd lockResource).
Local Abbreviation opensLog :=
  (storagemanager.opensLog getOrCreateSectorSalt loadAllStorageFolders load
     filepathJoin walNew).
Local Abbreviation evProcess := (@storagemanager.evProcess update).
Local Abbreviation evCannotDecode := (@storagemanager.evCannotDecode update).
Local Abbreviation eventIndex := (@storagemanager.eventIndex update).
Local Abbreviation cannotDecode := (@storagemanager.cannotDecode update).
Local Abbreviation targetRecoverCommitted := storagemanager.targetRecoverCommitted.

Lemma Start_recoverLoop sm txns :
  opensLog sm txns ->
  snd (fst (Start sm)) = fst (recoverLoop txns (length txns))
  /\ snd (Start sm) = snd (recoverLoop txns (length txns)).
Proof.
  intros (Hsalt & (fm & Hfm) & Hwal).
  unfold storagemanager.Start.
  destruct (getOrCreateSectorSalt (storagemanager.db sm)) as [[d s] err].
  simpl in Hsalt, Hfm. subst err. cbn [storagemanager.db storagemanager.persistDir].
  rewrite Hfm. cbn [storagemanager.persistDir]. rewrite Hwal.
  destruct (recoverLoop txns (length txns)) as [evs r]. split; reflexivity.
Qed.

(** One iteration, case by case. *)
Lemma recoverLoop_stopped txns i :
  stopped i = true -> recoverLoop txns (S i) = ([], Returns None).
Proof. intros H. cbn [storagemanager.recoverLoop]. rewrite H. reflexivity. Qed.

Lemma recoverLoop_undecodable txns i txn e :
  stopped i = false -> txns !! i = Some txn ->
  decodeFromTransaction txn = inr e ->
  recoverLoop txns (S i)
  = (cannotDecode i txn :: fst (recoverLoop txns i), snd (recoverLoop txns i)).
Proof.
  intros Hs Ht Hd. cbn [storagemanager.recoverLoop]. rewrite Hs, Ht, Hd.
  destruct (recoverLoop txns i) as [evs r]. reflexivity.
Qed.

Lemma recoverLoop_add_fails txns i txn up e :
  stopped i = false -> txns !! i = Some txn ->
  decodeFromTransaction txn = inl up -> tmAdd i = Some e ->
  recoverLoop txns (S i) = ([], Returns (Some e)).
Proof.
  intros Hs Ht Hd Ha. cbn [storagemanager.recoverLoop].
  rewrite Hs, Ht, Hd, Ha. reflexivity.
Qed.

Lemma recoverLoop_lock_fails txns i txn up e :
  stopped i = false -> txns !! i = Some txn ->
  decodeFromTransaction txn = inl up -> tmAdd i = None ->
  lockResource i up = Some e ->
  recoverLoop txns (S i)
  = (storagemanager.evCannotLock i up :: fst (recoverLoop txns i),
     snd (recoverLoop txns i)).
Proof.
  intros Hs Ht Hd Ha Hl. cbn [storagemanager.recoverLoop].
  rewrite Hs, Ht, Hd, Ha, Hl.
  destruct (recoverLoop txns i) as [evs r]. reflexivity.
Qed.

Lemma recoverLoop_process txns i txn up :
  stopped i = false -> txns !! i = Some txn ->
  decodeFromTransaction txn = inl up -> tmAdd i = None ->
  lockResource i up = None ->
  recoverLoop txns (S i)
  = (evProcess i up targetRecoverCommitted :: fst (recoverLoop txns i),
     snd (recoverLoop txns i)).
Proof.
  intros Hs Ht Hd Ha Hl. cbn [storagemanager.recoverLoop].
  rewrite Hs, Ht, Hd, Ha, Hl.
  destruct (recoverLoop txns i) as [evs r]. reflexivity.
Qed.

(** The cases of one iteration for an index within the list. *)
Lemma recoverLoop_cases txns i :
  (i < length txns)%nat ->
  (stopped i = true /\ recoverLoop txns (S i) = ([], Returns None))
  \/ (exists txn up e,
        txns !! i = Some txn /\ decodeFromTransaction txn = inl up
        /\ tmAdd i = Some e /\ recoverLoop txns (S i) = ([], Returns (Some e)))
  \/ (exists ev,
        stopped i = false
        /\ eventIndex ev = i
        /\ (forall up t, ev = evProcess i up t ->
              t = targetRecoverCommitted
              /\ tmAdd i = None /\ lockResource i up = None
              /\ exists txn, txns !! i = Some txn
                             /\ decodeFromTransaction txn = inl up)
        /\ recoverLoop txns (S i)
           = (ev :: fst (recoverLoop txns i), snd (recoverLoop txns i))).
Proof.
  intros Hi.
  destruct (stopped i) eqn:Hs;
    [left; split; [reflexivity|apply recoverLoop_stopped; exact Hs]|].
  destruct (lookup_lt_is_Some_2 txns i Hi) as [txn Ht].
  destruct (decodeFromTransaction txn) as [up|e] eqn:Hd.
  - destruct (tmAdd i) as [e|] eqn:Ha.
    + right. left. exists txn, up, e. repeat split; try assumption.
      apply (recoverLoop_add_fails txns i txn up e); assumption.
    + right. right. destruct (lockResource i up) as [e|] eqn:Hl.
      * exists (storagemanager.evCannotLock i up).
        split; [reflexivity|]. split; [reflexivity|].
        split; [intros up' t Hev; discriminate Hev|].
        apply (recoverLoop_lock_fails txns i txn up e); assumption.
      * exists (evProcess i up targetRecoverCommitted).
        split; [reflexivity|]. split; [reflexivity|]. split.
        -- intros up' t Hev. injection Hev as <- <-.
           repeat split; try assumption. exists txn. split; assumption.
        -- apply (recoverLoop_process txns i txn up); assumption.
  - right. right. exists (cannotDecode i txn).
    split; [reflexivity|]. split.
    + unfold storagemanager.cannotDecode.
      destruct (storagemanager.Operations txn); reflexivity.
    + split.
      * intros up t Hev. unfold storagemanager.cannotDecode in Hev.
        destruct (storagemanager.Operations txn); discriminate Hev.
      * apply (recoverLoop_undecodable txns i txn e); assumption.
Qed.

(** The indices visited: from [n - 1] down, without a gap, to where the
    pass ends; down to 0 when the manager is not stopped and [tm.Add] does
    not fail. *)
Lemma recoverLoop_order txns : forall n,
  (n <= length txns)%nat ->
  exists k, (k <= n)%nat
    /\ map eventIndex (fst (recoverLoop txns n)) = rev (seq k (n - k))
    /\ ((forall i, stopped i = false) -> (forall i, tmAdd i = None) -> k = 0%nat).
Proof.
  induction n as [|i IH]; intros Hn.
  - exists 0%nat. repeat split; reflexivity.
  - destruct (recoverLoop_cases txns i ltac:(lia))
      as [[Hs E]|[(txn & up & e & _ & _ & Ha & E)|(ev & Hs & Hidx & _ & E)]].
    + exists (S i). rewrite E, Nat.sub_diag. repeat split; [lia|].
      intros Hns _. rewrite Hns in Hs. discriminate.
    + exists (S i). rewrite E, Nat.sub_diag. repeat split; [lia|].
      intros _ Hna. rewrite Hna in Ha. discriminate.
    + destruct (IH ltac:(lia)) as (k & Hk & Emap & Hall).
      exists k. rewrite E. cbn [fst map]. rewrite Emap, Hidx.
      split; [lia|]. split; [|exact Hall].
      replace (S i - k)%nat with (S (i - k)) by lia.
      rewrite seq_S, rev_app_distr. simpl.
      replace (k + (i - k))%nat with i by lia. reflexivity.
Qed.

(** What is handed on for processing, and under which target. *)
Lemma recoverLoop_processed txns : forall n i up t,
  (n <= length txns)%nat ->
  In (evProcess i up t) (fst (recoverLoop txns n)) ->
  t = targetRecoverCommitted
  /\ (i < n)%nat
  /\ exists txn, txns !! i = Some txn /\ decodeFromTransaction txn = inl up.
Proof.
  induction n as [|j IH]; intros i up t Hn Hin; [destruct Hin|].
  destruct (recoverLoop_cases txns j ltac:(lia))
    as [[Hs E]|[(txn & up' & e & _ & _ & Ha & E)|(ev & Hs & Hidx & Hev & E)]];
    rewrite E in Hin; try (destruct Hin; fail).
  destruct Hin as [Hhd|Htl].
  - assert (Hij : j = i) by (rewrite <- Hidx, Hhd; reflexivity).
    rewrite <- Hij in Hhd |- *.
    destruct (Hev up t Hhd) as (Ht & _ & _ & Htxn).
    split; [exact Ht|]. split; [lia|exact Htxn].
  - destruct (IH i up t ltac:(lia) Htl) as (Ht & Hlt & Htxn).
    split; [exact Ht|]. split; [lia|exact Htxn].
Qed.

(** An error returned by the pass is an error of [tm.Add], met at a
    transaction that was decoded. *)
Lemma recoverLoop_error txns : forall n e,
  (n <= length txns)%nat ->
  snd (recoverLoop txns n) = Returns (Some e) ->
  exists i txn up,
    (i < n)%nat /\ txns !! i = Some txn
    /\ decodeFromTransaction txn = inl up /\ tmAdd i = Some e.
Proof.
  induction n as [|j IH]; intros e Hn Hres; [discriminate Hres|].
  destruct (recoverLoop_cases txns j ltac:(lia))
    as [[Hs E]|[(txn & up & e' & Ht & Hd & Ha & E)|(ev & Hs & Hidx & Hev & E)]];
    rewrite E in Hres; simpl in Hres.
  - discriminate Hres.
  - injection Hres as ->. exists j, txn, up. repeat split; [lia|assumption..].
  - destruct (IH e ltac:(lia) Hres) as (i & txn & up & Hi & H).
    exists i, txn, up. split; [lia|exact H].
Qed.

(** When the manager is not stopped and [tm.Add] does not fail, the pass
    returns nil, warns about every transaction that cannot be decoded and
    hands on every one that is decoded and whose resource is locked. *)
Lemma recoverLoop_complete txns :
  (forall i, stopped i = false) -> (forall i, tmAdd i = None) ->
  forall n, (n <= length txns)%nat ->
    snd (recoverLoop txns n) = Returns None
    /\ (forall i txn e, (i < n)%nat -> txns !! i = Some txn ->
          decodeFromTransaction txn = inr e ->
          In (cannotDecode i txn) (fst (recoverLoop txns n)))
    /\ (forall i txn up, (i < n)%nat -> txns !! i = Some txn ->
          decodeFromTransaction txn = inl up -> lockResource i up = None ->
          In (evProcess i up targetRecoverCommitted) (fst (recoverLoop txns n))).
Proof.
  intros Hns Hna. induction n as [|j IH]; intros Hn.
  - repeat split; intros; lia.
  - destruct (IH ltac:(lia)) as (Hres & Hwarn & Hproc).
    destruct (lookup_lt_is_Some_2 txns j ltac:(lia)) as [txn Ht].
    destruct (decodeFromTransaction txn) as [up|e] eqn:Hd.
    + destruct (lockResource j up) as [e|] eqn:Hl.
      * rewrite (recoverLoop_lock_fails txns j txn up e) by auto.
        cbn [fst snd]. split; [exact Hres|]. split.
        -- intros i txn' e' Hi Ht' Hd'.
           destruct (Nat.eq_dec i j) as [Heq|Hne]; [subst i|].
           ++ rewrite Ht in Ht'. injection Ht' as <-. congruence.
           ++ right. apply (Hwarn i txn' e'); [lia|assumption..].
        -- intros i txn' up' Hi Ht' Hd' Hl'.
           destruct (Nat.eq_dec i j) as [Heq|Hne]; [subst i|].
           ++ rewrite Ht in Ht'. injection Ht' as <-. congruence.
           ++ right. apply (Hproc i txn' up'); [lia|assumption..].
      * rewrite (recoverLoop_process txns j txn up) by auto.
        cbn [fst snd]. split; [exact Hres|]. split.
        -- intros i txn' e' Hi Ht' Hd'.
           destruct (Nat.eq_dec i j) as [Heq|Hne]; [subst i|].
           ++ rewrite Ht in Ht'. injection Ht' as <-. congruence.
           ++ right. apply (Hwarn i txn' e'); [lia|assumption..].
        -- intros i txn' up' Hi Ht' Hd' Hl'.
           destruct (Nat.eq_dec i j) as [Heq|Hne]; [subst i|].
           ++ rewrite Ht in Ht'. injection Ht' as <-.
              left. congruence.
           ++ right. apply (Hproc i txn' up'); [lia|assumption..].
    + rewrite (recoverLoop_undecodable txns j txn e) by auto.
      cbn [fst snd]. split; [exact Hres|]. split.
      * intros i txn' e' Hi Ht' Hd'.
        destruct (Nat.eq_dec i j) as [Heq|Hne]; [subst i|].
        -- rewrite Ht in Ht'. injection Ht' as <-. left. reflexivity.
        -- right. apply (Hwarn i txn' e'); [lia|assumption..].
      * intros i txn' up' Hi Ht' Hd' Hl'.
        destruct (Nat.eq_dec i j) as [Heq|Hne]; [subst i|].
        -- rewrite Ht in Ht'. injection Ht' as <-. congruence.
        -- right. apply (Hproc i txn' up'); [lia|assumption..].
Qed.

(** What is handed on was admitted by [tm.Add] and has its resource
    locked. *)
Lemma recoverLoop_processed_locked txns : forall n i up t,
  (n <= length txns)%nat ->
  In (evProcess i up t) (fst (recoverLoop txns n)) ->
  stopped i = false /\ tmAdd i = None /\ lockResource i up = None.
Proof.
  induction n as [|j IH]; intros i up t Hn Hin; [destruct Hin|].
  destruct (recoverLoop_cases txns j ltac:(lia))
    as [[Hs E]|[(txn & up' & e & _ & _ & Ha & E)|(ev & Hs & Hidx & Hev & E)]];
    rewrite E in Hin; try (destruct Hin; fail).
  destruct Hin as [Hhd|Htl].
  - assert (Hij : j = i) by (rewrite <- Hidx, Hhd; reflexivity).
    rewrite <- Hij in Hhd |- *.
    destruct (Hev up t Hhd) as (_ & Ha & Hl & _).
    split; [exact Hs|]. split; [exact Ha|exact Hl].
  - apply (IH i up t ltac:(lia) Htl).
Qed.

(** The pass from index [n - 1] down: where it ends, the indices of what
    it does, and that every decodable transaction above the end whose
    resource is locked is handed on. *)
Lemma recoverLoop_dispatch txns : forall n,
  (n <= length txns)%nat ->
  exists k, (k <= n)%nat
    /\ map eventIndex (fst (recoverLoop txns n)) = rev (seq k (n - k))
    /\ ((forall i, stopped i = false) -> (forall i, tmAdd i = None) -> k = 0%nat)
    /\ (forall i txn up,
          (k <= i < n)%nat -> txns !! i = Some txn ->
          decodeFromTransaction txn = inl up -> lockResource i up = None ->
          In (evProcess i up targetRecoverCommitted) (fst (recoverLoop txns n)))
    /\ (forall i txn e,
          (k <= i < n)%nat -> txns !! i = Some txn ->
          decodeFromTransaction txn = inr e ->
          In (cannotDecode i txn) (fst (recoverLoop txns n))).
Proof.
  induction n as [|i IH]; intros Hn.
  - exists 0%nat. split; [lia|]. split; [reflexivity|]. split; [reflexivity|].
    split; intros; lia.
  - destruct (recoverLoop_cases txns i ltac:(lia))
      as [[Hs E]|[(txn & up & e & _ & _ & Ha & E)|(ev & Hs & Hidx & _ & E)]].
    + exists (S i). rewrite E, Nat.sub_diag.
      split; [lia|]. split; [reflexivity|]. split.
      * intros Hns _. rewrite Hns in Hs. discriminate.
      * split; intros; lia.
    + exists (S i). rewrite E, Nat.sub_diag.
      split; [lia|]. split; [reflexivity|]. split.
      * intros _ Hna. rewrite Hna in Ha. discriminate.
      * split; intros; lia.
    + destruct (IH ltac:(lia)) as (k & Hk & Emap & Hall & Hproc & Hwarn).
      exists k. split; [lia|]. split; [|split; [exact Hall|]].
      * rewrite E. cbn [fst map]. rewrite Emap, Hidx.
        replace (S i - k)%nat with (S (i - k)) by lia.
        rewrite seq_S, rev_app_distr. cbn [rev app].
        replace (k + (i - k))%nat with i by lia. reflexivity.
      * split.
        -- intros j txn up Hj Ht Hd Hl.
           destruct (Nat.eq_dec j i) as [->|Hne].
           ++ destruct (tmAdd i) as [e|] eqn:Ha.
              ** rewrite (recoverLoop_add_fails txns i txn up e) in E by auto.
                 discriminate E.
              ** rewrite (recoverLoop_process txns i txn up) by auto.
                 left. reflexivity.
           ++ rewrite E. right. apply (Hproc j txn up); [lia|assumption..].
        -- intros j txn e Hj Ht Hd.
           destruct (Nat.eq_dec j i) as [->|Hne].
           ++ rewrite (recoverLoop_undecodable txns i txn e) by auto.
              left. reflexivity.
           ++ rewrite E. right. apply (Hwarn j txn e); [lia|assumption..].
Qed.

(** C2.  Startup recovery processes the unfinished transactions from the
    most recent to the oldest.  When [Start] gets as far as the recovery
    pass, there is an index [k] where the pass ends ([k = 0] unless the
    manager is stopped or [tm.Add] fails) such that: what the pass does is
    done for the indices [len(txns) - 1], [len(txns) - 2], ..., [k], in
    this order, once each and without a gap; every transaction at one of
    these indices that is decoded and whose resource is locked is handed on
    for processing, with its decoded update, at its place in this order,
    and every one that cannot be decoded is warned about there; what is
    handed on at an index is the decoded update of the transaction at that
    index, its resource locked; and every transaction handed on is handed
    on under [targetRecoverCommitted], the target of a recovery, none
    under [targetNormal], the target that applies an update forward. *)
Theorem Start_reverse_order sm txns :
  opensLog sm txns ->
  exists k, (k <= length txns)%nat
    /\ map eventIndex (snd (fst (Start sm)))
       = rev (seq k (length txns - k))
    /\ ((forall i, stopped i = false) -> (forall i, tmAdd i = None) -> k = 0%nat)
    /\ (forall i up t,
          In (evProcess i up t) (snd (fst (Start sm))) ->
          t = targetRecoverCommitted /\ t <> storagemanager.targetNormal
          /\ lockResource i up = None
          /\ exists txn, txns !! i = Some txn
                         /\ decodeFromTransaction txn = inl up)
    /\ (forall i txn up,
          (k <= i)%nat -> txns !! i = Some txn ->
          decodeFromTransaction txn = inl up -> lockResource i up = None ->
          In (evProcess i up targetRecoverCommitted) (snd (fst (Start sm))))
    /\ (forall i txn e,
          (k <= i)%nat -> txns !! i = Some txn ->
          decodeFromTransaction txn = inr e ->
          In (cannotDecode i txn) (snd (fst (Start sm)))).
Proof.
  intros Hopen.
  destruct (Start_recoverLoop sm txns Hopen) as [Eev _]. rewrite Eev.
  destruct (recoverLoop_dispatch txns (length txns) (Nat.le_refl _))
    as (k & Hk & Emap & Hall & Hproc & Hwarn).
  exists k. split; [exact Hk|]. split; [exact Emap|]. split; [exact Hall|].
  split; [|split].
  - intros i up t Hin.
    destruct (recoverLoop_processed_locked txns _ i up t (Nat.le_refl _) Hin)
      as (_ & _ & Hl).
    destruct (recoverLoop_processed txns _ i up t (Nat.le_refl _) Hin)
      as (-> & _ & Htxn).
    split; [reflexivity|]. split; [discriminate|]. split; [exact Hl|exact Htxn].
  - intros i txn up Hi Ht Hd Hl.
    apply (Hproc i txn up); [|assumption..].
    apply lookup_lt_Some in Ht. lia.
  - intros i txn e Hi Ht Hd.
    apply (Hwarn i txn e); [|assumption..].
    apply lookup_lt_Some in Ht. lia.
Qed.

(** C3, amended.  The recovery pass does not tell committed from
    uncommitted transactions: every recovered transaction that it hands on
    for processing is handed on under [targetRecoverCommitted], which is
    the target of its case when the transaction is committed and is not
    when it is uncommitted; [targetRecoverUncommitted] is not used. *)
Theorem Start_single_target sm txns :
  opensLog sm txns ->
  forall i up t,
    In (evProcess i up t) (snd (fst (Start sm))) ->
    exists txn,
      txns !! i = Some txn
      /\ decodeFromTransaction txn = inl up
      /\ t = targetRecoverCommitted
      /\ t <> storagemanager.targetRecoverUncommitted
      /\ (t = storagemanager.matchingTarget txn
          <-> storagemanager.committed txn = true).
Proof.
  intros Hopen i up t Hin.
  destruct (Start_recoverLoop sm txns Hopen) as [Eev _]. rewrite Eev in Hin.
  destruct (recoverLoop_processed txns _ i up t (Nat.le_refl _) Hin)
    as (-> & _ & txn & Ht & Hd).
  exists txn. split; [exact Ht|]. split; [exact Hd|]. split; [reflexivity|].
  split; [discriminate|].
  unfold storagemanager.matchingTarget.
  destruct (storagemanager.committed txn); split; intros H;
    try reflexivity; discriminate H.
Qed.

(** C9.  A transaction that cannot be decoded is logged and skipped.  With
    such a transaction at index [i] of the recovered list: the iteration
    for it, unless the manager is stopped, logs the warning and the pass
    goes on with the transactions before it, the result of the pass being
    theirs; an error that [Start] returns is an error of [tm.Add] met at
    another transaction, one that was decoded; and when the manager is not
    stopped and [tm.Add] does not fail, [Start] returns nil, having logged
    the warning and handed on every transaction that is decoded and whose
    resource is locked. *)
Theorem Start_skips_undecodable sm txns i txn e :
  opensLog sm txns ->
  txns !! i = Some txn ->
  decodeFromTransaction txn = inr e ->
  (stopped i = false ->
   recoverLoop txns (S i)
   = (cannotDecode i txn :: fst (recoverLoop txns i), snd (recoverLoop txns i)))
  /\ (forall e',
        snd (Start sm) = Returns (Some e') ->
        exists j txn' up,
          j <> i /\ txns !! j = Some txn'
          /\ decodeFromTransaction txn' = inl up /\ tmAdd j = Some e')
  /\ ((forall j, stopped j = false) -> (forall j, tmAdd j = None) ->
      snd (Start sm) = Returns None
      /\ In (cannotDecode i txn) (snd (fst (Start sm)))
      /\ forall j txn' up,
           txns !! j = Some txn' ->
           decodeFromTransaction txn' = inl up ->
           lockResource j up = None ->
           In (evProcess j up targetRecoverCommitted) (snd (fst (Start sm)))).
Proof.
  intros Hopen Ht Hd.
  destruct (Start_recoverLoop sm txns Hopen) as [Eev Eres]. rewrite Eev, Eres.
  split; [|split].
  - intros Hs. apply (recoverLoop_undecodable txns i txn e); assumption.
  - intros e' Hres.
    destruct (recoverLoop_error txns _ e' (Nat.le_refl _) Hres)
      as (j & txn' & up & _ & Ht' & Hd' & Ha).
    exists j, txn', up. repeat split; try assumption.
    intros ->. rewrite Ht in Ht'. injection Ht' as <-. congruence.
  - intros Hns Hna.
    destruct (recoverLoop_complete txns Hns Hna (length txns) (Nat.le_refl _))
      as (Hnil & Hwarn & Hproc).
    split; [exact Hnil|]. split.
    + apply (Hwarn i txn e); [|assumption..].
      apply lookup_lt_Some in Ht. exact Ht.
    + intros j txn' up Ht' Hd' Hl'.
      apply (Hproc j txn' up); [|assumption..].
      apply lookup_lt_Some in Ht'. exact Ht'.
Qed.

(** *** More on [Start] and [loadFolderManager] *)

Lemma recoverLoop_returns txns : forall n,
  (n <= length txns)%nat ->
  exists r, snd (recoverLoop txns n) = Returns r.
Proof.
  induction n as [|i IH]; intros Hn; [exists None; reflexivity|].
  destruct (recoverLoop_cases txns i ltac:(lia))
    as [[_ E]|[(txn & up & e & _ & _ & _ & E)|(ev & _ & _ & _ & E)]];
    rewrite E; cbn [snd]; [eexists; reflexivity..|].
  apply IH. lia.
Qed.

Lemma recoverLoop_no_add_failure txns n :
  (forall i, tmAdd i = None) -> (n <= length txns)%nat ->
  snd (recoverLoop txns n) = Returns None.
Proof.
  intros Hna Hn. destruct (recoverLoop_returns txns n Hn) as [[e|] Hr];
    [|exact Hr].
  destruct (recoverLoop_error txns n e Hn Hr) as (i & _ & _ & _ & _ & _ & Ha).
  rewrite Hna in Ha. discriminate.
Qed.

(** When the iteration for index [j] does nothing that can be seen, the
    pass having ended there, nothing is done for [j] or below. *)
Lemma recoverLoop_above txns j : forall n,
  (j < n <= length txns)%nat ->
  fst (recoverLoop txns (S j)) = [] ->
  forall ev, In ev (fst (recoverLoop txns n)) -> (j < eventIndex ev)%nat.
Proof.
  induction n as [|i IH]; intros Hn Hend ev Hin; [lia|].
  destruct (Nat.eq_dec i j) as [->|Hne]; [rewrite Hend in Hin; destruct Hin|].
  destruct (recoverLoop_cases txns i ltac:(lia))
    as [[_ E]|[(txn & up & e & _ & _ & _ & E)|(ev' & _ & Hidx & _ & E)]];
    rewrite E in Hin; try (destruct Hin; fail).
  destruct Hin as [<-|Hin]; [lia|].
  apply (IH ltac:(lia) Hend ev Hin).
Qed.

(** X18.  A stop cuts the recovery short without an error.  When the
    manager is found stopped at the iteration for index [j], nothing is
    done for the transaction at [j] nor for any older one: no warning, no
    lock, no processing; and unless [tm.Add] failed before, [Start]
    returns nil all the same. *)
Theorem Start_stopped_abandons sm txns j :
  opensLog sm txns ->
  (j < length txns)%nat ->
  stopped j = true ->
  (forall ev, In ev (snd (fst (Start sm))) -> (j < eventIndex ev)%nat)
  /\ ((forall i, tmAdd i = None) -> snd (Start sm) = Returns None).
Proof.
  intros Hopen Hj Hs.
  destruct (Start_recoverLoop sm txns Hopen) as [Eev Eres]. rewrite Eev, Eres.
  split.
  - apply (recoverLoop_above txns j); [lia|].
    rewrite (recoverLoop_stopped txns j Hs). reflexivity.
  - intros Hna. apply recoverLoop_no_add_failure; [exact Hna|lia].
Qed.

Lemma recoverLoop_add_failure_result txns j txn up e :
  (forall i, stopped i = false) ->
  (forall i, i <> j -> tmAdd i = None) ->
  txns !! j = Some txn -> decodeFromTransaction txn = inl up ->
  tmAdd j = Some e ->
  forall n, (j < n <= length txns)%nat ->
    snd (recoverLoop txns n) = Returns (Some e).
Proof.
  intros Hns Hna Ht Hd Ha. induction n as [|i IH]; intros Hn; [lia|].
  destruct (Nat.eq_dec i j) as [->|Hne].
  - rewrite (recoverLoop_add_fails txns j txn up e) by auto. reflexivity.
  - destruct (recoverLoop_cases txns i ltac:(lia))
      as [[Hs _]|[(txn' & up' & e' & _ & _ & Ha' & _)|(ev & _ & _ & _ & E)]].
    + rewrite Hns in Hs. discriminate.
    + rewrite (Hna i Hne) in Ha'. discriminate.
    + rewrite E. cbn [snd]. apply IH. lia.
Qed.

(** X19.  A failure of [tm.Add] ends the recovery.  When [tm.Add] fails
    at the iteration for a transaction that was decoded, at index [j],
    nothing is done for this transaction nor for any older one; and when
    the manager is not stopped and [tm.Add] fails nowhere else, [Start]
    returns that error. *)
Theorem Start_add_failure sm txns j txn up e :
  opensLog sm txns ->
  txns !! j = Some txn ->
  decodeFromTransaction txn = inl up ->
  tmAdd j = Some e ->
  (forall ev, In ev (snd (fst (Start sm))) -> (j < eventIndex ev)%nat)
  /\ ((forall i, stopped i = false) ->
      (forall i, i <> j -> tmAdd i = None) ->
      snd (Start sm) = Returns (Some e)).
Proof.
  intros Hopen Ht Hd Ha.
  destruct (Start_recoverLoop sm txns Hopen) as [Eev Eres]. rewrite Eev, Eres.
  pose proof (lookup_lt_Some _ _ _ Ht) as Hj.
  split.
  - apply (recoverLoop_above txns j); [lia|].
    destruct (stopped j) eqn:Hs.
    + rewrite (recoverLoop_stopped txns j Hs). reflexivity.
    + rewrite (recoverLoop_add_fails txns j txn up e) by auto. reflexivity.
  - intros Hns Hna.
    apply (recoverLoop_add_failure_result txns j txn up e); auto; lia.
Qed.

(** X20.  Nothing is recovered before the log is open.  When the sector
    salt cannot be had, the folders cannot be loaded or the log cannot be
    opened, [Start] does nothing for any transaction and returns an error
    made by [fmt.Errorf] around the cause. *)
Theorem Start_needs_log sm :
  (forall txns, ~ opensLog sm txns) ->
  snd (fst (Start sm)) = []
  /\ exists msg cause, snd (Start sm) = Returns (Some (errorf msg cause)).
Proof.
  intros Hno. unfold storagemanager.Start.
  unfold storagemanager.opensLog in Hno.
  destruct (getOrCreateSectorSalt (storagemanager.db sm)) as [[d s] [e|]];
    cbn [fst snd] in *.
  - split; [reflexivity|]. eexists _, _. reflexivity.
  - cbn [storagemanager.db storagemanager.persistDir].
    destruct (storagemanager.loadFolderManager loadAllStorageFolders load d)
      as [fm|e] eqn:Efm.
    + cbn [storagemanager.persistDir].
      destruct (walNew (filepathJoin (storagemanager.persistDir sm)
                          storagemanager.walFileName)) as [txns|e] eqn:Ewal.
      * exfalso. apply (Hno txns). split; [reflexivity|].
        split; [exists fm; reflexivity|reflexivity].
      * split; [reflexivity|]. eexists _, _. reflexivity.
    + split; [reflexivity|]. eexists _, _. reflexivity.
Qed.

(** The folders that load, one by one. *)
Lemma loadFolders_inl : forall l loaded,
  storagemanager.loadFolders load l = inl loaded ->
  loaded.*1 = l.*1
  /\ forall p sf, In (p, sf) l ->
       exists sf', load sf = inl sf' /\ In (p, sf') loaded.
Proof.
  induction l as [|[q sfq] l IH]; intros loaded E.
  - injection E as <-. split; [reflexivity|]. intros p sf [].
  - cbn [storagemanager.loadFolders] in E.
    destruct (load sfq) as [sfq'|e] eqn:Eq; [|discriminate E].
    destruct (storagemanager.loadFolders load l) as [rest|e] eqn:Er;
      [|discriminate E].
    injection E as <-. destruct (IH rest eq_refl) as [Ek Hl].
    split; [rewrite !fmap_cons, Ek; reflexivity|].
    intros p sf [Heq|Hin].
    + injection Heq as -> ->. exists sfq'. split; [exact Eq|left; reflexivity].
    + destruct (Hl p sf Hin) as (sf' & E' & Hin').
      exists sf'. split; [exact E'|right; exact Hin'].
Qed.

Lemma loadFolders_inr : forall l e,
  storagemanager.loadFolders load l = inr e ->
  exists p sf cause,
    In (p, sf) l /\ load sf = inr cause
    /\ e = errorf ("load folder " ++ storagemanager.path sf) cause.
Proof.
  induction l as [|[q sfq] l IH]; intros e E; [discriminate E|].
  cbn [storagemanager.loadFolders] in E.
  destruct (load sfq) as [sfq'|cause] eqn:Eq.
  - destruct (storagemanager.loadFolders load l) as [rest|e'] eqn:Er;
      [discriminate E|].
    injection E as <-. destruct (IH e' eq_refl) as (p & sf & cause & Hin & H).
    exists p, sf, cause. split; [right; exact Hin|exact H].
  - injection E as <-. exists q, sfq, cause.
    split; [left; reflexivity|]. split; [exact Eq|reflexivity].
Qed.

(** X21.  [loadFolderManager] builds the registry from the folders of the
    database: it returns a folder manager exactly when the folders can be
    read from the database and each of them loads, and then the registry
    has under each path of the database the folder as loaded, and no other
    path; when a folder fails to load the error names the path of a folder
    that failed, around its error. *)
Theorem loadFolderManager_result d m :
  loadAllStorageFolders d = inl m ->
  (forall fm,
      storagemanager.loadFolderManager loadAllStorageFolders load d = inl fm ->
      forall p,
        match m !! p with
        | Some sf => exists sf', load sf = inl sf'
                                 /\ storagemanager.sfs fm !! p = Some sf'
        | None => storagemanager.sfs fm !! p = None
        end)
  /\ (forall e,
        storagemanager.loadFolderManager loadAllStorageFolders load d = inr e ->
        exists p sf cause,
          m !! p = Some sf /\ load sf = inr cause
          /\ e = errorf ("load folder " ++ storagemanager.path sf) cause)
  /\ ((forall p sf, m !! p = Some sf -> exists sf', load sf = inl sf') ->
      exists fm,
        storagemanager.loadFolderManager loadAllStorageFolders load d = inl fm).
Proof.
  intros Hm. unfold storagemanager.loadFolderManager. rewrite Hm.
  split; [|split].
  - intros fm E p.
    destruct (storagemanager.loadFolders load (map_to_list m))
      as [loaded|e] eqn:El; [|discriminate E].
    injection E as <-. cbn [storagemanager.sfs].
    destruct (loadFolders_inl _ _ El) as [Ek Hl].
    pose proof (NoDup_fst_map_to_list m) as Hnd. rewrite <- Ek in Hnd.
    destruct (m !! p) as [sf|] eqn:Hp.
    + destruct (Hl p sf) as (sf' & E' & Hin');
        [apply list_elem_of_In, elem_of_map_to_list; exact Hp|].
      exists sf'. split; [exact E'|].
      apply elem_of_list_to_map; [exact Hnd|].
      apply list_elem_of_In. exact Hin'.
    + apply not_elem_of_list_to_map. rewrite Ek.
      intros Hin. apply list_elem_of_fmap in Hin as ([q sf] & Hq & Hin).
      simpl in Hq. subst q. apply elem_of_map_to_list in Hin. congruence.
  - intros e E.
    destruct (storagemanager.loadFolders load (map_to_list m))
      as [loaded|e'] eqn:El; [discriminate E|].
    injection E as <-.
    destruct (loadFolders_inr _ _ El) as (p & sf & cause & Hin & H).
    exists p, sf, cause. split; [|exact H].
    apply elem_of_map_to_list, list_elem_of_In. exact Hin.
  - intros Hall.
    destruct (storagemanager.loadFolders load (map_to_list m))
      as [loaded|e'] eqn:El; [eexists; reflexivity|].
    destruct (loadFolders_inr _ _ El) as (p & sf & cause & Hin & Hc & _).
    apply list_elem_of_In, elem_of_map_to_list in Hin.
    destruct (Hall p sf Hin) as [sf' Hok]. congruence.
Qed.

End RecoveryFacts.

(** *** The recovery pass on a log of three transactions *)

Example Start_example :
  example.Start example.host
  = (storagemanager.mkStorageManager 7 example.emptyDatabase
       (storagemanager.mkFolderManager ∅) "/host" ∅ ∅,
     [storagemanager.evProcess 2%nat "deleteSector"%string 1;
      storagemanager.evCannotDecode 1%nat (Some "garbage"%string);
      storagemanager.evProcess 0%nat "addSector"%string 1],
     Returns None).
Proof. reflexivity. Qed.

Lemma example_opensLog : example.opensLog example.host example.log.
Proof.
  split; [reflexivity|]. split; [|reflexivity].
  exists (storagemanager.mkFolderManager ∅). reflexivity.
Defined.

Lemma Start_reverse_order_witness :
  example.opensLog example.host example.log
  /\ exists k, (k <= 3)%nat
       /\ map storagemanager.eventIndex (snd (fst (example.Start example.host)))
          = rev (seq k (3 - k))
       /\ In (storagemanager.evProcess 2%nat "deleteSector"%string 1)
            (snd (fst (example.Start example.host)))
       /\ In (storagemanager.evProcess 0%nat "addSector"%string 1)
            (snd (fst (example.Start example.host))).
Proof.
  split; [exact example_opensLog|].
  destruct (Start_reverse_order string example.decode example.getSalt
              example.loadAll example.loadOne example.join example.openWal
              example.running example.addOk example.lockOk
              example.host example.log example_opensLog)
    as (k & Hk & E & Hall & _ & Hproc & _).
  assert (Hk0 : k = 0%nat) by (apply Hall; intros i; reflexivity).
  exists k. split; [exact Hk|]. split; [exact E|]. split.
  - apply (Hproc 2%nat
             (storagemanager.mkTransaction
                [storagemanager.mkOperation "deleteSector" [2]] false)
             "deleteSector"%string); [lia|reflexivity..].
  - apply (Hproc 0%nat
             (storagemanager.mkTransaction
                [storagemanager.mkOperation "addSector" [1]] true)
             "addSector"%string); [lia|reflexivity..].
Defined.

Lemma Start_single_target_witness :
  example.opensLog example.host example.log
  /\ In (storagemanager.evProcess 2%nat "deleteSector"%string 1)
       (snd (fst (example.Start example.host)))
  /\ exists txn,
       example.log !! 2%nat = Some txn
       /\ storagemanager.committed txn = false
       /\ 1 <> storagemanager.matchingTarget txn.
Proof.
  assert (Hin : In (storagemanager.evProcess 2%nat "deleteSector"%string 1)
                  (snd (fst (example.Start example.host))))
    by (left; reflexivity).
  split; [exact example_opensLog|]. split; [exact Hin|].
  destruct (Start_single_target string example.decode example.getSalt
              example.loadAll example.loadOne example.join example.openWal
              example.running example.addOk example.lockOk
              example.host example.log example_opensLog
              2%nat "deleteSector"%string 1 Hin)
    as (txn & Ht & _ & _ & _ & Hiff).
  exists txn. split; [exact Ht|].
  injection Ht as <-. split; [reflexivity|].
  intros Heq. apply Hiff in Heq. discriminate Heq.
Defined.

(** C3 as it is stated fails on this log: the transaction at index 2 is
    uncommitted, and it is handed on under [targetRecoverCommitted], not
    under the target of its case. *)
Lemma Start_uncommitted_counterexample :
  ~ (forall i up t txn,
        In (storagemanager.evProcess i up t)
          (snd (fst (example.Start example.host))) ->
        example.log !! i = Some txn ->
        t = storagemanager.matchingTarget txn).
Proof.
  intros H.
  specialize (H 2%nat "deleteSector"%string 1
                (storagemanager.mkTransaction
                   [storagemanager.mkOperation "deleteSector" [2]] false)
                ltac:(left; reflexivity) eq_refl).
  discriminate H.
Qed.

Lemma Start_skips_undecodable_witness :
  example.opensLog example.host example.log
  /\ example.log !! 1%nat
     = Some (storagemanager.mkTransaction
               [storagemanager.mkOperation "garbage" []] true)
  /\ snd (example.Start example.host) = Returns None
  /\ In (storagemanager.evProcess 0%nat "addSector"%string 1)
       (snd (fst (example.Start example.host))).
Proof.
  split; [exact example_opensLog|]. split; [reflexivity|].
  destruct (Start_skips_undecodable string example.decode example.getSalt
              example.loadAll example.loadOne example.join example.openWal
              example.running example.addOk example.lockOk
              example.host example.log 1%nat
              (storagemanager.mkTransaction
                 [storagemanager.mkOperation "garbage" []] true)
              (errorString "unknown update")
              example_opensLog eq_refl eq_refl)
    as (_ & _ & Hall).
  destruct (Hall (fun _ => eq_refl) (fun _ => eq_refl)) as (Hnil & _ & Hproc).
  split; [exact Hnil|].
  exact (Hproc 0%nat
           (storagemanager.mkTransaction
              [storagemanager.mkOperation "addSector" [1]] true)
           "addSector"%string eq_refl eq_refl eq_refl).
Defined.

(** ** [DeleteFolder] *)

Section DeleteFolderFacts.

Variable homeDir : string.
Variable filepathJoin : string -> string -> string.
Variable filepathAbs : string -> string + error.
Variable sizeToNumSectors : Z -> Z.
Variable moveSector :
  storagemanager.storageManager -> Z * storagemanager.sectorRecord ->
  storagemanager.storageManager * option error.

Local Abbreviation sfs := storagemanager.sfs.
Local Abbreviation folders := storagemanager.folders.
Local Abbreviation db := storagemanager.db.
Local Abbreviation absolutePath :=
  (storagemanager.absolutePath homeDir filepathJoin filepathAbs).
Local Abbreviation shrinkFolder :=
  (storagemanager.shrinkFolder sizeToNumSectors moveSector).
Local Abbreviation DeleteFolder :=
  (storagemanager.DeleteFolder homeDir filepathJoin filepathAbs
     sizeToNumSectors moveSector).

Lemma filter_none {A : Type} (f : A -> bool) (l : list A) :
  (forall x, In x l -> f x = false) -> List.filter f l = [].
Proof.
  induction l as [|x l IH]; intros H; [reflexivity|].
  simpl. rewrite (H x) by (left; reflexivity).
  apply IH. intros y Hy. apply H. right. exact Hy.
Qed.

Lemma nothing_to_evacuate sf sm target :
  storagemanager.holdsNoSector sf sm ->
  storagemanager.sectorsToEvacuate (storagemanager.id sf) target (db sm) = [].
Proof.
  intros [_ Hnone]. unfold storagemanager.sectorsToEvacuate.
  apply filter_none. intros [k r] Hin. simpl.
  apply list_elem_of_In, elem_of_map_to_list in Hin.
  destruct (Z.eqb_spec (storagemanager.sectorFolder r) (storagemanager.id sf))
    as [Heq|_]; [|reflexivity].
  exfalso. exact (Hnone k r Hin Heq).
Qed.

Lemma validateShrink_nothing_stored p target fm sf :
  sfs fm !! p = Some sf -> storagemanager.storedSectors sf = 0 ->
  snd (storagemanager.validateShrink p target fm) = Returns None.
Proof.
  intros Hp Hzero. unfold storagemanager.validateShrink. rewrite Hp, Hzero.
  pose proof (wrapU64_range
                (storagemanager.freeSectorsOfOthers p fm + target)) as Hr.
  destruct (Z.ltb_spec
              (wrapU64 (storagemanager.freeSectorsOfOthers p fm + target)) 0);
    [lia|reflexivity].
Qed.

(** Shrinking a folder that holds no sector moves nothing and sets the
    capacity, in the registry and in the folder's record. *)
Lemma shrinkFolder_holdsNoSector p size sm sf :
  sfs (folders sm) !! p = Some sf ->
  storagemanager.holdsNoSector sf sm ->
  shrinkFolder p size sm
  = (let sf' := storagemanager.setNumSectors (sizeToNumSectors size) sf in
     storagemanager.mkStorageManager (storagemanager.sectorSalt sm)
       (storagemanager.mkDatabase
          (<[storagemanager.id sf := sf']> (storagemanager.folderRecords (db sm)))
          (storagemanager.pathToID (db sm)) (storagemanager.sectors (db sm))
          (storagemanager.salt (db sm)))
       (storagemanager.mkFolderManager (<[p := sf']> (sfs (folders sm))))
       (storagemanager.persistDir sm) (storagemanager.openFiles sm)
       (storagemanager.diskFiles sm),
     [], Returns None).
Proof.
  intros Hp Hnone. unfold storagemanager.shrinkFolder.
  rewrite (validateShrink_nothing_stored p _ _ sf Hp (proj1 Hnone)).
  rewrite Hp, (nothing_to_evacuate sf sm _ Hnone).
  cbn [storagemanager.evacuate]. rewrite Hp. reflexivity.
Qed.

(** C7, amended.  For a registered folder that holds no sector and whose
    capacity [numSectors] is not zero, when deleting the record, closing
    the data file and removing it do not fail: [DeleteFolder] moves no
    sector and returns nil, and after it the folder is not in the registry,
    the metadata store has neither its record nor its path entry, its data
    file handle is closed and its data file is removed from the disk. *)
Theorem DeleteFolder_holdsNoSector folderPath p sm sf :
  absolutePath folderPath = inl p ->
  sfs (folders sm) !! p = Some sf ->
  storagemanager.holdsNoSector sf sm ->
  storagemanager.numSectors sf <> 0 ->
  exists sm',
    DeleteFolder storagemanager.noFaults folderPath sm = (sm', [], Returns None)
    /\ sfs (folders sm') !! p = None
    /\ storagemanager.folderRecords (db sm') !! storagemanager.id sf = None
    /\ storagemanager.pathToID (db sm') !! storagemanager.path sf = None
    /\ ~ (storagemanager.dataFile sf ∈ storagemanager.openFiles sm')
    /\ ~ (filepathJoin (storagemanager.path sf) storagemanager.dataFileName
          ∈ storagemanager.diskFiles sm').
Proof.
  intros Habs Hp Hnone Hcap.
  unfold storagemanager.DeleteFolder. rewrite Habs.
  unfold storagemanager.getWithoutLock. rewrite Hp.
  destruct (Z.eqb_spec (storagemanager.numSectors sf) 0) as [|_];
    [contradiction|].
  rewrite (shrinkFolder_holdsNoSector p 0 sm sf Hp Hnone).
  cbn zeta. cbn [storagemanager.folders storagemanager.sfs].
  rewrite lookup_insert_eq. cbn [default].
  cbn [storagemanager.noFaults storagemanager.deleteStorageFolderErr
         storagemanager.closeErr storagemanager.removeErr
         storagemanager.deleteStorageFolder].
  eexists. split; [reflexivity|].
  cbn [storagemanager.folders storagemanager.db storagemanager.sfs
         storagemanager.delete storagemanager.folderRecords
         storagemanager.pathToID storagemanager.openFiles
         storagemanager.diskFiles storagemanager.setNumSectors
         storagemanager.id storagemanager.path storagemanager.dataFile].
  split; [apply lookup_delete_eq|]. split; [apply lookup_delete_eq|].
  split; [apply lookup_delete_eq|].
  split; apply not_elem_of_difference; right; apply elem_of_singleton;
    reflexivity.
Qed.

End DeleteFolderFacts.

(** *** [DeleteFolder] on a small host *)

Lemma spare_holdsNoSector :
  storagemanager.holdsNoSector example.spareFolder example.hostWithFolders.
Proof.
  split; [reflexivity|].
  intros k r Hk. unfold example.hostWithFolders in Hk.
  cbn [storagemanager.sectors storagemanager.db] in Hk.
  apply lookup_singleton_Some in Hk as [_ <-]. discriminate.
Defined.

Lemma void_holdsNoSector :
  storagemanager.holdsNoSector example.voidFolder example.hostWithFolders.
Proof.
  split; [reflexivity|].
  intros k r Hk. unfold example.hostWithFolders in Hk.
  cbn [storagemanager.sectors storagemanager.db] in Hk.
  apply lookup_singleton_Some in Hk as [_ <-]. discriminate.
Defined.

Example DeleteFolder_spare :
  example.DeleteFolder storagemanager.noFaults "/spare" example.hostWithFolders
  = (example.hostWithoutSpare, [], Returns None).
Proof. vm_compute. reflexivity. Qed.

Example DeleteFolder_record_fault :
  snd (example.DeleteFolder
         (storagemanager.mkIoFaults (Some (errorString "disk error")) None None)
         "/spare" example.hostWithFolders)
  = Returns (Some (errorString "disk error")).
Proof. vm_compute. reflexivity. Qed.

Lemma DeleteFolder_holdsNoSector_witness :
  storagemanager.sfs (storagemanager.folders example.hostWithFolders)
    !! "/spare"%string = Some example.spareFolder
  /\ storagemanager.holdsNoSector example.spareFolder example.hostWithFolders
  /\ storagemanager.numSectors example.spareFolder <> 0
  /\ exists sm',
       example.DeleteFolder storagemanager.noFaults "/spare"
         example.hostWithFolders = (sm', [], Returns None)
       /\ storagemanager.sfs (storagemanager.folders sm') !! "/spare"%string
          = None.
Proof.
  assert (Hp : storagemanager.sfs (storagemanager.folders example.hostWithFolders)
                 !! "/spare"%string = Some example.spareFolder) by reflexivity.
  assert (Hcap : storagemanager.numSectors example.spareFolder <> 0)
    by discriminate.
  split; [exact Hp|]. split; [exact spare_holdsNoSector|]. split; [exact Hcap|].
  destruct (DeleteFolder_holdsNoSector example.home example.join example.absolute
              example.toSectors example.relocate
              "/spare" "/spare" example.hostWithFolders example.spareFolder
              eq_refl Hp spare_holdsNoSector Hcap)
    as (sm' & E & Hgone & _).
  exists sm'. split; [exact E|exact Hgone].
Defined.

(** C7 as it is stated fails for a registered folder whose capacity is
    zero: it holds no sector, [DeleteFolder] returns nil, and the folder is
    still registered, with its record and its data file. *)
Lemma DeleteFolder_zero_capacity_counterexample :
  ~ (forall folderPath p sf,
        storagemanager.absolutePath example.home example.join example.absolute
          folderPath = inl p ->
        storagemanager.sfs (storagemanager.folders example.hostWithFolders) !! p
        = Some sf ->
        storagemanager.holdsNoSector sf example.hostWithFolders ->
        storagemanager.sfs
          (storagemanager.folders
             (fst (fst (example.DeleteFolder storagemanager.noFaults folderPath
                          example.hostWithFolders)))) !! p = None).
Proof.
  intros H.
  specialize (H "/void"%string "/void"%string example.voidFolder
                eq_refl eq_refl void_holdsNoSector).
  vm_compute in H. discriminate H.
Qed.

Example DeleteFolder_void :
  example.DeleteFolder storagemanager.noFaults "/void" example.hostWithFolders
  = (example.hostWithFolders, [], Returns None).
Proof. vm_compute. reflexivity. Qed.

(** ** More on the folder manager *)

Section RegistryFacts.

Local Abbreviation sfs := storagemanager.sfs.
Local Abbreviation path := storagemanager.path.
Local Abbreviation getWithoutLock := storagemanager.getWithoutLock.
Local Abbreviation exist := storagemanager.exist.

Lemma exist_true p fm : exist p fm = true <-> is_Some (sfs fm !! p).
Proof. unfold storagemanager.exist. apply bool_decide_eq_true. Qed.

Lemma exist_false p fm : exist p fm = false <-> sfs fm !! p = None.
Proof.
  unfold storagemanager.exist. rewrite bool_decide_eq_false.
  rewrite eq_None_not_Some. reflexivity.
Qed.

(** X7.  After [addFolder] the folder is found under its path by
    [getWithoutLock] and [exist]; the other paths are as before; the
    registry has one folder more when the path was not registered and as
    many as before when it was; and deleting the path of a folder just
    added under a path that was not registered gives back the registry. *)
Theorem addFolder_then_lookup sf fm :
  getWithoutLock (path sf) (fst (storagemanager.addFolder sf fm)) = inl sf
  /\ exist (path sf) (fst (storagemanager.addFolder sf fm)) = true
  /\ (forall p, p <> path sf ->
        getWithoutLock p (fst (storagemanager.addFolder sf fm))
        = getWithoutLock p fm
        /\ exist p (fst (storagemanager.addFolder sf fm)) = exist p fm)
  /\ storagemanager.size (fst (storagemanager.addFolder sf fm))
     = (if exist (path sf) fm then storagemanager.size fm
        else storagemanager.size fm + 1)
  /\ (exist (path sf) fm = false ->
      storagemanager.delete (path sf) (fst (storagemanager.addFolder sf fm)) = fm).
Proof.
  rewrite addFolder_eq. cbn [fst].
  unfold storagemanager.getWithoutLock, storagemanager.size,
    storagemanager.delete. cbn [storagemanager.sfs].
  split; [rewrite lookup_insert_eq; reflexivity|].
  split; [apply exist_true; cbn [storagemanager.sfs];
          rewrite lookup_insert_eq; eauto|].
  split; [|split].
  - intros p Hp. unfold storagemanager.exist. cbn [storagemanager.sfs].
    rewrite lookup_insert_ne by congruence. split; reflexivity.
  - destruct (exist (path sf) fm) eqn:E.
    + apply exist_true in E.
      rewrite map_size_insert_Some by exact E. reflexivity.
    + apply exist_false in E. rewrite map_size_insert_None by exact E. lia.
  - intros E. apply exist_false in E.
    rewrite delete_insert_id by exact E. destruct fm. reflexivity.
Qed.

(** X8.  After [delete] the path is not registered: [getWithoutLock]
    returns the error "path not exist" and [exist] is false; the other
    paths are as before; the registry has one folder less when the path
    was registered, and is unchanged when it was not. *)
Theorem delete_then_lookup p fm :
  getWithoutLock p (storagemanager.delete p fm)
  = inr (errorString "path not exist")
  /\ exist p (storagemanager.delete p fm) = false
  /\ (forall q, q <> p ->
        getWithoutLock q (storagemanager.delete p fm) = getWithoutLock q fm)
  /\ storagemanager.size (storagemanager.delete p fm)
     = (if exist p fm then storagemanager.size fm - 1
        else storagemanager.size fm)
  /\ (exist p fm = false -> storagemanager.delete p fm = fm).
Proof.
  unfold storagemanager.getWithoutLock, storagemanager.size,
    storagemanager.delete. cbn [storagemanager.sfs].
  split; [rewrite lookup_delete_eq; reflexivity|].
  split; [apply exist_false; cbn [storagemanager.sfs]; apply lookup_delete_eq|].
  split; [|split].
  - intros q Hq. rewrite lookup_delete_ne by congruence. reflexivity.
  - destruct (exist p fm) eqn:E.
    + apply exist_true in E.
      pose proof (map_size_delete_Some p (sfs fm) E) as Hs.
      assert (Hpos : base.size (sfs fm) <> 0%nat).
      { apply map_size_ne_0_lookup. exists p. exact E. }
      lia.
    + apply exist_false in E. rewrite map_size_delete_None by exact E.
      reflexivity.
  - intros E. apply exist_false in E. rewrite delete_id by exact E.
    destruct fm. reflexivity.
Qed.

End RegistryFacts.

(** *** More on the selection of a folder *)

Section SelectionMore.

Variable freeSectorIndex : storagemanager.storageFolder -> Z * option error.
Variable rangeOrder : nat -> list string.
Variable others : nat -> storagemanager.folderManager -> storagemanager.folderManager.

Local Abbreviation sfs := storagemanager.sfs.
Local Abbreviation selectFolderToAdd :=
  (storagemanager.selectFolderToAdd freeSectorIndex).
Local Abbreviation selectFolderToAddWithRetry :=
  (storagemanager.selectFolderToAddWithRetry freeSectorIndex rangeOrder others).
Local Abbreviation retryLoop :=
  (storagemanager.retryLoop freeSectorIndex rangeOrder others).
Local Abbreviation registryAt :=
  (storagemanager.registryAt freeSectorIndex rangeOrder others).
Local Abbreviation qualifies := (storagemanager.qualifies freeSectorIndex).
Local Abbreviation pass :=
  (fun i fm => selectFolderToAdd (rangeOrder i) (registryAt i fm)).

(** X9.  What a pass of [selectFolderToAdd] can return, whatever the
    registry and the order.  Either a folder: then it is a folder of the
    registry that the pass visited, that was unlocked, is available and has
    a free slot index, it is returned locked with that index and a nil
    error, and the registry differs only in that this folder is locked.
    Or an error: then no folder is returned, the index is 0, the registry
    is as it was, and the error is [errAllFoldersFullOrUsed] or the error
    that [freeSectorIndex] gave for an unlocked, available folder, other
    than [errFolderAlreadyFull]. *)
Theorem selectFolderToAdd_sound : forall order fm,
  (exists p sf,
      In p order /\ sfs fm !! p = Some sf /\ qualifies sf
      /\ selectFolderToAdd order fm
         = (storagemanager.mkFolderManager
              (<[p := storagemanager.setLock true sf]> (sfs fm)),
            (Some (storagemanager.setLock true sf),
             fst (freeSectorIndex (storagemanager.setLock true sf)), None)))
  \/ (exists e,
        selectFolderToAdd order fm = (fm, (None, 0, Some e))
        /\ (e = errAllFoldersFullOrUsed
            \/ exists p sf,
                In p order /\ sfs fm !! p = Some sf
                /\ storagemanager.lock sf = false
                /\ storagemanager.status sf <> storagemanager.folderUnavailable
                /\ snd (freeSectorIndex (storagemanager.setLock true sf)) = Some e
                /\ e <> errFolderAlreadyFull)).
Proof.
  induction order as [|p order IH]; intros fm.
  - right. exists errAllFoldersFullOrUsed. split; [reflexivity|left; reflexivity].
  - assert (Hrest :
      selectFolderToAdd (p :: order) fm = selectFolderToAdd order fm ->
      (exists p0 sf,
          In p0 (p :: order) /\ sfs fm !! p0 = Some sf /\ qualifies sf
          /\ selectFolderToAdd (p :: order) fm
             = (storagemanager.mkFolderManager
                  (<[p0 := storagemanager.setLock true sf]> (sfs fm)),
                (Some (storagemanager.setLock true sf),
                 fst (freeSectorIndex (storagemanager.setLock true sf)), None)))
      \/ (exists e,
            selectFolderToAdd (p :: order) fm = (fm, (None, 0, Some e))
            /\ (e = errAllFoldersFullOrUsed
                \/ exists p0 sf,
                    In p0 (p :: order) /\ sfs fm !! p0 = Some sf
                    /\ storagemanager.lock sf = false
                    /\ storagemanager.status sf <> storagemanager.folderUnavailable
                    /\ snd (freeSectorIndex (storagemanager.setLock true sf)) = Some e
                    /\ e <> errFolderAlreadyFull))).
    { intros E. rewrite E.
      destruct (IH fm) as [(q & sf & Hin & H)|(e & He & [Hall|(q & sf & Hin & H)])].
      - left. exists q, sf. split; [right; exact Hin|exact H].
      - right. exists e. split; [exact He|left; exact Hall].
      - right. exists e. split; [exact He|].
        right. exists q, sf. split; [right; exact Hin|exact H]. }
    destruct (sfs fm !! p) as [sf|] eqn:Hp;
      [|apply Hrest; apply select_absent; exact Hp].
    destruct (storagemanager.lock sf) eqn:Hlock;
      [apply Hrest; apply (select_skip _ p order fm sf Hp); left; exact Hlock|].
    destruct (Z.eq_dec (storagemanager.status sf) storagemanager.folderUnavailable)
      as [Hst|Hst];
      [apply Hrest; apply (select_skip _ p order fm sf Hp); right; left; exact Hst|].
    destruct (snd (freeSectorIndex (storagemanager.setLock true sf)))
      as [e|] eqn:Hfree.
    + destruct (decide (e = errFolderAlreadyFull)) as [->|Hne].
      * apply Hrest. apply (select_skip _ p order fm sf Hp).
        right. right. exact Hfree.
      * right. exists e. split.
        -- cbn [storagemanager.selectFolderToAdd]. rewrite Hp, Hlock.
           destruct (Z.eqb_spec (storagemanager.status sf)
                       storagemanager.folderUnavailable); [contradiction|].
           destruct (freeSectorIndex (storagemanager.setLock true sf))
             as [index err]. simpl in Hfree. subst err.
           destruct (decide (e = errFolderAlreadyFull)); [contradiction|].
           reflexivity.
        -- right. exists p, sf. split; [left; reflexivity|]. auto.
    + left. exists p, sf. split; [left; reflexivity|]. split; [exact Hp|].
      split; [split; [exact Hlock|split; [exact Hst|exact Hfree]]|].
      apply select_take; [exact Hp|].
      split; [exact Hlock|split; [exact Hst|exact Hfree]].
Qed.

Lemma retryLoop_first_success fm0 : forall n i err k,
  (i <= k < i + n)%nat ->
  (forall j, (i <= j < k)%nat -> snd (snd (pass j fm0)) <> None) ->
  snd (snd (pass k fm0)) = None ->
  retryLoop n i (registryAt i fm0) err = pass k fm0.
Proof.
  induction n as [|n IH]; intros i err k Hk Hfail Hok; [lia|].
  cbn [storagemanager.retryLoop].
  assert (Enext : registryAt (S i) fm0
                  = others i (fst (selectFolderToAdd (rangeOrder i)
                                     (registryAt i fm0))))
    by reflexivity.
  destruct (Nat.eq_dec k i) as [Heq|Hne].
  - subst k.
    destruct (selectFolderToAdd (rangeOrder i) (registryAt i fm0))
      as [fm' [[sf index] err']]. simpl in Hok. subst err'. reflexivity.
  - pose proof (Hfail i ltac:(lia)) as Hi.
    destruct (selectFolderToAdd (rangeOrder i) (registryAt i fm0))
      as [fm' [[sf index] [e'|]]]; simpl in Hi, Enext; [|contradiction].
    rewrite <- Enext. apply IH; [lia| |exact Hok].
    intros j Hj. apply Hfail. lia.
Qed.

Lemma retryLoop_last_error fm0 : forall n i err,
  (forall j, (i <= j < i + n)%nat -> snd (snd (pass j fm0)) <> None) ->
  retryLoop n i (registryAt i fm0) err
  = (registryAt (i + n)%nat fm0,
     (None, 0,
      match n with
      | O => err
      | S m => snd (snd (pass (i + m)%nat fm0))
      end)).
Proof.
  induction n as [|n IH]; intros i err Hfail.
  - rewrite Nat.add_0_r. reflexivity.
  - cbn [storagemanager.retryLoop].
    assert (Enext : registryAt (S i) fm0
                    = others i (fst (selectFolderToAdd (rangeOrder i)
                                       (registryAt i fm0))))
      by reflexivity.
    pose proof (Hfail i ltac:(lia)) as Hi.
    destruct (selectFolderToAdd (rangeOrder i) (registryAt i fm0))
      as [fm' [[sf index] [e'|]]] eqn:E; simpl in Hi, Enext; [|contradiction].
    rewrite <- Enext, IH by (intros j Hj; apply Hfail; lia).
    replace (S i + n)%nat with (i + S n)%nat by lia.
    destruct n as [|m].
    + rewrite Nat.add_0_r, E. reflexivity.
    + replace (S i + m)%nat with (i + S m)%nat by lia. reflexivity.
Qed.

(** X10.  [selectFolderToAddWithRetry] returns what the first pass that
    succeeds returns: when the passes before the [k]-th fail and the
    [k]-th, within the [retryTimes] passes, succeeds, the result is the
    folder, the index and the registry of the [k]-th pass, and no later
    pass is made. *)
Theorem selectFolderToAddWithRetry_first_success retryTimes fm k :
  (k < Z.to_nat retryTimes)%nat ->
  (forall j, (j < k)%nat -> snd (snd (pass j fm)) <> None) ->
  snd (snd (pass k fm)) = None ->
  selectFolderToAddWithRetry retryTimes fm = pass k fm.
Proof.
  intros Hk Hfail Hok.
  unfold storagemanager.selectFolderToAddWithRetry.
  rewrite tripCount_nonneg by lia.
  apply (retryLoop_first_success fm (Z.to_nat retryTimes) 0 None k);
    [lia| |exact Hok].
  intros j Hj. apply Hfail. lia.
Qed.

(** X11.  When each of the [retryTimes >= 1] passes fails,
    [selectFolderToAddWithRetry] returns no folder, index 0 and the error
    of the last pass, whatever the errors of the passes before it. *)
Theorem selectFolderToAddWithRetry_last_error retryTimes fm :
  1 <= retryTimes ->
  (forall j, (j < Z.to_nat retryTimes)%nat -> snd (snd (pass j fm)) <> None) ->
  snd (selectFolderToAddWithRetry retryTimes fm)
  = (None, 0, snd (snd (pass (Z.to_nat retryTimes - 1)%nat fm))).
Proof.
  intros Hpos Hfail.
  unfold storagemanager.selectFolderToAddWithRetry.
  rewrite tripCount_nonneg by lia.
  pose proof (retryLoop_last_error fm (Z.to_nat retryTimes) 0 None) as E.
  change (registryAt 0 fm) with fm in E.
  rewrite E by (intros j Hj; apply Hfail; lia).
  destruct (Z.to_nat retryTimes) as [|m] eqn:En; [lia|].
  cbn [snd]. replace (S m - 1)%nat with m by lia. reflexivity.
Qed.

End SelectionMore.

(** *** More on [validateShrink], [AvailableSpace] and [Folders] *)

Section SpaceFacts.

Local Abbreviation sfs := storagemanager.sfs.
Local Abbreviation folders := storagemanager.folders.
Local Abbreviation numSectors := storagemanager.numSectors.
Local Abbreviation storedSectors := storagemanager.storedSectors.
Local Abbreviation freeOf := storagemanager.freeOf.
Local Abbreviation sumOver := storagemanager.sumOver.
Local Abbreviation AvailableSpace := storagemanager.AvailableSpace.
Local Abbreviation space := storagemanager.HostSpace.mk.

Lemma pow_bounds :
  storagemanager.maxSectorsPerFolder = 2 ^ 32
  /\ storagemanager.maxNumFolders = 2 ^ 16.
Proof. split; reflexivity. Qed.

(** X12.  On a registry that satisfies the invariants of the data model, a
    target that is at least the number of sectors stored in the folder
    always passes [validateShrink], and a target that passes it still
    passes when it is raised. *)
Theorem validateShrink_enough_target folderPath t t' fm sf :
  storagemanager.registryInvariant fm ->
  sfs fm !! folderPath = Some sf ->
  0 <= t <= t' ->
  t' <= storagemanager.maxSectorsPerFolder ->
  (storedSectors sf <= t ->
   snd (storagemanager.validateShrink folderPath t fm) = Returns None)
  /\ (snd (storagemanager.validateShrink folderPath t fm) = Returns None ->
      snd (storagemanager.validateShrink folderPath t' fm) = Returns None).
Proof.
  intros Hinv Hsf Ht Ht'.
  destruct (freeSectorsOfOthers_exact folderPath fm Hinv) as [E Hb].
  destruct pow_bounds as [Emax Enum]. rewrite Emax, Enum in *.
  unfold storagemanager.validateShrink. rewrite Hsf, E.
  rewrite !wrapU64_small by lia.
  destruct (Z.ltb_spec (storagemanager.sumFreeOfOthers folderPath fm + t)
              (storedSectors sf)) as [Hlt|Hge];
    destruct (Z.ltb_spec (storagemanager.sumFreeOfOthers folderPath fm + t')
                (storedSectors sf)) as [Hlt'|Hge']; simpl;
      split; intros H; try reflexivity; try discriminate H; lia.
Qed.

Lemma wrap_space u f n s :
  wrapU64 (wrapU64 (u + f) + n)
  = wrapU64 (wrapU64 (u + s) + wrapU64 (f + wrapU64 (n - s))).
Proof.
  unfold wrapU64. rewrite Zplus_mod_idemp_l.
  rewrite <- Z.add_mod by lia.
  replace (u + s + (f + (n - s) mod 2 ^ 64))
    with (u + s + f + (n - s) mod 2 ^ 64) by lia.
  rewrite Zplus_mod_idemp_r. f_equal. lia.
Qed.

(** The three sums of [AvailableSpace] over a list of folders. *)
Lemma space_sums_list (l : list (string * storagemanager.storageFolder)) :
  let acc :=
    foldr (uncurry (fun (_ : string) sf acc =>
                      space
                        (wrapU64 (storagemanager.HostSpace.TotalSectors acc
                                  + numSectors sf))
                        (wrapU64 (storagemanager.HostSpace.UsedSectors acc
                                  + storedSectors sf))
                        (wrapU64 (storagemanager.HostSpace.FreeSectors acc
                                  + wrapU64 (numSectors sf - storedSectors sf)))))
      (space 0 0 0) l in
  let sum f :=
    foldr (uncurry (fun (_ : string) sf acc => acc + f sf)) 0 l in
  storagemanager.HostSpace.TotalSectors acc
  = wrapU64 (storagemanager.HostSpace.UsedSectors acc
             + storagemanager.HostSpace.FreeSectors acc)
  /\ (Forall (fun kv => storagemanager.folderInvariant (snd kv)) l ->
      Z.of_nat (length l) <= storagemanager.maxNumFolders ->
      acc = space (sum numSectors) (sum storedSectors) (sum freeOf)
      /\ sum numSectors = sum storedSectors + sum freeOf
      /\ 0 <= sum storedSectors /\ 0 <= sum freeOf
      /\ sum numSectors
         <= Z.of_nat (length l) * storagemanager.maxSectorsPerFolder).
Proof.
  destruct pow_bounds as [Emax Enum]. rewrite Emax, Enum.
  induction l as [|[p sf] l [IHm IHe]]; cbn zeta in *.
  - split; [reflexivity|]. intros _ _. simpl. repeat split; lia.
  - cbn [foldr uncurry]. cbn [storagemanager.HostSpace.TotalSectors
      storagemanager.HostSpace.UsedSectors storagemanager.HostSpace.FreeSectors].
    split.
    + rewrite IHm. apply wrap_space.
    + intros Hall Hlen. inversion Hall as [|? ? [Hsf Hcap] Hall']; subst.
      simpl snd in *. cbn [length] in Hlen.
      destruct (IHe Hall' ltac:(lia)) as (Eacc & Esum & Hu & Hf & Ht).
      rewrite Eacc. cbn [storagemanager.HostSpace.TotalSectors
        storagemanager.HostSpace.UsedSectors storagemanager.HostSpace.FreeSectors].
      unfold storagemanager.freeOf in *. rewrite Emax in Hcap.
      rewrite (wrapU64_small (numSectors sf - storedSectors sf)) by lia.
      rewrite !wrapU64_small by lia.
      cbn [length]. repeat split; lia.
Qed.

(** X13.  The sums of [AvailableSpace] agree in [uint64] whatever the
    registry: the total is the used plus the free sectors, modulo
    [2 ^ 64]. *)
Theorem AvailableSpace_total_mod sm :
  storagemanager.HostSpace.TotalSectors (AvailableSpace sm)
  = wrapU64 (storagemanager.HostSpace.UsedSectors (AvailableSpace sm)
             + storagemanager.HostSpace.FreeSectors (AvailableSpace sm)).
Proof.
  unfold storagemanager.AvailableSpace. rewrite map_fold_foldr.
  exact (proj1 (space_sums_list (map_to_list (sfs (folders sm))))).
Qed.

Lemma registryInvariant_list fm :
  storagemanager.registryInvariant fm ->
  Forall (fun kv => storagemanager.folderInvariant (snd kv))
    (map_to_list (sfs fm))
  /\ Z.of_nat (length (map_to_list (sfs fm))) <= storagemanager.maxNumFolders.
Proof.
  intros [Hall Hsize]. split.
  - apply Forall_forall. intros [p sf] Hin. simpl.
    apply (Hall p). apply elem_of_map_to_list. exact Hin.
  - rewrite length_map_to_list. exact Hsize.
Qed.

(** The sums of [AvailableSpace] under the invariants. *)
Lemma AvailableSpace_sums sm :
  storagemanager.registryInvariant (folders sm) ->
  AvailableSpace sm
  = space (sumOver numSectors (folders sm)) (sumOver storedSectors (folders sm))
      (sumOver freeOf (folders sm))
  /\ storagemanager.HostSpace.TotalSectors (AvailableSpace sm)
     = storagemanager.HostSpace.UsedSectors (AvailableSpace sm)
       + storagemanager.HostSpace.FreeSectors (AvailableSpace sm)
  /\ 0 <= storagemanager.HostSpace.UsedSectors (AvailableSpace sm)
  /\ 0 <= storagemanager.HostSpace.FreeSectors (AvailableSpace sm).
Proof.
  intros Hinv. destruct (registryInvariant_list _ Hinv) as [Hall Hlen].
  unfold storagemanager.AvailableSpace, storagemanager.sumOver.
  rewrite !map_fold_foldr.
  destruct (proj2 (space_sums_list (map_to_list (sfs (folders sm)))) Hall Hlen)
    as (Eacc & Esum & Hu & Hf & _).
  cbn zeta in *. rewrite Eacc.
  cbn [storagemanager.HostSpace.TotalSectors
         storagemanager.HostSpace.UsedSectors storagemanager.HostSpace.FreeSectors].
  repeat split; assumption.
Qed.

(** X14.  On a registry that satisfies the invariants of the data model
    the sums of [AvailableSpace] do not wrap: they are the sums of the
    capacities, of the stored sectors and of the free sectors of the
    folders, the total is the used plus the free sectors, and none is
    negative. *)
Theorem AvailableSpace_exact sm :
  storagemanager.registryInvariant (folders sm) ->
  AvailableSpace sm
  = space (sumOver numSectors (folders sm)) (sumOver storedSectors (folders sm))
      (sumOver freeOf (folders sm))
  /\ storagemanager.HostSpace.TotalSectors (AvailableSpace sm)
     = storagemanager.HostSpace.UsedSectors (AvailableSpace sm)
       + storagemanager.HostSpace.FreeSectors (AvailableSpace sm)
  /\ 0 <= storagemanager.HostSpace.UsedSectors (AvailableSpace sm)
  /\ 0 <= storagemanager.HostSpace.FreeSectors (AvailableSpace sm).
Proof. apply AvailableSpace_sums. Qed.

(** The free sectors of all folders are those of the others and those of
    the folder itself. *)
Lemma free_split_list folderPath sf :
  forall l : list (string * storagemanager.storageFolder),
    NoDup (l.*1) ->
    (In (folderPath, sf) l ->
     foldr (uncurry (fun (_ : string) sf acc => acc + freeOf sf)) 0 l
     = foldr (uncurry (fun (p : string) sf acc =>
                         if decide (p = folderPath) then acc
                         else acc + (numSectors sf - storedSectors sf))) 0 l
       + freeOf sf)
    /\ (folderPath ∉ l.*1 ->
        foldr (uncurry (fun (_ : string) sf acc => acc + freeOf sf)) 0 l
        = foldr (uncurry (fun (p : string) sf acc =>
                            if decide (p = folderPath) then acc
                            else acc + (numSectors sf - storedSectors sf))) 0 l).
Proof.
  induction l as [|[q sf'] l IH]; intros Hnd.
  - split; [intros []|reflexivity].
  - rewrite fmap_cons in Hnd. apply NoDup_cons in Hnd as [Hq Hnd].
    simpl fst in Hq.
    destruct (IH Hnd) as [IHin IHout]. cbn [foldr uncurry].
    unfold storagemanager.freeOf in *.
    split.
    + intros [Heq|Hin].
      * injection Heq as -> ->.
        destruct (decide (folderPath = folderPath)); [|contradiction].
        rewrite (IHout Hq). reflexivity.
      * destruct (decide (q = folderPath)) as [->|Hne].
        -- exfalso. apply Hq. apply list_elem_of_fmap.
           exists (folderPath, sf). split; [reflexivity|].
           apply list_elem_of_In. exact Hin.
        -- rewrite (IHin Hin). lia.
    + rewrite fmap_cons. intros Hnot. apply not_elem_of_cons in Hnot as [Hne Hnot].
      simpl fst in Hne.
      destruct (decide (q = folderPath)) as [->|_]; [contradiction|].
      rewrite (IHout Hnot). reflexivity.
Qed.

(** X15.  [validateShrink] in terms of [AvailableSpace].  On a registry
    that satisfies the invariants of the data model, for a registered
    folder and a target within the bound on a capacity, [validateShrink]
    returns nil exactly when the free sectors of the whole host plus the
    target are at least the capacity that the folder has now. *)
Theorem validateShrink_AvailableSpace folderPath t sm sf :
  storagemanager.registryInvariant (folders sm) ->
  sfs (folders sm) !! folderPath = Some sf ->
  0 <= t <= storagemanager.maxSectorsPerFolder ->
  snd (storagemanager.validateShrink folderPath t (folders sm)) = Returns None
  <-> numSectors sf
      <= storagemanager.HostSpace.FreeSectors (AvailableSpace sm) + t.
Proof.
  intros Hinv Hsf Ht.
  destruct (AvailableSpace_sums sm Hinv) as (Eacc & _).
  rewrite Eacc. cbn [storagemanager.HostSpace.FreeSectors].
  destruct (freeSectorsOfOthers_exact folderPath (folders sm) Hinv) as [E Hb].
  assert (Esplit : sumOver freeOf (folders sm)
                   = storagemanager.sumFreeOfOthers folderPath (folders sm)
                     + freeOf sf).
  { unfold storagemanager.sumOver, storagemanager.sumFreeOfOthers.
    rewrite !map_fold_foldr.
    apply (free_split_list folderPath sf (map_to_list (sfs (folders sm)))).
    - apply (NoDup_fst_map_to_list (sfs (folders sm))).
    - apply list_elem_of_In, elem_of_map_to_list. exact Hsf. }
  rewrite Esplit. unfold storagemanager.freeOf.
  destruct pow_bounds as [Emax Enum]. rewrite Emax, Enum in *.
  unfold storagemanager.validateShrink. rewrite Hsf, E.
  rewrite wrapU64_small by lia.
  destruct (Z.ltb_spec (storagemanager.sumFreeOfOthers folderPath (folders sm) + t)
              (storedSectors sf)); simpl; split; intros Hv;
    try reflexivity; try discriminate Hv; lia.
Qed.

End SpaceFacts.

Section FoldersFacts.

Local Abbreviation sfs := storagemanager.sfs.
Local Abbreviation folders := storagemanager.folders.
Local Abbreviation Folders := storagemanager.Folders.
Local Abbreviation AvailableSpace := storagemanager.AvailableSpace.

Lemma folders_sums_list (l : list (string * storagemanager.storageFolder)) :
  let acc :=
    foldr (uncurry (fun (_ : string) sf acc =>
                      storagemanager.HostSpace.mk
                        (wrapU64 (storagemanager.HostSpace.TotalSectors acc
                                  + storagemanager.numSectors sf))
                        (wrapU64 (storagemanager.HostSpace.UsedSectors acc
                                  + storagemanager.storedSectors sf))
                        (wrapU64 (storagemanager.HostSpace.FreeSectors acc
                                  + wrapU64 (storagemanager.numSectors sf
                                             - storagemanager.storedSectors sf)))))
      (storagemanager.HostSpace.mk 0 0 0) l in
  let entries :=
    map (fun kv => storagemanager.HostFolder.mk (storagemanager.path (snd kv))
                     (storagemanager.numSectors (snd kv))
                     (storagemanager.storedSectors (snd kv))) l in
  storagemanager.HostSpace.TotalSectors acc
  = wrapU64 (foldr (fun hf n => n + storagemanager.HostFolder.TotalSectors hf)
               0 entries)
  /\ storagemanager.HostSpace.UsedSectors acc
     = wrapU64 (foldr (fun hf n => n + storagemanager.HostFolder.UsedSectors hf)
                  0 entries).
Proof.
  induction l as [|[p sf] l [IHt IHu]]; cbn zeta in *; [split; reflexivity|].
  cbn [foldr uncurry map snd storagemanager.HostSpace.TotalSectors
         storagemanager.HostSpace.UsedSectors
         storagemanager.HostFolder.TotalSectors
         storagemanager.HostFolder.UsedSectors].
  rewrite IHt, IHu, !wrapU64_add_l. split; reflexivity.
Qed.

(** X16.  [Folders] lists each folder of the registry once, with its path,
    capacity and stored sectors, and nothing else; and the capacities and
    the stored sectors it lists add up, in [uint64], to the total and the
    used sectors of [AvailableSpace]. *)
Theorem Folders_entries sm :
  Z.of_nat (length (Folders sm)) = storagemanager.size (folders sm)
  /\ (forall hf,
        In hf (Folders sm) <->
        exists p sf,
          sfs (folders sm) !! p = Some sf
          /\ hf = storagemanager.HostFolder.mk (storagemanager.path sf)
                    (storagemanager.numSectors sf)
                    (storagemanager.storedSectors sf))
  /\ storagemanager.HostSpace.TotalSectors (AvailableSpace sm)
     = wrapU64 (foldr (fun hf n => n + storagemanager.HostFolder.TotalSectors hf)
                  0 (Folders sm))
  /\ storagemanager.HostSpace.UsedSectors (AvailableSpace sm)
     = wrapU64 (foldr (fun hf n => n + storagemanager.HostFolder.UsedSectors hf)
                  0 (Folders sm)).
Proof.
  unfold storagemanager.Folders, storagemanager.size.
  split; [rewrite length_map, length_map_to_list; reflexivity|].
  split.
  - intros hf. rewrite in_map_iff. split.
    + intros ([p sf] & <- & Hin). exists p, sf. split; [|reflexivity].
      apply elem_of_map_to_list, list_elem_of_In. exact Hin.
    + intros (p & sf & Hp & ->). exists (p, sf). split; [reflexivity|].
      apply list_elem_of_In, elem_of_map_to_list. exact Hp.
  - unfold storagemanager.AvailableSpace. rewrite map_fold_foldr.
    apply folders_sums_list.
Qed.

End FoldersFacts.

Section GetFoldersFacts.

Variable commonLock :
  list string -> storagemanager.folderManager -> storagemanager.folderManager.

Local Abbreviation sfs := storagemanager.sfs.
Local Abbreviation lookupFolders := storagemanager.lookupFolders.
Local Abbreviation getFolders := (storagemanager.getFolders commonLock).

Lemma lookupFolders_missing fm : forall folderPaths locks found,
  (exists p, In p folderPaths /\ sfs fm !! p = None) ->
  lookupFolders folderPaths fm locks found = None.
Proof.
  induction folderPaths as [|q rest IH]; intros locks found (p & Hin & Hp);
    [destruct Hin|].
  cbn [storagemanager.lookupFolders].
  destruct (sfs fm !! q) as [sf|] eqn:Hq; [|reflexivity].
  apply IH. destruct Hin as [->|Hin]; [congruence|]. exists p. auto.
Qed.

Lemma lookupFolders_found fm : forall folderPaths locks found,
  (forall p, In p folderPaths -> is_Some (sfs fm !! p)) ->
  exists found',
    lookupFolders folderPaths fm locks found = Some (locks ++ folderPaths, found')
    /\ (forall i, is_Some (found !! i) -> is_Some (found' !! i))
    /\ (forall p sf, In p folderPaths -> sfs fm !! p = Some sf ->
          is_Some (found' !! storagemanager.id sf))
    /\ (forall i p, found' !! i = Some p ->
          found !! i = Some p
          \/ (In p folderPaths
              /\ exists sf, sfs fm !! p = Some sf /\ storagemanager.id sf = i)).
Proof.
  induction folderPaths as [|q rest IH]; intros locks found Hall.
  - exists found. rewrite app_nil_r. split; [reflexivity|].
    split; [auto|]. split; [intros p sf []|auto].
  - cbn [storagemanager.lookupFolders].
    destruct (Hall q ltac:(left; reflexivity)) as [sfq Hq]. rewrite Hq.
    destruct (IH (locks ++ [q]) (<[storagemanager.id sfq := q]> found))
      as (found' & E & Hkeep & Hhas & Hfrom).
    { intros p Hp. apply Hall. right. exact Hp. }
    exists found'. rewrite E, <- app_assoc. split; [reflexivity|].
    split; [|split].
    + intros i Hi. apply Hkeep.
      destruct (decide (storagemanager.id sfq = i)) as [<-|Hne].
      * rewrite lookup_insert_eq. eauto.
      * rewrite lookup_insert_ne by exact Hne. exact Hi.
    + intros p sf [<-|Hin] Hp.
      * rewrite Hq in Hp. injection Hp as <-.
        apply Hkeep. rewrite lookup_insert_eq. eauto.
      * apply (Hhas p sf Hin Hp).
    + intros i p Hi.
      destruct (Hfrom i p Hi) as [Hins|(Hin & sf & Hp & Hid)].
      * destruct (decide (storagemanager.id sfq = i)) as [<-|Hne].
        -- rewrite lookup_insert_eq in Hins. injection Hins as <-.
           right. split; [left; reflexivity|]. exists sfq. split; [exact Hq|reflexivity].
        -- rewrite lookup_insert_ne in Hins by exact Hne. left. exact Hins.
      * right. split; [right; exact Hin|]. exists sf. split; [exact Hp|exact Hid].
Qed.

(** X17.  [getFolders].  When one of the paths is not registered it
    returns an empty map and the error "folder not exist", takes no folder
    lock, and leaves the read lock of the folder manager held (one holder
    more than before the call: this path returns without [RUnlock]).  When
    all the paths are registered it returns no error, hands the locks of
    the folders, in the order of the paths, to [common.Lock], leaves the
    read lock as it was, and every entry of the map it returns is, under
    the id that a folder of one of the paths had, the folder that the
    registry holds under that path when the call returns.  When
    [common.Lock] leaves each folder it is given locked and otherwise as
    it was, the map has an entry for the id of each of the folders, and
    every folder in it is locked and is under its own id. *)
Theorem getFolders_result folderPaths fm readers :
  ((exists p, In p folderPaths /\ sfs fm !! p = None) ->
   getFolders folderPaths fm readers
   = (fm, S readers, ∅, Some (errorString "folder not exist")))
  /\ ((forall p, In p folderPaths -> is_Some (sfs fm !! p)) ->
      exists found,
        getFolders folderPaths fm readers
        = (commonLock folderPaths fm, readers, found, None)
        /\ (forall i sf', found !! i = Some sf' ->
              exists p sf,
                In p folderPaths /\ sfs fm !! p = Some sf
                /\ storagemanager.id sf = i
                /\ sfs (commonLock folderPaths fm) !! p = Some sf')
        /\ ((forall p sf, In p folderPaths -> sfs fm !! p = Some sf ->
               sfs (commonLock folderPaths fm) !! p
               = Some (storagemanager.setLock true sf)) ->
            (forall p sf, In p folderPaths -> sfs fm !! p = Some sf ->
               exists sf', found !! storagemanager.id sf = Some sf')
            /\ (forall i sf', found !! i = Some sf' ->
                  storagemanager.lock sf' = true
                  /\ storagemanager.id sf' = i))).
Proof.
  unfold storagemanager.getFolders. split.
  - intros Hmiss. rewrite (lookupFolders_missing fm _ _ _ Hmiss). reflexivity.
  - intros Hall.
    destruct (lookupFolders_found fm folderPaths [] ∅ Hall)
      as (ptrs & E & _ & Hhas & Hfrom).
    rewrite E. cbn [app Nat.pred].
    exists (storagemanager.pointedFolders ptrs (commonLock folderPaths fm)).
    split; [reflexivity|].
    assert (Hentry : forall i sf',
               storagemanager.pointedFolders ptrs (commonLock folderPaths fm) !! i
               = Some sf' ->
               exists p sf,
                 In p folderPaths /\ sfs fm !! p = Some sf
                 /\ storagemanager.id sf = i
                 /\ sfs (commonLock folderPaths fm) !! p = Some sf').
    { intros i sf' Hi. unfold storagemanager.pointedFolders in Hi.
      rewrite lookup_omap in Hi.
      destruct (ptrs !! i) as [p|] eqn:Hp; [|discriminate Hi].
      cbn in Hi.
      destruct (Hfrom i p Hp) as [Hempty|(Hin & sf & Hsf & Hid)].
      - rewrite lookup_empty in Hempty. discriminate.
      - exists p, sf. repeat split; assumption. }
    split; [exact Hentry|].
    intros Hlock. split.
    + intros p sf Hin Hp.
      destruct (Hhas p sf Hin Hp) as [q Hq].
      destruct (Hfrom _ q Hq) as [Hempty|(Hinq & sfq & Hsfq & Hid)];
        [rewrite lookup_empty in Hempty; discriminate|].
      exists (storagemanager.setLock true sfq).
      unfold storagemanager.pointedFolders. rewrite lookup_omap, Hq. cbn.
      apply (Hlock q sfq Hinq Hsfq).
    + intros i sf' Hi.
      destruct (Hentry i sf' Hi) as (p & sf & Hin & Hp & Hid & Hafter).
      rewrite (Hlock p sf Hin Hp) in Hafter. injection Hafter as <-.
      split; [reflexivity|exact Hid].
Qed.

End GetFoldersFacts.


(** ** [ResizeFolder] *)

Section ResizeFolderFacts.

Variable homeDir : string.
Variable filepathJoin : string -> string -> string.
Variable filepathAbs : string -> string + error.
Variable sizeToNumSectors : Z -> Z.
Variable moveSector :
  storagemanager.storageManager -> Z * storagemanager.sectorRecord ->
  storagemanager.storageManager * option error.
Variable expandFolder :
  string -> Z -> storagemanager.storageManager ->
  storagemanager.storageManager * outcome (option error).

Local Abbreviation sfs := storagemanager.sfs.
Local Abbreviation folders := storagemanager.folders.
Local Abbreviation absolutePath :=
  (storagemanager.absolutePath homeDir filepathJoin filepathAbs).
Local Abbreviation ResizeFolder :=
  (storagemanager.ResizeFolder homeDir filepathJoin filepathAbs
     sizeToNumSectors moveSector expandFolder).

(** X22.  What a nil error of [ResizeFolder] tells.  When [ResizeFolder]
    returns nil, the size asked for is, in sectors, within
    [minSectorsPerFolder] and [maxSectorsPerFolder], and the path, made
    absolute, is that of a registered folder; and when this folder has
    that capacity already, nothing was changed and no sector was moved. *)
Theorem ResizeFolder_success folderPath size sm :
  snd (ResizeFolder folderPath size sm) = Returns None ->
  storagemanager.minSectorsPerFolder <= sizeToNumSectors size
    <= storagemanager.maxSectorsPerFolder
  /\ exists p sf,
       absolutePath folderPath = inl p
       /\ sfs (folders sm) !! p = Some sf
       /\ (sizeToNumSectors size = storagemanager.numSectors sf ->
           ResizeFolder folderPath size sm = (sm, [], Returns None)).
Proof.
  unfold storagemanager.ResizeFolder, storagemanager.getWithoutLock.
  destruct (absolutePath folderPath) as [p|e]; [|discriminate].
  destruct (Z.ltb_spec storagemanager.maxSectorsPerFolder (sizeToNumSectors size))
    as [Hmax|Hmax]; [discriminate|].
  destruct (Z.ltb_spec (sizeToNumSectors size) storagemanager.minSectorsPerFolder)
    as [Hmin|Hmin]; [discriminate|].
  destruct (sfs (folders sm) !! p) as [sf|] eqn:Hp; [|discriminate].
  intros _. split; [lia|].
  exists p, sf. split; [reflexivity|]. split; [exact Hp|].
  intros ->. rewrite Z.eqb_refl. reflexivity.
Qed.

End ResizeFolderFacts.

(** ** The further properties on small hosts *)

(** The second of three passes finds [/b] given back. *)
Lemma selectFolderToAddWithRetry_first_success_witness :
  storagemanager.selectFolderToAddWithRetry example.freeIndex example.everyPass
    example.release 3 example.noRoom
  = (storagemanager.mkFolderManager
       (<["/b"%string := storagemanager.setLock true example.folderB]>
          (storagemanager.sfs example.noRoom)),
     (Some (storagemanager.setLock true example.folderB), 4, None)).
Proof.
  rewrite (selectFolderToAddWithRetry_first_success example.freeIndex
             example.everyPass example.release 3 example.noRoom 1%nat).
  - vm_compute. reflexivity.
  - simpl. lia.
  - intros j Hj. assert (j = 0%nat) as -> by lia. vm_compute. discriminate.
  - vm_compute. reflexivity.
Defined.

Lemma selectFolderToAddWithRetry_last_error_witness :
  snd (storagemanager.selectFolderToAddWithRetry example.freeIndex
         example.everyPass example.idle 3 example.noRoom)
  = (None, 0,
     snd (snd (storagemanager.selectFolderToAdd example.freeIndex
                 (example.everyPass 2)
                 (storagemanager.registryAt example.freeIndex example.everyPass
                    example.idle 2 example.noRoom)))).
Proof.
  apply (selectFolderToAddWithRetry_last_error example.freeIndex
           example.everyPass example.idle 3 example.noRoom).
  - lia.
  - intros j _. rewrite noRoom_registryAt. vm_compute. discriminate.
Defined.

Lemma validateShrink_enough_target_witness :
  storagemanager.registryInvariant example.twoFolders
  /\ snd (storagemanager.validateShrink "/a" 10 example.twoFolders) = Returns None
  /\ snd (storagemanager.validateShrink "/a" 12 example.twoFolders) = Returns None.
Proof.
  split; [exact twoFolders_invariant|].
  destruct (validateShrink_enough_target "/a" 10 12 example.twoFolders
              example.folderA twoFolders_invariant eq_refl
              ltac:(lia) ltac:(vm_compute; discriminate)) as [H1 H2].
  assert (H : snd (storagemanager.validateShrink "/a" 10 example.twoFolders)
              = Returns None) by (apply H1; vm_compute; discriminate).
  split; [exact H|exact (H2 H)].
Defined.

Lemma AvailableSpace_exact_witness :
  storagemanager.registryInvariant (storagemanager.folders example.hostTwo)
  /\ storagemanager.HostSpace.TotalSectors
       (storagemanager.AvailableSpace example.hostTwo)
     = storagemanager.HostSpace.UsedSectors
         (storagemanager.AvailableSpace example.hostTwo)
       + storagemanager.HostSpace.FreeSectors
           (storagemanager.AvailableSpace example.hostTwo).
Proof.
  split; [exact twoFolders_invariant|].
  exact (proj1 (proj2 (AvailableSpace_exact example.hostTwo
                         twoFolders_invariant))).
Defined.

Example AvailableSpace_two :
  storagemanager.AvailableSpace example.hostTwo
  = storagemanager.HostSpace.mk 32 14 18.
Proof. vm_compute. reflexivity. Qed.

Lemma validateShrink_AvailableSpace_witness :
  storagemanager.registryInvariant (storagemanager.folders example.hostTwo)
  /\ snd (storagemanager.validateShrink "/a" 8
            (storagemanager.folders example.hostTwo)) = Returns None.
Proof.
  split; [exact twoFolders_invariant|].
  apply (validateShrink_AvailableSpace "/a" 8 example.hostTwo example.folderA
           twoFolders_invariant eq_refl ltac:(vm_compute; intuition discriminate)).
  vm_compute. discriminate.
Defined.

Example Folders_two :
  storagemanager.Folders example.hostTwo
  ≡ₚ [storagemanager.HostFolder.mk "/a" 16 10;
      storagemanager.HostFolder.mk "/b" 16 4].
Proof.
  vm_compute.
  first [reflexivity | apply perm_swap].
Qed.

(** [getFolders] with a path that is not registered, and with the two that
    are: the folders of the result are locked. *)
Lemma takeLocks_two p sf :
  In p ["/a"; "/b"]%string ->
  storagemanager.sfs example.twoFolders !! p = Some sf ->
  storagemanager.sfs (example.takeLocks ["/a"; "/b"]%string example.twoFolders)
    !! p = Some (storagemanager.setLock true sf).
Proof.
  intros [<-|[<-|[]]] Hp; vm_compute in Hp; injection Hp as <-;
    vm_compute; reflexivity.
Defined.

Lemma getFolders_result_witness :
  storagemanager.getFolders example.takeLocks ["/a"; "/c"]%string
    example.twoFolders 0
  = (example.twoFolders, 1%nat, ∅, Some (errorString "folder not exist"))
  /\ exists found,
       storagemanager.getFolders example.takeLocks ["/a"; "/b"]%string
         example.twoFolders 0
       = (example.takeLocks ["/a"; "/b"]%string example.twoFolders, 0%nat,
          found, None)
       /\ (exists sf, found !! 1 = Some sf /\ storagemanager.lock sf = true)
       /\ (exists sf, found !! 2 = Some sf /\ storagemanager.lock sf = true).
Proof.
  split.
  - apply (proj1 (getFolders_result example.takeLocks ["/a"; "/c"]%string
                    example.twoFolders 0)).
    exists "/c"%string. split; [right; left; reflexivity|reflexivity].
  - destruct (proj2 (getFolders_result example.takeLocks ["/a"; "/b"]%string
                       example.twoFolders 0))
      as (found & E & _ & Hlocked).
    { intros p [<-|[<-|[]]]; eexists; reflexivity. }
    destruct (Hlocked takeLocks_two) as [Hhas Hall].
    exists found. split; [exact E|]. split.
    + destruct (Hhas "/a"%string example.folderA
                  ltac:(left; reflexivity) eq_refl) as [sf Hsf].
      exists sf. split; [exact Hsf|exact (proj1 (Hall _ sf Hsf))].
    + destruct (Hhas "/b"%string example.folderB
                  ltac:(right; left; reflexivity) eq_refl) as [sf Hsf].
      exists sf. split; [exact Hsf|exact (proj1 (Hall _ sf Hsf))].
Defined.

Example getFolders_two :
  storagemanager.getFolders example.takeLocks ["/a"; "/b"]%string
    example.twoFolders 0
  = (example.takeLocks ["/a"; "/b"]%string example.twoFolders, 0%nat,
     <[1 := storagemanager.setLock true example.folderA]>
       {[ 2 := storagemanager.setLock true example.folderB ]},
     None).
Proof. vm_compute. reflexivity. Qed.

(** The recovery pass with a manager stopped at index 1, with a thread
    manager that refuses at index 0, and with a log that cannot be
    opened. *)
Lemma Start_stopped_abandons_witness :
  example.opensLog example.host example.log
  /\ (forall ev,
        In ev (snd (fst (storagemanager.Start string example.decode
                           example.getSalt example.loadAll example.loadOne
                           example.join example.openWal example.stoppedAt1
                           example.addOk example.lockOk example.host))) ->
        (1 < storagemanager.eventIndex ev)%nat)
  /\ snd (storagemanager.Start string example.decode example.getSalt
            example.loadAll example.loadOne example.join example.openWal
            example.stoppedAt1 example.addOk example.lockOk example.host)
     = Returns None.
Proof.
  split; [exact example_opensLog|].
  destruct (Start_stopped_abandons string example.decode example.getSalt
              example.loadAll example.loadOne example.join example.openWal
              example.stoppedAt1 example.addOk example.lockOk
              example.host example.log 1%nat example_opensLog
              ltac:(simpl; lia) eq_refl) as [Hev Hnil].
  split; [exact Hev|]. apply Hnil. intros i. reflexivity.
Defined.

Example Start_stopped_example :
  snd (fst (storagemanager.Start string example.decode example.getSalt
              example.loadAll example.loadOne example.join example.openWal
              example.stoppedAt1 example.addOk example.lockOk example.host))
  = [storagemanager.evProcess 2%nat "deleteSector"%string 1].
Proof. reflexivity. Qed.

Lemma Start_add_failure_witness :
  example.opensLog example.host example.log
  /\ example.addFailsAt0 0 = Some (errorString "thread manager stopped")
  /\ (forall ev,
        In ev (snd (fst (storagemanager.Start string example.decode
                           example.getSalt example.loadAll example.loadOne
                           example.join example.openWal example.running
                           example.addFailsAt0 example.lockOk example.host))) ->
        (0 < storagemanager.eventIndex ev)%nat)
  /\ snd (storagemanager.Start string example.decode example.getSalt
            example.loadAll example.loadOne example.join example.openWal
            example.running example.addFailsAt0 example.lockOk example.host)
     = Returns (Some (errorString "thread manager stopped")).
Proof.
  split; [exact example_opensLog|]. split; [reflexivity|].
  destruct (Start_add_failure string example.decode example.getSalt
              example.loadAll example.loadOne example.join example.openWal
              example.running example.addFailsAt0 example.lockOk
              example.host example.log 0%nat
              (storagemanager.mkTransaction
                 [storagemanager.mkOperation "addSector" [1]] true)
              "addSector"%string (errorString "thread manager stopped")
              example_opensLog eq_refl eq_refl eq_refl) as [Hev Hres].
  split; [exact Hev|]. apply Hres.
  - intros i. reflexivity.
  - intros i Hi. unfold example.addFailsAt0.
    destruct (Nat.eqb_spec i 0) as [->|_]; [contradiction|reflexivity].
Defined.

Lemma Start_needs_log_witness :
  (forall txns,
      ~ storagemanager.opensLog example.getSalt example.loadAll example.loadOne
          example.join example.noWal example.host txns)
  /\ snd (fst (storagemanager.Start string example.decode example.getSalt
                 example.loadAll example.loadOne example.join example.noWal
                 example.running example.addOk example.lockOk example.host))
     = []
  /\ exists msg cause,
       snd (storagemanager.Start string example.decode example.getSalt
              example.loadAll example.loadOne example.join example.noWal
              example.running example.addOk example.lockOk example.host)
       = Returns (Some (errorf msg cause)).
Proof.
  assert (Hno : forall txns,
             ~ storagemanager.opensLog example.getSalt example.loadAll
                 example.loadOne example.join example.noWal example.host txns).
  { intros txns (_ & _ & H). discriminate H. }
  split; [exact Hno|].
  exact (Start_needs_log string example.decode example.getSalt
           example.loadAll example.loadOne example.join example.noWal
           example.running example.addOk example.lockOk example.host Hno).
Defined.

Example Start_no_wal :
  snd (storagemanager.Start string example.decode example.getSalt
         example.loadAll example.loadOne example.join example.noWal
         example.running example.addOk example.lockOk example.host)
  = Returns (Some (errorf "cannot open the wal" (errorString "no such file"))).
Proof. reflexivity. Qed.

Lemma loadFolderManager_result_witness :
  exists fm,
    storagemanager.loadFolderManager example.loadTwo example.loadOne
      example.emptyDatabase = inl fm
    /\ storagemanager.sfs fm !! "/a"%string = Some example.folderA
    /\ storagemanager.sfs fm !! "/c"%string = None.
Proof.
  destruct (loadFolderManager_result example.loadTwo example.loadOne
              example.emptyDatabase (storagemanager.sfs example.twoFolders)
              eq_refl) as (Hok & _ & Hex).
  destruct Hex as [fm E].
  { intros p sf _. exists sf. reflexivity. }
  exists fm. split; [exact E|]. split.
  - pose proof (Hok fm E "/a"%string) as H.
    change (storagemanager.sfs example.twoFolders !! "/a"%string)
      with (Some example.folderA) in H.
    destruct H as (sf' & Hl & Hs). injection Hl as <-. exact Hs.
  - exact (Hok fm E "/c"%string).
Defined.

Lemma ResizeFolder_success_witness :
  snd (example.ResizeFolder "/spare" 32768 example.hostWithFolders)
  = Returns None
  /\ storagemanager.minSectorsPerFolder <= example.toSectors 32768
       <= storagemanager.maxSectorsPerFolder.
Proof.
  assert (H : snd (example.ResizeFolder "/spare" 32768 example.hostWithFolders)
              = Returns None) by reflexivity.
  split; [exact H|].
  exact (proj1 (ResizeFolder_success example.home example.join example.absolute
                  example.toSectors example.relocate example.expand
                  "/spare" 32768 example.hostWithFolders H)).
Defined.

Example ResizeFolder_too_small :
  example.ResizeFolder "/nowhere" 4096 example.hostWithFolders
  = (example.hostWithFolders, [],
     Returns (Some (errorString "folder size too small"))).
Proof. reflexivity. Qed.
